(** * A shallow embedding of parts of hikari

    [hikari/internal/collections.py]: [LimitedCapacityCacheMap] and
    [SnowflakeSet]; [hikari/impl/entity_factory.py]: the channel, embed,
    member, presence, invite and audit-log (de)serializers. *)

From Stdlib Require Import String Ascii List ZArith Lia Bool Sorting.Sorted.
Import ListNotations.
Open Scope Z_scope.

(** ** LimitedCapacityCacheMap: an insertion-ordered dict with eviction *)

Module LimitedCapacityCacheMap.
Section Map.
Context {K V : Type} (K_eq_dec : forall a b : K, {a = b} + {a <> b}).

(** A Python [dict] as its items in insertion order (no key twice). *)
Definition dict := list (K * V).

Definition keys (d : dict) : list K := map fst d.

Definition mem (k : K) (d : dict) : bool :=
  existsb (fun kv => if K_eq_dec (fst kv) k then true else false) d.

(** [d[k] = v]: an existing key keeps its position, a new one goes last. *)
Definition dict_set (d : dict) (k : K) (v : V) : dict :=
  if mem k d then map (fun kv => if K_eq_dec (fst kv) k then (k, v) else kv) d
  else d ++ [(k, v)].

(** [del d[k]]; [None] is the [KeyError] of an absent key. *)
Definition dict_del (d : dict) (k : K) : option dict :=
  if mem k d then Some (filter (fun kv => if K_eq_dec (fst kv) k then false else true) d)
  else None.

(** The instance: [_data], [_limit] (a non-negative [int]) and whether an
    [_on_expire] callback is set. Each call of the callback is recorded in
    [expired] with the value it receives and the contents of [_data] at the
    moment of the call. *)
Record state := mk_state {
  data : dict;
  limit : nat;
  on_expire : bool;
  expired : list (V * dict)
}.

(** [_garbage_collect]:
<<
    while len(self._data) > self._limit:
        value = self._data.pop(next(iter(self._data)))
        if self._on_expire:
            self._on_expire(value)
>> *)
Fixpoint garbage_collect (lim : nat) (cb : bool) (d : dict) (log : list (V * dict))
    : dict * list (V * dict) :=
  match d with
  | [] => ([], log)
  | (k, v) :: rest =>
      if Nat.leb (length d) lim then (d, log)
      else garbage_collect lim cb rest (if cb then log ++ [(v, rest)] else log)
  end.

Definition gc_state (st : state) : state :=
  let (d, log) := garbage_collect (limit st) (on_expire st) (data st) (expired st) in
  mk_state d (limit st) (on_expire st) log.

(** [__init__(source, limit=..., on_expire=...)]. *)
Definition init (source : dict) (lim : nat) (cb : bool) : state :=
  gc_state (mk_state source lim cb []).

(** [__setitem__]. *)
Definition setitem (st : state) (k : K) (v : V) : state :=
  gc_state (mk_state (dict_set (data st) k v) (limit st) (on_expire st) (expired st)).

(** [__delitem__]; [None] is the [KeyError]. *)
Definition delitem (st : state) (k : K) : option state :=
  match dict_del (data st) k with
  | Some d => Some (mk_state d (limit st) (on_expire st) (expired st))
  | None => None
  end.

(** [clear]. *)
Definition clear (st : state) : state :=
  mk_state [] (limit st) (on_expire st) (expired st).

(** [__getitem__]; [None] is the [KeyError]. *)
Definition getitem (st : state) (k : K) : option V :=
  match find (fun kv => if K_eq_dec (fst kv) k then true else false) (data st) with
  | Some kv => Some (snd kv)
  | None => None
  end.

(** [copy]: [LimitedCapacityCacheMap(self._data.copy(), limit=self._limit,
    on_expire=self._on_expire)], a new map whose callback calls are its own. *)
Definition copy (st : state) : state := init (data st) (limit st) (on_expire st).

(** [freeze]: [self._data.copy()]. *)
Definition freeze (st : state) : dict := data st.

(** A sequence of [m[k] = v] and [del m[k]] statements. *)
Inductive op := Set_ (k : K) (v : V) | Del (k : K).

Definition run_op (st : state) (o : op) : option state :=
  match o with Set_ k v => Some (setitem st k v) | Del k => delitem st k end.

Fixpoint run (st : state) (ops : list op) : option state :=
  match ops with
  | [] => Some st
  | o :: rest => match run_op st o with Some st' => run st' rest | None => None end
  end.

End Map.
End LimitedCapacityCacheMap.

(** The eviction rule as the documentation states it, for comparison with
    the code: every present key carries the time of its (re)insertion, an
    update of a present key keeps that time, and when more than [limit] keys
    are present the entry inserted earliest is evicted and its value handed
    to [on_expire]. *)
Module CacheMapSpec.
Section Spec.
Context {K V : Type} (K_eq_dec : forall a b : K, {a = b} + {a <> b}).

Definition entry := (K * V * nat)%type.
Definition ekey (e : entry) : K := fst (fst e).
Definition evalue (e : entry) : V := snd (fst e).
Definition estamp (e : entry) : nat := snd e.

Definition has_key (k : K) (e : entry) : bool := if K_eq_dec (ekey e) k then true else false.

(** The entry with the smallest insertion time. *)
Fixpoint earliest (es : list entry) : option entry :=
  match es with
  | [] => None
  | e :: r =>
      match earliest r with
      | Some a => if Nat.ltb (estamp a) (estamp e) then Some a else Some e
      | None => Some e
      end
  end.

(** [m[k] = v] at time [t]: the new entries and the evicted (key, value). *)
Definition spec_set (lim t : nat) (es : list entry) (k : K) (v : V)
    : list entry * list (K * V) :=
  if existsb (has_key k) es then
    (map (fun e => if has_key k e then (k, v, estamp e) else e) es, [])
  else
    let es' := es ++ [(k, v, t)] in
    if Nat.leb (length es') lim then (es', [])
    else match earliest es' with
         | Some e => (filter (fun e' => negb (has_key (ekey e) e')) es', [(ekey e, evalue e)])
         | None => (es', [])
         end.

Definition spec_del (es : list entry) (k : K) : option (list entry) :=
  if existsb (has_key k) es then Some (filter (fun e => negb (has_key k e)) es) else None.

(** Runs the statements from time [t] on; the evictions are listed in order. *)
Fixpoint spec_run (lim t : nat) (es : list entry) (evs : list (K * V))
    (ops : list (LimitedCapacityCacheMap.op (K:=K) (V:=V)))
    : option (list entry * list (K * V)) :=
  match ops with
  | [] => Some (es, evs)
  | LimitedCapacityCacheMap.Set_ k v :: rest =>
      let (es', ev) := spec_set lim t es k v in spec_run lim (S t) es' (evs ++ ev) rest
  | LimitedCapacityCacheMap.Del k :: rest =>
      match spec_del es k with
      | Some es' => spec_run lim (S t) es' evs rest
      | None => None
      end
  end.

End Spec.
End CacheMapSpec.


(** ** SnowflakeSet: a sorted bisect-array of unsigned 64 bit integers *)

Module SnowflakeSet.

(** The loop of [bisect.bisect_left] (the C implementation follows the pure
    Python one):
<<
    while lo < hi:
        mid = (lo + hi) // 2
        if a[mid] < x: lo = mid + 1
        else: hi = mid
    return lo
>>
    The fuel is [S (length a)], more than [hi - lo] can ever be. *)
Fixpoint bisect_loop (fuel : nat) (a : list Z) (x : Z) (lo hi : nat) : nat :=
  match fuel with
  | O => lo
  | S fuel' =>
      if Nat.ltb lo hi then
        let mid := Nat.div (lo + hi) 2 in
        if nth mid a 0 <? x then bisect_loop fuel' a x (S mid) hi
        else bisect_loop fuel' a x lo mid
      else lo
  end.

Definition bisect_left (a : list Z) (x : Z) : nat :=
  bisect_loop (S (length a)) a x 0 (length a).

(** [array.array("Q")] stores unsigned 64 bit integers; storing anything else
    raises [OverflowError]. *)
Inductive error := OverflowError.

Definition in_u64 (v : Z) : bool := (0 <=? v) && (v <? 2 ^ 64).

Definition array_append (a : list Z) (v : Z) : option (list Z) :=
  if in_u64 v then Some (a ++ [v]) else None.

(** [list.insert(index, v)] for [index <= len(a)]. *)
Definition array_insert (a : list Z) (index : nat) (v : Z) : option (list Z) :=
  if in_u64 v then Some (firstn index a ++ v :: skipn index a) else None.

(** [SnowflakeSet.add]; [None] is the [OverflowError] of the array. *)
Definition add (ids : list Z) (value : Z) : option (list Z) :=
  let index := bisect_left ids value in
  if Nat.eqb index (length ids) then array_append ids value
  else if negb (nth index ids 0 =? value) then array_insert ids index value
  else Some ids.

(** [SnowflakeSet.add_all]: the same body repeated over the iterable. *)
Fixpoint add_all (ids : list Z) (sfs : list Z) : option (list Z) :=
  match sfs with
  | [] => Some ids
  | sf :: rest =>
      let index := bisect_left ids sf in
      let step :=
        if Nat.eqb index (length ids) then array_append ids sf
        else if negb (nth index ids 0 =? sf) then array_insert ids index sf
        else Some ids in
      match step with
      | Some ids' => add_all ids' rest
      | None => None
      end
  end.

(** The [__init__] of [SnowflakeSet], given the ids as a list. *)
Definition init (ids : list Z) : option (list Z) :=
  match ids with [] => Some [] | _ => add_all [] ids end.

(** [__iter__] maps [Snowflake] (an [int] subclass) over the array. *)
Definition iter (ids : list Z) : list Z := ids.

(** A sequence of calls made on one set. *)
Inductive op := Add (v : Z) | AddAll (vs : list Z).

Definition run_op (ids : list Z) (o : op) : option (list Z) :=
  match o with Add v => add ids v | AddAll vs => add_all ids vs end.

Fixpoint run (ids : list Z) (ops : list op) : option (list Z) :=
  match ops with
  | [] => Some ids
  | o :: rest => match run_op ids o with Some ids' => run ids' rest | None => None end
  end.

Definition op_values (o : op) : list Z :=
  match o with Add v => [v] | AddAll vs => vs end.

(** [SnowflakeSet.discard]:
<<
    if not self._ids: return
    index = bisect.bisect_left(self._ids, value)
    if index < len(self) and self._ids[index] == value: del self._ids[index]
>> *)
Definition discard (ids : list Z) (value : Z) : list Z :=
  match ids with
  | [] => []
  | _ =>
      let index := bisect_left ids value in
      if Nat.ltb index (length ids) && (nth index ids 0 =? value)
      then firstn index ids ++ skipn (S index) ids
      else ids
  end.

(** An object given to [in]: an [int], a [bool] (an [int] subclass) or
    anything else. *)
Inductive pyobj := PInt (z : Z) | PBool (b : bool) | POther.

(** [SnowflakeSet.__contains__]:
<<
    if not isinstance(value, int): return False
    index = bisect.bisect_left(self._ids, value)
    if index < len(self._ids): return self._ids[index] == value
    return False
>> *)
Definition contains (ids : list Z) (value : pyobj) : bool :=
  match match value with
        | PInt z => Some z
        | PBool b => Some (if b then 1 else 0)
        | POther => None
        end with
  | None => false
  | Some v =>
      let index := bisect_left ids v in
      if Nat.ltb index (length ids) then nth index ids 0 =? v else false
  end.

(** [SnowflakeSet.__len__]. *)
Definition len (ids : list Z) : nat := length ids.

End SnowflakeSet.

(** ** Python values, errors and the payload accessors of the entity factory *)

Module Py.

(** A decoded JSON payload ([json.loads]); numbers are integers here. *)
Inductive json :=
| JNull
| JBool (b : bool)
| JInt (z : Z)
| JStr (s : string)
| JArr (l : list json)
| JObj (o : list (string * json)).

(** A [JSONObject]: a dict from [json.loads], with distinct keys. *)
Definition obj := list (string * json).

Inductive py_error :=
| KeyError (key : json)
| IndexError
| TypeError (msg : string)
| ValueError.

Inductive result (A : Type) := Ok (a : A) | Err (e : py_error).
Arguments Ok {A} a.
Arguments Err {A} e.

Definition bind {A B : Type} (m : result A) (f : A -> result B) : result B :=
  match m with Ok a => f a | Err e => Err e end.

Notation "x <- m ;; f" := (bind m (fun x => f)) (at level 61, m at next level, right associativity).

Fixpoint lookup (o : obj) (k : string) : option json :=
  match o with
  | [] => None
  | (k', v) :: rest => if String.eqb k' k then Some v else lookup rest k
  end.

(** [payload[k]]. *)
Definition getitem (o : obj) (k : string) : result json :=
  match lookup o k with Some v => Ok v | None => Err (KeyError (JStr k)) end.

(** [payload.get(k)]: [None] (the JSON null) when absent. *)
Definition get (o : obj) (k : string) : json :=
  match lookup o k with Some v => v | None => JNull end.

(** [payload.get(k, default)]. *)
Definition get_default (o : obj) (k : string) (d : json) : json :=
  match lookup o k with Some v => v | None => d end.

(** [k in payload]. *)
Definition contains (o : obj) (k : string) : bool :=
  match lookup o k with Some _ => true | None => false end.

Definition is_none (j : json) : bool := match j with JNull => true | _ => false end.

(** Subscripting a value with a str key: only a dict allows it. *)
Definition as_obj (j : json) : result obj :=
  match j with JObj o => Ok o | _ => Err (TypeError "subscript of a non-dict") end.

(** Iterating a value: only a list here. *)
Definition as_list (j : json) : result (list json) :=
  match j with JArr l => Ok l | _ => Err (TypeError "iteration over a non-list") end.

(** [x[0]] on a list. *)
Definition index0 (j : json) : result json :=
  l <- as_list j ;; match l with v :: _ => Ok v | [] => Err IndexError end.

Fixpoint map_result {A B : Type} (f : A -> result B) (l : list A) : result (list B) :=
  match l with
  | [] => Ok []
  | a :: rest => b <- f a ;; bs <- map_result f rest ;; Ok (b :: bs)
  end.

(** A dict built by a comprehension: a later equal key overwrites the value
    and keeps the first position. *)
Fixpoint dict_insert {V : Type} (d : list (Z * V)) (k : Z) (v : V) : list (Z * V) :=
  match d with
  | [] => [(k, v)]
  | (k', v') :: rest => if Z.eqb k' k then (k, v) :: rest else (k', v') :: dict_insert rest k v
  end.

Definition dict_of_pairs {V : Type} (l : list (Z * V)) : list (Z * V) :=
  fold_left (fun d kv => dict_insert d (fst kv) (snd kv)) l [].

(** [a == b] between a payload value and an [int] (an [IntEnum] member):
    [True == 1] in Python. *)
Definition eq_int (j : json) (z : Z) : bool :=
  match j with
  | JInt z' => Z.eqb z' z
  | JBool b => Z.eqb (if b then 1 else 0) z
  | _ => false
  end.

End Py.

Import Py.

(** ** [get_index_or_slice] of [hikari/internal/collections.py] *)

Module GetIndexOrSlice.

Definition maxsize : Z := 2 ^ 63 - 1.

Inductive index_or_slice := Index (i : Z) | Slice (start stop step : option Z).

Inductive error := IndexError (i : Z) | ValueError.

Inductive value_or_seq (V : Type) := One (v : V) | Many (vs : list V).
Arguments One {V} v.
Arguments Many {V} vs.

(** A [Py_ssize_t] after C's wrap-around of a sum (the [(size_t)] cast of
    [islice_next]). *)
Definition ssize_wrap (z : Z) : Z := (z + 2 ^ 63) mod 2 ^ 64 - 2 ^ 63.

(** [PyNumber_AsSsize_t(x, NULL)]: an [int] outside [Py_ssize_t] is clipped
    to [-sys.maxsize - 1] or [sys.maxsize]. *)
Definition ssize_clip (z : Z) : Z := Z.max (- maxsize - 1) (Z.min maxsize z).

Section Islice.
Context {A : Type}.

(** The iteration of [itertools.islice] (CPython's [islice_next]): [cnt]
    items consumed so far, [next] the index of the next item to yield,
    [stop] [-1] for [None]. [cnt] counts items of the list, so it stays
    below [sys.maxsize] for any list Python can hold.
<<
    while (lz->cnt < lz->next) { item = iternext(it); if (item == NULL) goto empty; ...; lz->cnt++; }
    if (stop != -1 && lz->cnt >= stop) goto empty;
    item = iternext(it); if (item == NULL) goto empty;
    lz->cnt++;
    oldnext = lz->next;
    lz->next += (size_t)lz->step;
    if (lz->next < oldnext || (stop != -1 && lz->next > stop)) lz->next = stop;
    return item;
>>
    ([goto empty] clears the iterator: no item follows.) *)
Fixpoint islice_go (l : list A) (cnt next stop step : Z) : list A :=
  match l with
  | [] => []
  | x :: rest =>
      if cnt <? next then islice_go rest (cnt + 1) next stop step
      else if negb (stop =? -1) && (stop <=? cnt) then []
      else
        let next' := ssize_wrap (next + step) in
        let next'' := if (next' <? next) || (negb (stop =? -1) && (stop <? next'))
                      then stop else next' in
        x :: islice_go rest (cnt + 1) next'' stop step
  end.

Definition islice (l : list A) (start stop step : Z) : list A :=
  islice_go l 0 start stop step.

End Islice.

(** The argument handling of [islice(it, start, stop[, step])]
    ([islice_new], called with three or four arguments):
<<
    if (a1 != Py_None) start = PyNumber_AsSsize_t(a1, NULL);
    if (start == -1 && PyErr_Occurred()) PyErr_Clear();
    if (a2 != Py_None) {
        stop = PyNumber_AsSsize_t(a2, NULL);
        if (stop == -1) { ...; PyErr_SetString(PyExc_ValueError, ...); return NULL; }
    }
    if (start<0 || stop<-1) { PyErr_SetString(PyExc_ValueError, ...); return NULL; }
    if (a3 != NULL) { if (a3 != Py_None) step = PyNumber_AsSsize_t(a3, NULL); ... }
    if (step<1) { PyErr_SetString(PyExc_ValueError, ...); return NULL; }
>>
    with [start = 0], [stop = -1] and [step = 1] by default; [None] is a
    [ValueError]. *)
Definition islice_args (start stop step : option Z) : option (Z * Z * Z) :=
  let start' := match start with Some z => ssize_clip z | None => 0 end in
  let stop' := match stop with Some z => ssize_clip z | None => -1 end in
  let step' := match step with Some z => ssize_clip z | None => 1 end in
  if match stop with Some _ => stop' =? -1 | None => false end then None
  else if (start' <? 0) || (stop' <? -1) then None
  else if step' <? 1 then None
  else Some (start', stop', step').

(** [get_index_or_slice(mapping, index_or_slice)], the mapping a dict given
    by its items in insertion order:
<<
    if isinstance(index_or_slice, slice):
        return tuple(itertools.islice(mapping.values(), index_or_slice.start,
                                      index_or_slice.stop, index_or_slice.step))
    try:
        return next(itertools.islice(mapping.values(), index_or_slice, None))
    except StopIteration:
        raise IndexError(index_or_slice) from None
>> *)
Definition get_index_or_slice {K V : Type} (mapping : list (K * V)) (ios : index_or_slice)
    : error + value_or_seq V :=
  let values := map snd mapping in
  match ios with
  | Slice start stop step =>
      match islice_args start stop step with
      | Some (b, e, st) => inr (Many (islice values b e st))
      | None => inl ValueError
      end
  | Index i =>
      match islice_args (Some i) None None with
      | Some (b, e, st) =>
          match islice values b e st with
          | v :: _ => inr (One v)
          | [] => inl (IndexError i)
          end
      | None => inl ValueError
      end
  end.

(** The reference for the slice case, from the meaning of a slice with
    non-negative bounds: the items at positions [j] (counted from [j0]) with
    [start <= j], [j < stop] when there is a stop, and [j - start] a
    multiple of [step]. *)
Definition in_slice (start : nat) (stop : option nat) (step : nat) (j : nat) : bool :=
  Nat.leb start j && match stop with Some s => Nat.ltb j s | None => true end &&
  Nat.eqb (Nat.modulo (j - start) step) 0.

Fixpoint pick {A : Type} (p : nat -> bool) (l : list A) (j0 : nat) : list A :=
  match l with
  | [] => []
  | x :: rest => if p j0 then x :: pick p rest (S j0) else pick p rest (S j0)
  end.

Definition slice_values {A : Type} (l : list A) (start : nat) (stop : option nat) (step : nat)
    : list A :=
  pick (in_slice start stop step) l 0.

End GetIndexOrSlice.

(** What the entity factory calls that is not under [src/]: Python's [int()]
    on a str, [hikari.utilities.date], [hikari.utilities.files], the model
    classes' enums, and deserializers of sub-objects whose code the claims do
    not depend on. Every theorem below holds for every such runtime. *)
Record Runtime := {
  (** [int(s)] for a str [s]; [None] is its [ValueError]. *)
  rt_int_of_str : string -> option Z;
  rt_datetime : Type;
  (** [date.iso8601_datetime_string_to_datetime]. *)
  rt_iso8601 : json -> result rt_datetime;
  (** [datetime.isoformat()]. *)
  rt_isoformat : rt_datetime -> string;
  rt_user : Type;
  (** [deserialize_user]. *)
  rt_deserialize_user : json -> result rt_user;
  rt_overwrite : Type;
  (** [deserialize_permission_overwrite]. *)
  rt_deserialize_permission_overwrite : json -> result rt_overwrite;
  rt_status : Type;
  (** [presence_models.Status(value)]. *)
  rt_status_of : json -> result rt_status;
  rt_status_offline : rt_status;
  rt_activity : Type;
  (** The body of the activities loop of [deserialize_member_presence]. *)
  rt_deserialize_activity : json -> result rt_activity;
  rt_resource : Type;
  (** [files.ensure_resource]. *)
  rt_ensure_resource : json -> result rt_resource;
  (** [resource.url] and [isinstance(resource, files.WebResource)]. *)
  rt_resource_url : rt_resource -> string;
  rt_is_web_resource : rt_resource -> bool;
  (** [color_models.Color(x)]. *)
  rt_color_of : json -> result Z;
  (** [Color] is an [int] subclass: built from an [int], it has that value. *)
  rt_color_of_int : forall z c, rt_color_of (JInt z) = Ok c -> c = z;
  (** [str(x)] for a value that is not a str: the text after its first
      character, which is a digit, '-', 'T', 'F', 'N', '[' or '{'. *)
  rt_str_tail : json -> string
}.

(** ** Python built-ins used by the entity factory *)

Module Builtins.
Section Builtins.
Variable rt : Runtime.

(** [int(x)]; [snowflake.Snowflake(x)] is the same, an [int] subclass. *)
Definition py_int (j : json) : result Z :=
  match j with
  | JInt z => Ok z
  | JBool b => Ok (if b then 1 else 0)
  | JStr s => match rt_int_of_str rt s with Some z => Ok z | None => Err ValueError end
  | _ => Err (TypeError "int() argument")
  end.

Definition snowflake (j : json) : result Z := py_int j.

(** [datetime.timedelta(seconds=x)], kept as its number of seconds. *)
Definition timedelta_seconds (j : json) : result Z :=
  match j with
  | JInt z => Ok z
  | JBool b => Ok (if b then 1 else 0)
  | _ => Err (TypeError "unsupported type for timedelta seconds component")
  end.

(** Decimal digits of a natural number, most significant first. *)
Fixpoint nat_digits (fuel n : nat) (acc : string) : string :=
  match fuel with
  | O => acc
  | S fuel' =>
      let acc' := String (ascii_of_nat (48 + Nat.modulo n 10)) acc in
      if Nat.ltb n 10 then acc' else nat_digits fuel' (Nat.div n 10) acc'
  end.

(** [str(z)] for an [int]. *)
Definition z_to_dec (z : Z) : string :=
  let n := Z.to_nat (Z.abs z) in
  if z <? 0 then String "-" (nat_digits (S n) n EmptyString) else nat_digits (S n) n EmptyString.

(** [str(x)]. *)
Definition py_str (j : json) : string :=
  match j with
  | JStr s => s
  | JNull => "None"
  | JBool true => "True"
  | JBool false => "False"
  | JInt z => z_to_dec z
  | JArr _ => String "[" (rt_str_tail rt j)
  | JObj _ => String "{" (rt_str_tail rt j)
  end.

End Builtins.

(** [str.isspace] on one character, characters read as Latin-1 code points:
    U+0009..U+000D, U+001C..U+0020, U+0085 and U+00A0. *)
Definition is_py_space (c : ascii) : bool :=
  let n := nat_of_ascii c in
  (Nat.leb 9 n && Nat.leb n 13) || (Nat.leb 28 n && Nat.leb n 32) ||
  Nat.eqb n 133 || Nat.eqb n 160.

(** [not s.strip()]: [s] is empty or all whitespace. *)
Definition strip_empty (s : string) : bool := forallb is_py_space (list_ascii_of_string s).

(** [not s]. *)
Definition str_empty (s : string) : bool := String.eqb s "".

End Builtins.

Import Builtins.

(** ** The channel models *)

(** Modelled from the spec: [ChannelType] of [hikari/models/channels.py]
    (not under [src/]), the seven channel types that the dispatch tables of
    [deserialize_channel] name, with the platform's values ([GUILD_TEXT] is 0
    as in the spec's example). *)
Inductive ChannelType :=
| GUILD_TEXT | PRIVATE_TEXT | GUILD_VOICE | PRIVATE_GROUP_TEXT
| GUILD_CATEGORY | GUILD_NEWS | GUILD_STORE.

Definition channel_type_value (t : ChannelType) : Z :=
  match t with
  | GUILD_TEXT => 0 | PRIVATE_TEXT => 1 | GUILD_VOICE => 2 | PRIVATE_GROUP_TEXT => 3
  | GUILD_CATEGORY => 4 | GUILD_NEWS => 5 | GUILD_STORE => 6
  end.

Definition all_channel_types : list ChannelType :=
  [GUILD_TEXT; PRIVATE_TEXT; GUILD_VOICE; PRIVATE_GROUP_TEXT; GUILD_CATEGORY; GUILD_NEWS; GUILD_STORE].

(** [ChannelType(value)]: the member of that value, else [ValueError]. *)
Definition channel_type_of (j : json) : result ChannelType :=
  match find (fun t => eq_int j (channel_type_value t)) all_channel_types with
  | Some t => Ok t
  | None => Err ValueError
  end.

Module Channels.
Section Channels.
Variable rt : Runtime.

Record PartialChannel := {
  ch_id : Z;
  ch_name : json;
  ch_type : ChannelType
}.

Record GuildChannel := {
  gc_base : PartialChannel;
  gc_guild_id : Z;
  gc_position : Z;
  gc_permission_overwrites : list (Z * rt_overwrite rt);
  gc_is_nsfw : json;
  gc_parent_id : option Z
}.

Record GuildTextChannel := {
  gt_guild : GuildChannel;
  gt_topic : json;
  gt_last_message_id : option Z;
  gt_rate_limit_per_user : Z;
  gt_last_pin_timestamp : option (rt_datetime rt)
}.

Record GuildNewsChannel := {
  gn_guild : GuildChannel;
  gn_topic : json;
  gn_last_message_id : option Z;
  gn_last_pin_timestamp : option (rt_datetime rt)
}.

Record GuildVoiceChannel := {
  gv_guild : GuildChannel;
  gv_bitrate : Z;
  gv_user_limit : Z
}.

Record PrivateTextChannel := {
  dm_base : PartialChannel;
  dm_last_message_id : option Z;
  dm_recipient : rt_user rt
}.

Record GroupPrivateTextChannel := {
  gp_base : PartialChannel;
  gp_last_message_id : option Z;
  gp_owner_id : Z;
  gp_icon_hash : json;
  gp_nicknames : list (Z * json);
  gp_application_id : option Z;
  gp_recipients : list (Z * rt_user rt)
}.

(** The class of the object [deserialize_channel] returns. *)
Inductive Channel :=
| CGuildCategory (c : GuildChannel)
| CGuildText (c : GuildTextChannel)
| CGuildNews (c : GuildNewsChannel)
| CGuildStore (c : GuildChannel)
| CGuildVoice (c : GuildVoiceChannel)
| CPrivateText (c : PrivateTextChannel)
| CGroupPrivateText (c : GroupPrivateTextChannel).

(** [if (x := ...) is not None: x = Snowflake(x)]. *)
Definition opt_snowflake (j : json) : result (option Z) :=
  if is_none j then Ok None else z <- snowflake rt j ;; Ok (Some z).

(** [if (x := ...) is not None: x = date.iso8601_datetime_string_to_datetime(x)]. *)
Definition opt_iso8601 (j : json) : result (option (rt_datetime rt)) :=
  if is_none j then Ok None else d <- rt_iso8601 rt j ;; Ok (Some d).

Definition getitem_snowflake (p : obj) (k : string) : result Z :=
  j <- getitem p k ;; snowflake rt j.

Definition getitem_int (p : obj) (k : string) : result Z :=
  j <- getitem p k ;; py_int rt j.

Definition _set_partial_channel_attributes (payload : obj) : result PartialChannel :=
  id <- getitem_snowflake payload "id" ;;
  let name := get payload "name" in
  tj <- getitem payload "type" ;;
  ty <- channel_type_of tj ;;
  Ok {| ch_id := id; ch_name := name; ch_type := ty |}.

(** [guild_id] is [undefined.UNDEFINED] as [None]. *)
Definition _set_guild_channel_attributes (payload : obj) (guild_id : option Z)
    : result GuildChannel :=
  base <- _set_partial_channel_attributes payload ;;
  gid <- match guild_id with
         | Some g => Ok g
         | None => getitem_snowflake payload "guild_id"
         end ;;
  position <- getitem_int payload "position" ;;
  ows <- getitem payload "permission_overwrites" ;;
  ows <- as_list ows ;;
  pairs <- map_result (fun overwrite =>
             o <- as_obj overwrite ;;
             k <- getitem_snowflake o "id" ;;
             v <- rt_deserialize_permission_overwrite rt overwrite ;;
             Ok (k, v)) ows ;;
  let nsfw := get payload "nsfw" in
  parent_id <- opt_snowflake (get payload "parent_id") ;;
  Ok {| gc_base := base; gc_guild_id := gid; gc_position := position;
        gc_permission_overwrites := dict_of_pairs pairs; gc_is_nsfw := nsfw;
        gc_parent_id := parent_id |}.

Definition deserialize_guild_category (payload : obj) (guild_id : option Z) : result GuildChannel :=
  _set_guild_channel_attributes payload guild_id.

Definition deserialize_guild_text_channel (payload : obj) (guild_id : option Z)
    : result GuildTextChannel :=
  g <- _set_guild_channel_attributes payload guild_id ;;
  topic <- getitem payload "topic" ;;
  lm <- getitem payload "last_message_id" ;;
  lm <- opt_snowflake lm ;;
  rl <- timedelta_seconds (get_default payload "rate_limit_per_user" (JInt 0)) ;;
  lpt <- opt_iso8601 (get payload "last_pin_timestamp") ;;
  Ok {| gt_guild := g; gt_topic := topic; gt_last_message_id := lm;
        gt_rate_limit_per_user := rl; gt_last_pin_timestamp := lpt |}.

Definition deserialize_guild_news_channel (payload : obj) (guild_id : option Z)
    : result GuildNewsChannel :=
  g <- _set_guild_channel_attributes payload guild_id ;;
  topic <- getitem payload "topic" ;;
  lm <- getitem payload "last_message_id" ;;
  lm <- opt_snowflake lm ;;
  lpt <- opt_iso8601 (get payload "last_pin_timestamp") ;;
  Ok {| gn_guild := g; gn_topic := topic; gn_last_message_id := lm;
        gn_last_pin_timestamp := lpt |}.

Definition deserialize_guild_store_channel (payload : obj) (guild_id : option Z) : result GuildChannel :=
  _set_guild_channel_attributes payload guild_id.

Definition deserialize_guild_voice_channel (payload : obj) (guild_id : option Z)
    : result GuildVoiceChannel :=
  g <- _set_guild_channel_attributes payload guild_id ;;
  bitrate <- getitem_int payload "bitrate" ;;
  user_limit <- getitem_int payload "user_limit" ;;
  Ok {| gv_guild := g; gv_bitrate := bitrate; gv_user_limit := user_limit |}.

Definition deserialize_private_text_channel (payload : obj) : result PrivateTextChannel :=
  base <- _set_partial_channel_attributes payload ;;
  lm <- getitem payload "last_message_id" ;;
  lm <- opt_snowflake lm ;;
  rs <- getitem payload "recipients" ;;
  r0 <- index0 rs ;;
  recipient <- rt_deserialize_user rt r0 ;;
  Ok {| dm_base := base; dm_last_message_id := lm; dm_recipient := recipient |}.

Definition deserialize_private_group_text_channel (payload : obj)
    : result GroupPrivateTextChannel :=
  base <- _set_partial_channel_attributes payload ;;
  lm <- getitem payload "last_message_id" ;;
  lm <- opt_snowflake lm ;;
  owner_id <- getitem_snowflake payload "owner_id" ;;
  icon <- getitem payload "icon" ;;
  nicknames <- (let nicks := get payload "nicks" in
                if is_none nicks then Ok []
                else l <- as_list nicks ;;
                     pairs <- map_result (fun entry =>
                                o <- as_obj entry ;;
                                k <- getitem_snowflake o "id" ;;
                                v <- getitem o "nick" ;;
                                Ok (k, v)) l ;;
                     Ok (dict_of_pairs pairs)) ;;
  application_id <- (if contains payload "application_id"
                     then a <- getitem_snowflake payload "application_id" ;; Ok (Some a)
                     else Ok None) ;;
  rs <- getitem payload "recipients" ;;
  rs <- as_list rs ;;
  recipients <- map_result (fun user =>
                  o <- as_obj user ;;
                  k <- getitem_snowflake o "id" ;;
                  u <- rt_deserialize_user rt user ;;
                  Ok (k, u)) rs ;;
  Ok {| gp_base := base; gp_last_message_id := lm; gp_owner_id := owner_id;
        gp_icon_hash := icon; gp_nicknames := nicknames; gp_application_id := application_id;
        gp_recipients := dict_of_pairs recipients |}.

(** [self._guild_channel_type_mapping.get(channel_type)]; a list or a dict
    is unhashable. *)
Definition guild_channel_type_mapping_get (j : json) : result (option ChannelType) :=
  match j with
  | JArr _ | JObj _ => Err (TypeError "unhashable type")
  | _ => Ok (find (fun t => eq_int j (channel_type_value t))
               [GUILD_CATEGORY; GUILD_TEXT; GUILD_NEWS; GUILD_STORE; GUILD_VOICE])
  end.

(** [self._dm_channel_type_mapping[channel_type]], [KeyError] when absent. *)
Definition dm_channel_type_mapping_getitem (j : json) : result ChannelType :=
  match find (fun t => eq_int j (channel_type_value t)) [PRIVATE_TEXT; PRIVATE_GROUP_TEXT] with
  | Some t => Ok t
  | None => Err (KeyError j)
  end.

Definition deserialize_channel (payload : obj) (guild_id : option Z) : result Channel :=
  channel_type <- getitem payload "type" ;;
  channel_model <- guild_channel_type_mapping_get channel_type ;;
  match channel_model with
  | Some GUILD_CATEGORY => c <- deserialize_guild_category payload guild_id ;; Ok (CGuildCategory c)
  | Some GUILD_TEXT => c <- deserialize_guild_text_channel payload guild_id ;; Ok (CGuildText c)
  | Some GUILD_NEWS => c <- deserialize_guild_news_channel payload guild_id ;; Ok (CGuildNews c)
  | Some GUILD_STORE => c <- deserialize_guild_store_channel payload guild_id ;; Ok (CGuildStore c)
  | Some _ => c <- deserialize_guild_voice_channel payload guild_id ;; Ok (CGuildVoice c)
  | None =>
      t <- dm_channel_type_mapping_getitem channel_type ;;
      match t with
      | PRIVATE_TEXT => c <- deserialize_private_text_channel payload ;; Ok (CPrivateText c)
      | _ => c <- deserialize_private_group_text_channel payload ;; Ok (CGroupPrivateText c)
      end
  end.

(** [channel.guild_id], an attribute of the guild channels only. *)
Definition channel_guild_id (c : Channel) : option Z :=
  match c with
  | CGuildCategory g | CGuildStore g => Some (gc_guild_id g)
  | CGuildText t => Some (gc_guild_id (gt_guild t))
  | CGuildNews n => Some (gc_guild_id (gn_guild n))
  | CGuildVoice v => Some (gc_guild_id (gv_guild v))
  | CPrivateText _ | CGroupPrivateText _ => None
  end.

End Channels.
End Channels.

(** ** The embed models and their (de)serialization *)

Module Embeds.
Section Embeds.
Variable rt : Runtime.

Record EmbedResourceWithProxy := {
  rp_resource : rt_resource rt;
  rp_proxy_resource : rt_resource rt
}.

Record EmbedImage := {
  img_resource : rt_resource rt;
  img_proxy_resource : rt_resource rt;
  img_height : json;
  img_width : json
}.

Record EmbedVideo := {
  vid_resource : rt_resource rt;
  vid_height : json;
  vid_width : json
}.

Record EmbedProvider := { prov_name : json; prov_url : json }.

Record EmbedAuthor := {
  au_name : json;
  au_url : json;
  au_icon : option EmbedResourceWithProxy
}.

Record EmbedFooter := {
  ft_text : json;
  ft_icon : option EmbedResourceWithProxy
}.

Record EmbedField := {
  f_name : json;
  f_value : json;
  f_is_inline : json
}.

Record Embed := {
  e_title : json;
  e_description : json;
  e_url : json;
  e_color : option Z;
  e_timestamp : option (rt_datetime rt);
  e_image : option EmbedImage;
  e_thumbnail : option EmbedImage;
  e_video : option EmbedVideo;
  e_provider : option EmbedProvider;
  e_author : option EmbedAuthor;
  e_footer : option EmbedFooter;
  e_fields : option (list EmbedField)
}.

(** Python truthiness of a payload value. *)
Definition truthy (j : json) : bool :=
  match j with
  | JNull => false
  | JBool b => b
  | JInt z => negb (Z.eqb z 0)
  | JStr s => negb (String.eqb s "")
  | JArr l => match l with [] => false | _ => true end
  | JObj o => match o with [] => false | _ => true end
  end.

(** [x.get(k)] on a value that must be a dict. *)
Definition dget (j : json) (k : string) : result json :=
  o <- as_obj j ;; Ok (get o k).

Definition deserialize_image (ip : json) : result EmbedImage :=
  u <- dget ip "url" ;; r <- rt_ensure_resource rt u ;;
  pu <- dget ip "proxy_url" ;; pr <- rt_ensure_resource rt pu ;;
  h <- dget ip "height" ;; w <- dget ip "width" ;;
  Ok {| img_resource := r; img_proxy_resource := pr; img_height := h; img_width := w |}.

(** The [icon] of an author or a footer: [if "icon_url" in x]. *)
Definition deserialize_icon (ap : json) : result (option EmbedResourceWithProxy) :=
  o <- as_obj ap ;;
  if contains o "icon_url" then
    r <- rt_ensure_resource rt (get o "icon_url") ;;
    pr <- rt_ensure_resource rt (get o "proxy_icon_url") ;;
    Ok (Some {| rp_resource := r; rp_proxy_resource := pr |})
  else Ok None.

Definition deserialize_field (field_payload : json) : result EmbedField :=
  o <- as_obj field_payload ;;
  name <- getitem o "name" ;;
  value <- getitem o "value" ;;
  Ok {| f_name := name; f_value := value; f_is_inline := get_default o "inline" (JBool false) |}.

Definition deserialize_embed (payload : obj) : result Embed :=
  let title := get payload "title" in
  let description := get payload "description" in
  let url := get payload "url" in
  color <- (if contains payload "color"
            then c <- getitem payload "color" ;; c <- rt_color_of rt c ;; Ok (Some c)
            else Ok None) ;;
  timestamp <- (if contains payload "timestamp"
                then t <- getitem payload "timestamp" ;; t <- rt_iso8601 rt t ;; Ok (Some t)
                else Ok None) ;;
  image <- (let ip := get payload "image" in
            if truthy ip then i <- deserialize_image ip ;; Ok (Some i) else Ok None) ;;
  thumbnail <- (let tp := get payload "thumbnail" in
                if truthy tp then i <- deserialize_image tp ;; Ok (Some i) else Ok None) ;;
  video <- (let vp := get payload "video" in
            if truthy vp then
              u <- dget vp "url" ;; r <- rt_ensure_resource rt u ;;
              h <- dget vp "height" ;; w <- dget vp "width" ;;
              Ok (Some {| vid_resource := r; vid_height := h; vid_width := w |})
            else Ok None) ;;
  provider <- (let pp := get payload "provider" in
               if truthy pp then
                 n <- dget pp "name" ;; u <- dget pp "url" ;;
                 Ok (Some {| prov_name := n; prov_url := u |})
               else Ok None) ;;
  author <- (let ap := get payload "author" in
             if truthy ap then
               icon <- deserialize_icon ap ;;
               n <- dget ap "name" ;; u <- dget ap "url" ;;
               Ok (Some {| au_name := n; au_url := u; au_icon := icon |})
             else Ok None) ;;
  footer <- (let fp := get payload "footer" in
             if truthy fp then
               icon <- deserialize_icon fp ;;
               t <- dget fp "text" ;;
               Ok (Some {| ft_text := t; ft_icon := icon |})
             else Ok None) ;;
  fields <- (let fa := get payload "fields" in
             if truthy fa then
               l <- as_list fa ;; fs <- map_result deserialize_field l ;; Ok (Some fs)
             else Ok None) ;;
  Ok {| e_title := title; e_description := description; e_url := url; e_color := color;
        e_timestamp := timestamp; e_image := image; e_thumbnail := thumbnail;
        e_video := video; e_provider := provider; e_author := author; e_footer := footer;
        e_fields := fields |}.

(** The message of the [TypeError] raised for field [i]. *)
Definition field_error (i : Z) (what msg : string) : py_error :=
  TypeError ("in embed.fields[" ++ z_to_dec i ++ "]." ++ what ++ " - " ++ msg)%string.

(** [str(x) if x is not None else None], then the three checks. *)
Definition check_field_text (i : Z) (what : string) (j : json) : result string :=
  if is_none j then Err (field_error i what "cannot have `None`")
  else
    let s := py_str rt j in
    if str_empty s then Err (field_error i what "cannot have empty string")
    else if strip_empty s then Err (field_error i what "cannot have only whitespace")
    else Ok s.

(** The loop over [enumerate(embed.fields)], from index [i]. *)
Fixpoint serialize_fields (i : Z) (fs : list EmbedField) : result (list json) :=
  match fs with
  | [] => Ok []
  | field :: rest =>
      name <- check_field_text i "name" (f_name field) ;;
      value <- check_field_text i "value" (f_value field) ;;
      fps <- serialize_fields (i + 1) rest ;;
      Ok (JObj [("name"%string, JStr name); ("value"%string, JStr value); ("inline"%string, f_is_inline field)] :: fps)
  end.

(** [payload[k] = v] on a key not set before. *)
Definition set_if_not_none (p : obj) (k : string) (j : json) : obj :=
  if is_none j then p else p ++ [(k, j)].

Definition upload_if_local (ups : list (rt_resource rt)) (r : rt_resource rt) : list (rt_resource rt) :=
  if rt_is_web_resource rt r then ups else ups ++ [r].

Definition resource_url_json (r : rt_resource rt) : json := JStr (rt_resource_url rt r).

Definition serialize_embed (embed : Embed) : result (obj * list (rt_resource rt)) :=
  let payload := set_if_not_none [] "title" (e_title embed) in
  let payload := set_if_not_none payload "description" (e_description embed) in
  let payload := set_if_not_none payload "url" (e_url embed) in
  let payload := match e_timestamp embed with
                 | Some t => payload ++ [("timestamp"%string, JStr (rt_isoformat rt t))]
                 | None => payload end in
  let payload := match e_color embed with
                 | Some c => payload ++ [("color"%string, JInt c)]
                 | None => payload end in
  let '(payload, uploads) :=
    match e_footer embed with
    | Some footer =>
        let fp := set_if_not_none [] "text" (ft_text footer) in
        match ft_icon footer with
        | Some icon =>
            (payload ++ [("footer"%string, JObj (fp ++ [("icon_url"%string, resource_url_json (rp_resource icon))]))],
             upload_if_local [] (rp_resource icon))
        | None => (payload ++ [("footer"%string, JObj fp)], [])
        end
    | None => (payload, [])
    end in
  let '(payload, uploads) :=
    match e_image embed with
    | Some image =>
        (payload ++ [("image"%string, JObj [("url"%string, resource_url_json (img_resource image))])],
         upload_if_local uploads (img_resource image))
    | None => (payload, uploads)
    end in
  let '(payload, uploads) :=
    match e_thumbnail embed with
    | Some thumbnail =>
        (payload ++ [("thumbnail"%string, JObj [("url"%string, resource_url_json (img_resource thumbnail))])],
         upload_if_local uploads (img_resource thumbnail))
    | None => (payload, uploads)
    end in
  let '(payload, uploads) :=
    match e_author embed with
    | Some author =>
        let ap := set_if_not_none [] "name" (au_name author) in
        let ap := set_if_not_none ap "url" (au_url author) in
        match au_icon author with
        | Some icon =>
            (payload ++ [("author"%string, JObj (ap ++ [("icon_url"%string, resource_url_json (rp_resource icon))]))],
             upload_if_local uploads (rp_resource icon))
        | None => (payload ++ [("author"%string, JObj ap)], uploads)
        end
    | None => (payload, uploads)
    end in
  match e_fields embed with
  | Some ((_ :: _) as fields) =>
      fps <- serialize_fields 0 fields ;;
      Ok (payload ++ [("fields"%string, JArr fps)], uploads)
  | _ => Ok (payload, uploads)
  end.

End Embeds.
End Embeds.

(** ** The audit log *)

Module AuditLogs.
Section AuditLogs.
Variable rt : Runtime.

(** Modelled from the spec: [AuditLogEventType] of [hikari/models/audit_logs.py]
    (not under [src/]) is an [IntEnum]; it is known here by the values of its
    members. *)
Variable known_event_types : list Z.
(** [AuditLogChangeKey], a [str] enum, by the values of its members. *)
Variable known_change_keys : list string.

(** What the ten decoders of [_audit_log_event_mapping] build, and the
    mapping itself, keyed by the value of the event type. *)
Variable entry_info : Type.
Variable audit_log_event_mapping : list (Z * (json -> result entry_info)).
(** What the converters of [_audit_log_entry_converters] build, and the
    mapping itself, keyed by the value of the change key. *)
Variable converted : Type.
Variable audit_log_entry_converters : list (string * (json -> result converted)).
(** [deserialize_partial_integration] and [deserialize_webhook]. *)
Variable integration webhook : Type.
Variable deserialize_partial_integration : json -> result integration.
Variable deserialize_webhook : json -> result webhook.

(** [entry.action_type]: a member, or the raw value after a [ValueError]. *)
Inductive ActionType := EventKnown (z : Z) | EventRaw (j : json).
(** [change.key]: a member, or the raw value after a [ValueError]. *)
Inductive ChangeKey := KeyKnown (k : string) | KeyRaw (j : json).
Inductive ChangeValue := VRaw (j : json) | VConverted (c : converted).
(** [entry.options]: [None], a decoded entry info, or an
    [UnrecognisedAuditLogEntryInfo] holding the raw payload. *)
Inductive Options := OptNone | OptInfo (i : entry_info) | OptUnrecognised (payload : json).

Record AuditLogChange := { ch_key : ChangeKey; ch_new_value : ChangeValue; ch_old_value : ChangeValue }.

Record AuditLogEntry := {
  ae_id : Z;
  ae_target_id : option Z;
  ae_changes : list AuditLogChange;
  ae_user_id : option Z;
  ae_action_type : ActionType;
  ae_options : Options;
  ae_reason : json
}.

Record AuditLog := {
  al_entries : list (Z * AuditLogEntry);
  al_integrations : list (Z * integration);
  al_users : list (Z * rt_user rt);
  al_webhooks : list (Z * webhook)
}.

(** [AuditLogEventType(value)]: [True == 1] finds the member 1. *)
Definition event_type_of (j : json) : ActionType :=
  match find (fun z => eq_int j z) known_event_types with
  | Some z => EventKnown z
  | None => EventRaw j
  end.

Definition change_key_of (j : json) : ChangeKey :=
  match j with
  | JStr s => if existsb (String.eqb s) known_change_keys then KeyKnown s else KeyRaw j
  | _ => KeyRaw j
  end.

Definition unhashable : py_error := TypeError "unhashable type".

(** [_audit_log_event_mapping.get(entry.action_type)]: a raw [int] compares
    equal to the member of its value; a raw list or dict is unhashable. *)
Definition event_mapping_get (a : ActionType) : result (option (json -> result entry_info)) :=
  let find_z (p : json -> bool) :=
    match find (fun kv => p (JInt (fst kv))) audit_log_event_mapping with
    | Some kv => Some (snd kv)
    | None => None
    end in
  match a with
  | EventKnown z => Ok (find_z (fun k => eq_int k z))
  | EventRaw ((JArr _ | JObj _)) => Err unhashable
  | EventRaw ((JInt _ | JBool _) as j) =>
      Ok (find_z (fun k => match k with JInt z => eq_int j z | _ => false end))
  | EventRaw _ => Ok None
  end.

(** [_audit_log_entry_converters.get(change.key)]. *)
Definition entry_converters_get (k : ChangeKey) : result (option (json -> result converted)) :=
  let find_s s :=
    match find (fun kv => String.eqb (fst kv) s) audit_log_entry_converters with
    | Some kv => Some (snd kv)
    | None => None
    end in
  match k with
  | KeyKnown s => Ok (find_s s)
  | KeyRaw (JStr s) => Ok (find_s s)
  | KeyRaw (JArr _ | JObj _) => Err unhashable
  | KeyRaw _ => Ok None
  end.

Definition convert_value (conv : option (json -> result converted)) (v : json) : result ChangeValue :=
  match conv with
  | Some f => if is_none v then Ok (VRaw JNull) else c <- f v ;; Ok (VConverted c)
  | None => Ok (VRaw v)
  end.

Definition deserialize_change (change_payload : json) : result AuditLogChange :=
  cp <- as_obj change_payload ;;
  kj <- getitem cp "key" ;;
  let key := change_key_of kj in
  let new_value := get cp "new_value" in
  let old_value := get cp "old_value" in
  conv <- entry_converters_get key ;;
  nv <- convert_value conv new_value ;;
  ov <- convert_value conv old_value ;;
  Ok {| ch_key := key; ch_new_value := nv; ch_old_value := ov |}.

(** [Snowflake(x)] unless [x is None]. *)
Definition nullable_snowflake (j : json) : result (option Z) :=
  if is_none j then Ok None else z <- snowflake rt j ;; Ok (Some z).

Definition deserialize_entry (entry_payload : json) : result AuditLogEntry :=
  ep <- as_obj entry_payload ;;
  idj <- getitem ep "id" ;; id <- snowflake rt idj ;;
  tj <- getitem ep "target_id" ;; target_id <- nullable_snowflake tj ;;
  changes <- (let cps := get ep "changes" in
              if is_none cps then Ok [] else l <- as_list cps ;; map_result deserialize_change l) ;;
  uj <- getitem ep "user_id" ;; user_id <- nullable_snowflake uj ;;
  aj <- getitem ep "action_type" ;;
  let action_type := event_type_of aj in
  options <- (let options := get ep "options" in
              if is_none options then Ok OptNone
              else conv <- event_mapping_get action_type ;;
                   match conv with
                   | Some f => i <- f options ;; Ok (OptInfo i)
                   | None => Ok (OptUnrecognised options)
                   end) ;;
  Ok {| ae_id := id; ae_target_id := target_id; ae_changes := changes; ae_user_id := user_id;
        ae_action_type := action_type; ae_options := options; ae_reason := get ep "reason" |}.

(** [{Snowflake(x["id"]): f(x) for x in xs}]. *)
Definition keyed_by_id {A : Type} (f : json -> result A) (xs : json) : result (list (Z * A)) :=
  l <- as_list xs ;;
  pairs <- map_result (fun x => o <- as_obj x ;; ij <- getitem o "id" ;; k <- snowflake rt ij ;;
                                 v <- f x ;; Ok (k, v)) l ;;
  Ok (dict_of_pairs pairs).

Definition deserialize_audit_log (payload : obj) : result AuditLog :=
  eps <- getitem payload "audit_log_entries" ;;
  eps <- as_list eps ;;
  es <- map_result deserialize_entry eps ;;
  let entries := dict_of_pairs (map (fun e => (ae_id e, e)) es) in
  ij <- getitem payload "integrations" ;; integrations <- keyed_by_id deserialize_partial_integration ij ;;
  uj <- getitem payload "users" ;; users <- keyed_by_id (rt_deserialize_user rt) uj ;;
  wj <- getitem payload "webhooks" ;; webhooks <- keyed_by_id deserialize_webhook wj ;;
  Ok {| al_entries := entries; al_integrations := integrations; al_users := users;
        al_webhooks := webhooks |}.

End AuditLogs.

Arguments VRaw {converted} j.
Arguments VConverted {converted} c.
Arguments OptNone {entry_info}.
Arguments OptInfo {entry_info} i.
Arguments OptUnrecognised {entry_info} payload.
Arguments Build_AuditLogChange {converted} _ _ _.
Arguments ch_key {converted} _.
Arguments ch_new_value {converted} _.
Arguments ch_old_value {converted} _.
Arguments Build_AuditLogEntry {entry_info converted} _ _ _ _ _ _ _.
Arguments ae_id {entry_info converted} _.
Arguments ae_target_id {entry_info converted} _.
Arguments ae_changes {entry_info converted} _.
Arguments ae_user_id {entry_info converted} _.
Arguments ae_action_type {entry_info converted} _.
Arguments ae_options {entry_info converted} _.
Arguments ae_reason {entry_info converted} _.
Arguments al_entries {rt entry_info converted integration webhook} _.

End AuditLogs.

(** ** Members and member presences *)

(** [undefined.UndefinedOr[A]]. *)
Inductive UndefinedOr (A : Type) := UNDEFINED | Defined (a : A).
Arguments UNDEFINED {A}.
Arguments Defined {A} a.

Module Members.
Section Members.
Variable rt : Runtime.

Record Member := {
  m_user : rt_user rt;
  m_guild_id : Z;
  m_role_ids : list Z;
  m_joined_at : UndefinedOr (rt_datetime rt);
  (** [None] is [Defined JNull]. *)
  m_nickname : UndefinedOr json;
  m_premium_since : UndefinedOr (option (rt_datetime rt));
  m_is_deaf : UndefinedOr json;
  m_is_mute : UndefinedOr json
}.

Definition snowflake_list (j : json) : result (list Z) :=
  l <- as_list j ;; map_result (snowflake rt) l.

(** [user] and [guild_id] default to [UNDEFINED], here [None]. *)
Definition deserialize_member (payload : obj) (user : option (rt_user rt)) (guild_id : option Z)
    : result Member :=
  u <- match user with
       | Some u => Ok u
       | None => uj <- getitem payload "user" ;; rt_deserialize_user rt uj
       end ;;
  gid <- match guild_id with
         | None => gj <- getitem payload "guild_id" ;; snowflake rt gj
         | Some g => Ok g
         end ;;
  rj <- getitem payload "roles" ;; role_ids <- snowflake_list rj ;;
  joined_at <- (let joined_at := get payload "joined_at" in
                if is_none joined_at then Ok UNDEFINED
                else d <- rt_iso8601 rt joined_at ;; Ok (Defined d)) ;;
  nickname <- (if contains payload "nick" then n <- getitem payload "nick" ;; Ok (Defined n)
               else Ok UNDEFINED) ;;
  premium_since <- (if contains payload "premium_since" then
                      raw <- getitem payload "premium_since" ;;
                      if is_none raw then Ok (Defined None)
                      else d <- rt_iso8601 rt raw ;; Ok (Defined (Some d))
                    else Ok UNDEFINED) ;;
  deaf <- (if contains payload "deaf" then d <- getitem payload "deaf" ;; Ok (Defined d)
           else Ok UNDEFINED) ;;
  mute <- (if contains payload "mute" then d <- getitem payload "mute" ;; Ok (Defined d)
           else Ok UNDEFINED) ;;
  Ok {| m_user := u; m_guild_id := gid; m_role_ids := role_ids; m_joined_at := joined_at;
        m_nickname := nickname; m_premium_since := premium_since; m_is_deaf := deaf;
        m_is_mute := mute |}.

Record ClientStatus := { cs_desktop : rt_status rt; cs_mobile : rt_status rt; cs_web : rt_status rt }.

Record MemberPresence := {
  p_user_id : Z;
  p_role_ids : option (list Z);
  p_guild_id : Z;
  p_visible_status : rt_status rt;
  p_activities : list (rt_activity rt);
  p_client_status : ClientStatus;
  p_premium_since : option (rt_datetime rt);
  (** [None] is [JNull]. *)
  p_nickname : json
}.

Definition client_status_field (csp : obj) (k : string) : result (rt_status rt) :=
  if contains csp k then j <- getitem csp k ;; rt_status_of rt j else Ok (rt_status_offline rt).

Definition deserialize_member_presence (payload : obj) (guild_id : option Z) : result MemberPresence :=
  uj <- getitem payload "user" ;; uo <- as_obj uj ;; idj <- getitem uo "id" ;;
  user_id <- snowflake rt idj ;;
  role_ids <- (if contains payload "roles" then rj <- getitem payload "roles" ;;
                 l <- snowflake_list rj ;; Ok (Some l) else Ok None) ;;
  gid <- match guild_id with
         | Some g => Ok g
         | None => gj <- getitem payload "guild_id" ;; snowflake rt gj
         end ;;
  sj <- getitem payload "status" ;; visible_status <- rt_status_of rt sj ;;
  aj <- getitem payload "activities" ;; al <- as_list aj ;;
  activities <- map_result (rt_deserialize_activity rt) al ;;
  cj <- getitem payload "client_status" ;; csp <- as_obj cj ;;
  desktop <- client_status_field csp "desktop" ;;
  mobile <- client_status_field csp "mobile" ;;
  web <- client_status_field csp "web" ;;
  premium_since <- (let premium_since := get payload "premium_since" in
                    if is_none premium_since then Ok None
                    else d <- rt_iso8601 rt premium_since ;; Ok (Some d)) ;;
  Ok {| p_user_id := user_id; p_role_ids := role_ids; p_guild_id := gid;
        p_visible_status := visible_status; p_activities := activities;
        p_client_status := {| cs_desktop := desktop; cs_mobile := mobile; cs_web := web |};
        p_premium_since := premium_since; p_nickname := get payload "nick" |}.

End Members.
End Members.

(** ** Invites *)

Module Invites.
Section Invites.
Variable rt : Runtime.

(** What [_set_invite_attributes] sets (code, guild, channel, inviter, target
    user and approximate counts), and that method. *)
Variable invite_attributes : Type.
Variable _set_invite_attributes : obj -> result invite_attributes.

Record InviteWithMetadata := {
  inv_attributes : invite_attributes;
  inv_uses : Z;
  inv_max_uses : Z;
  (** The [timedelta], by its number of seconds. *)
  inv_max_age : option Z;
  inv_is_temporary : json;
  inv_created_at : rt_datetime rt
}.

(** [x > 0] for a payload value. *)
Definition gt_zero (j : json) : result bool :=
  match j with
  | JInt z => Ok (0 <? z)
  | JBool b => Ok b
  | _ => Err (TypeError "'>' not supported between instances")
  end.

Definition deserialize_invite_with_metadata (payload : obj) : result InviteWithMetadata :=
  attrs <- _set_invite_attributes payload ;;
  uj <- getitem payload "uses" ;; uses <- py_int rt uj ;;
  mj <- getitem payload "max_uses" ;; max_uses <- py_int rt mj ;;
  max_age <- getitem payload "max_age" ;;
  positive <- gt_zero max_age ;;
  ma <- (if positive then s <- timedelta_seconds max_age ;; Ok (Some s) else Ok None) ;;
  temporary <- getitem payload "temporary" ;;
  cj <- getitem payload "created_at" ;; created_at <- rt_iso8601 rt cj ;;
  Ok {| inv_attributes := attrs; inv_uses := uses; inv_max_uses := max_uses; inv_max_age := ma;
        inv_is_temporary := temporary; inv_created_at := created_at |}.

(** [_deserialize_max_uses], the converter of the audit log's [MAX_USES]
    change key. *)
Definition _deserialize_max_uses (age : Z) : option Z := if 0 <? age then Some age else None.

End Invites.
End Invites.

(** ** Permission overwrites *)

Module PermissionOverwrites.
Section PermissionOverwrites.
Variable rt : Runtime.

(** [channel_models.PermissionOverwriteType] (not under [src/]): its
    constructor from a payload value, and the JSON form of a member. *)
Variable overwrite_type : Type.
Variable overwrite_type_of : json -> result overwrite_type.
Variable overwrite_type_json : overwrite_type -> json.

(** [Permission] is an [IntFlag]: kept as its [int] value. *)
Record PermissionOverwrite := {
  po_id : Z;
  po_type : overwrite_type;
  po_allow : Z;
  po_deny : Z
}.

Definition deserialize_permission_overwrite (payload : obj) : result PermissionOverwrite :=
  idj <- getitem payload "id" ;; id <- snowflake rt idj ;;
  tj <- getitem payload "type" ;; ty <- overwrite_type_of tj ;;
  aj <- getitem payload "allow_new" ;; allow_raw <- py_int rt aj ;;
  dj <- getitem payload "deny_new" ;; deny_raw <- py_int rt dj ;;
  Ok {| po_id := id; po_type := ty; po_allow := allow_raw; po_deny := deny_raw |}.

Definition serialize_permission_overwrite (overwrite : PermissionOverwrite) : obj :=
  [("id"%string, JStr (z_to_dec (po_id overwrite)));
   ("type"%string, overwrite_type_json (po_type overwrite));
   ("allow"%string, JStr (z_to_dec (po_allow overwrite)));
   ("deny"%string, JStr (z_to_dec (po_deny overwrite)))].

End PermissionOverwrites.
End PermissionOverwrites.

(** ** Emojis *)

Module Emojis.
Section Emojis.
Variable rt : Runtime.

Record UnicodeEmoji := { ue_name : json }.

Record CustomEmoji := {
  ce_id : Z;
  ce_name : json;
  ce_is_animated : json
}.

Inductive Emoji := EUnicode (e : UnicodeEmoji) | ECustom (e : CustomEmoji).

Definition deserialize_unicode_emoji (payload : obj) : result UnicodeEmoji :=
  name <- getitem payload "name" ;;
  Ok {| ue_name := name |}.

Definition deserialize_custom_emoji (payload : obj) : result CustomEmoji :=
  idj <- getitem payload "id" ;; id <- snowflake rt idj ;;
  name <- getitem payload "name" ;;
  Ok {| ce_id := id; ce_name := name; ce_is_animated := get_default payload "animated" (JBool false) |}.

Definition deserialize_emoji (payload : obj) : result Emoji :=
  if negb (is_none (get payload "id")) then
    e <- deserialize_custom_emoji payload ;; Ok (ECustom e)
  else
    e <- deserialize_unicode_emoji payload ;; Ok (EUnicode e).

End Emojis.
End Emojis.

(** ** The gateway bot *)

Module Gateway.
Section Gateway.
Variable rt : Runtime.

Record SessionStartLimit := {
  ssl_total : Z;
  ssl_remaining : Z;
  (** The [timedelta], by its number of milliseconds. *)
  ssl_reset_after : Z;
  ssl_max_concurrency : json
}.

Record GatewayBot := {
  gb_url : json;
  gb_shard_count : Z;
  gb_session_start_limit : SessionStartLimit
}.

(** [datetime.timedelta(milliseconds=x)]. *)
Definition timedelta_milliseconds (j : json) : result Z :=
  match j with
  | JInt z => Ok z
  | JBool b => Ok (if b then 1 else 0)
  | _ => Err (TypeError "unsupported type for timedelta milliseconds component")
  end.

(** [max(x, 1)]: [1] replaces [x] only when [1 > x]. *)
Definition max_1 (j : json) : result json :=
  match j with
  | JInt z => Ok (if 1 >? z then JInt 1 else j)
  | JBool b => Ok (if b then j else JInt 1)
  | _ => Err (TypeError "'>' not supported between instances")
  end.

Definition deserialize_gateway_bot (payload : obj) : result GatewayBot :=
  sp <- getitem payload "session_start_limit" ;;
  session_start_limit_payload <- as_obj sp ;;
  tj <- getitem session_start_limit_payload "total" ;; total <- py_int rt tj ;;
  rj <- getitem session_start_limit_payload "remaining" ;; remaining <- py_int rt rj ;;
  aj <- getitem session_start_limit_payload "reset_after" ;;
  reset_after <- timedelta_milliseconds aj ;;
  max_concurrency <- max_1 (get_default session_start_limit_payload "max_concurrency" (JInt 0)) ;;
  url <- getitem payload "url" ;;
  sj <- getitem payload "shards" ;; shard_count <- py_int rt sj ;;
  Ok {| gb_url := url; gb_shard_count := shard_count;
        gb_session_start_limit := {| ssl_total := total; ssl_remaining := remaining;
                                     ssl_reset_after := reset_after;
                                     ssl_max_concurrency := max_concurrency |} |}.

End Gateway.
End Gateway.

(** ** [_set_invite_attributes] and the partial guild it reads *)

Module InviteAttributes.
Section InviteAttributes.
Variable rt : Runtime.

(** The values of [guild_models.GuildFeature] (not under [src/]). *)
Variable known_features : list string.
(** [guild_models.GuildVerificationLevel(x)] and
    [invite_models.TargetUserType(x)] (not under [src/]). *)
Variable verification_level : Type.
Variable verification_level_of : json -> result verification_level.
Variable target_user_type : Type.
Variable target_user_type_of : json -> result target_user_type.

(** A [GuildFeature] member, or the raw value it was not one of. *)
Inductive GuildFeature := FeatureKnown (s : string) | FeatureRaw (j : json).

(** [try: GuildFeature(feature) except ValueError: feature]. *)
Definition guild_feature_of (j : json) : GuildFeature :=
  match j with
  | JStr s => if existsb (String.eqb s) known_features then FeatureKnown s else FeatureRaw j
  | _ => FeatureRaw j
  end.

Record PartialGuild := {
  pg_id : Z;
  pg_name : json;
  pg_icon_hash : json;
  pg_features : list GuildFeature
}.

Definition _set_partial_guild_attributes (payload : obj) : result PartialGuild :=
  id <- Channels.getitem_snowflake rt payload "id" ;;
  name <- getitem payload "name" ;;
  icon <- getitem payload "icon" ;;
  fj <- getitem payload "features" ;; fs <- as_list fj ;;
  Ok {| pg_id := id; pg_name := name; pg_icon_hash := icon; pg_features := map guild_feature_of fs |}.

Record InviteGuild := {
  ig_partial : PartialGuild;
  ig_splash_hash : json;
  ig_banner_hash : json;
  ig_description : json;
  ig_verification_level : verification_level;
  ig_vanity_url_code : json
}.

Record Invite := {
  ia_code : json;
  ia_guild : option InviteGuild;
  ia_guild_id : option Z;
  ia_channel : option (Channels.PartialChannel);
  ia_channel_id : Z;
  ia_inviter : option (rt_user rt);
  ia_target_user : option (rt_user rt);
  ia_target_user_type : option target_user_type;
  ia_approximate_presence_count : option Z;
  ia_approximate_member_count : option Z
}.

(** [x(payload[k]) if k in payload else None]. *)
Definition if_contains {A : Type} (payload : obj) (k : string) (f : json -> result A)
    : result (option A) :=
  if contains payload k then j <- getitem payload k ;; a <- f j ;; Ok (Some a) else Ok None.

Definition _set_invite_attributes (payload : obj) : result Invite :=
  code <- getitem payload "code" ;;
  gg <- (if contains payload "guild" then
           gj <- getitem payload "guild" ;;
           guild_payload <- as_obj gj ;;
           pg <- _set_partial_guild_attributes guild_payload ;;
           splash <- getitem guild_payload "splash" ;;
           banner <- getitem guild_payload "banner" ;;
           description <- getitem guild_payload "description" ;;
           vj <- getitem guild_payload "verification_level" ;;
           vl <- verification_level_of vj ;;
           vanity <- getitem guild_payload "vanity_url_code" ;;
           Ok (Some {| ig_partial := pg; ig_splash_hash := splash; ig_banner_hash := banner;
                       ig_description := description; ig_verification_level := vl;
                       ig_vanity_url_code := vanity |}, Some (pg_id pg))
         else if contains payload "guild_id" then
           gid <- Channels.getitem_snowflake rt payload "guild_id" ;; Ok (None, Some gid)
         else Ok (None, None)) ;;
  cc <- (let channel := get payload "channel" in
         if negb (is_none channel) then
           co <- as_obj channel ;;
           c <- Channels._set_partial_channel_attributes rt co ;;
           Ok (Some c, Channels.ch_id c)
         else
           cid <- Channels.getitem_snowflake rt payload "channel_id" ;; Ok (None, cid)) ;;
  inviter <- if_contains payload "inviter" (rt_deserialize_user rt) ;;
  target_user <- if_contains payload "target_user" (rt_deserialize_user rt) ;;
  target_user_type <- if_contains payload "target_user_type" target_user_type_of ;;
  presence_count <- if_contains payload "approximate_presence_count" (py_int rt) ;;
  member_count <- if_contains payload "approximate_member_count" (py_int rt) ;;
  Ok {| ia_code := code; ia_guild := fst gg; ia_guild_id := snd gg;
        ia_channel := fst cc; ia_channel_id := snd cc;
        ia_inviter := inviter; ia_target_user := target_user;
        ia_target_user_type := target_user_type;
        ia_approximate_presence_count := presence_count;
        ia_approximate_member_count := member_count |}.

End InviteAttributes.
End InviteAttributes.

(** The class of a channel [deserialize_channel] returns, as a channel type. *)
Definition channel_class_type (rt : Runtime) (c : Channels.Channel rt) : ChannelType :=
  match c with
  | Channels.CGuildCategory _ _ => GUILD_CATEGORY
  | Channels.CGuildText _ _ => GUILD_TEXT
  | Channels.CGuildNews _ _ => GUILD_NEWS
  | Channels.CGuildStore _ _ => GUILD_STORE
  | Channels.CGuildVoice _ _ => GUILD_VOICE
  | Channels.CPrivateText _ _ => PRIVATE_TEXT
  | Channels.CGroupPrivateText _ _ => PRIVATE_GROUP_TEXT
  end.

(** Its [PartialChannel] attributes. *)
Definition channel_base (rt : Runtime) (c : Channels.Channel rt) : Channels.PartialChannel :=
  match c with
  | Channels.CGuildCategory _ g | Channels.CGuildStore _ g => Channels.gc_base rt g
  | Channels.CGuildText _ t => Channels.gc_base rt (Channels.gt_guild rt t)
  | Channels.CGuildNews _ n => Channels.gc_base rt (Channels.gn_guild rt n)
  | Channels.CGuildVoice _ v => Channels.gc_base rt (Channels.gv_guild rt v)
  | Channels.CPrivateText _ d => Channels.dm_base rt d
  | Channels.CGroupPrivateText _ g => Channels.gp_base rt g
  end.

(** The keys [serialize_embed] writes, as read off its body: one for each
    attribute that is set, in the order of the [if] statements, and
    ["fields"] only for a non-empty field list. *)
Definition slot (c : bool) (k : string) : list string := if c then [k] else [].

Definition is_set {A : Type} (o : option A) : bool := match o with Some _ => true | None => false end.

Definition embed_keys (rt : Runtime) (e : Embeds.Embed rt) : list string :=
  slot (negb (is_none (Embeds.e_title rt e))) "title" ++
  slot (negb (is_none (Embeds.e_description rt e))) "description" ++
  slot (negb (is_none (Embeds.e_url rt e))) "url" ++
  slot (is_set (Embeds.e_timestamp rt e)) "timestamp" ++
  slot (is_set (Embeds.e_color rt e)) "color" ++
  slot (is_set (Embeds.e_footer rt e)) "footer" ++
  slot (is_set (Embeds.e_image rt e)) "image" ++
  slot (is_set (Embeds.e_thumbnail rt e)) "thumbnail" ++
  slot (is_set (Embeds.e_author rt e)) "author" ++
  slot (match Embeds.e_fields rt e with Some (_ :: _) => true | _ => false end) "fields".

(** The resources an embed refers to, in the order [serialize_embed]
    visits them: the footer icon, the image, the thumbnail, the author
    icon. *)
Definition embed_resources (rt : Runtime) (e : Embeds.Embed rt) : list (rt_resource rt) :=
  match Embeds.e_footer rt e with
  | Some f => match Embeds.ft_icon rt f with Some i => [Embeds.rp_resource rt i] | None => [] end
  | None => [] end ++
  match Embeds.e_image rt e with Some i => [Embeds.img_resource rt i] | None => [] end ++
  match Embeds.e_thumbnail rt e with Some i => [Embeds.img_resource rt i] | None => [] end ++
  match Embeds.e_author rt e with
  | Some a => match Embeds.au_icon rt a with Some i => [Embeds.rp_resource rt i] | None => [] end
  | None => [] end.

(** ** A reference runtime

    One concrete runtime, used to run the entity factory on example payloads:
    [int()] on unsigned decimal strings, datetimes and resources kept as the
    payload's strings, users, overwrites and activities kept as the payload's
    values, and the four presence statuses. *)

Module ReferenceRuntime.

Fixpoint parse_digits (l : list ascii) (acc : Z) : option Z :=
  match l with
  | [] => Some acc
  | c :: rest =>
      let n := nat_of_ascii c in
      if Nat.leb 48 n && Nat.leb n 57 then parse_digits rest (acc * 10 + Z.of_nat (n - 48))
      else None
  end.

Definition int_of_str (s : string) : option Z :=
  match list_ascii_of_string s with [] => None | l => parse_digits l 0 end.

Definition iso8601 (j : json) : result string :=
  match j with JStr s => Ok s | _ => Err (TypeError "expected str") end.

Definition deserialize_dict (j : json) : result json :=
  match j with JObj _ => Ok j | _ => Err (TypeError "subscript of a non-dict") end.

Definition status_of (j : json) : result string :=
  match j with
  | JStr s => if existsb (String.eqb s) ["online"; "idle"; "dnd"; "offline"]%string
              then Ok s else Err ValueError
  | _ => Err ValueError
  end.

Definition ensure_resource (j : json) : result string :=
  match j with JStr s => Ok s | _ => Err (TypeError "expected str") end.

Definition color_of (j : json) : result Z :=
  match j with JInt z => Ok z | _ => Err (TypeError "expected int") end.

Lemma color_of_int : forall z c, color_of (JInt z) = Ok c -> c = z.
Proof. intros z c H. injection H as <-. reflexivity. Qed.

Definition rt0 : Runtime := {|
  rt_int_of_str := int_of_str;
  rt_datetime := string;
  rt_iso8601 := iso8601;
  rt_isoformat := fun s => s;
  rt_user := json;
  rt_deserialize_user := deserialize_dict;
  rt_overwrite := json;
  rt_deserialize_permission_overwrite := deserialize_dict;
  rt_status := string;
  rt_status_of := status_of;
  rt_status_offline := "offline"%string;
  rt_activity := json;
  rt_deserialize_activity := deserialize_dict;
  rt_resource := string;
  rt_ensure_resource := ensure_resource;
  rt_resource_url := fun s => s;
  rt_is_web_resource := fun _ => true;
  rt_color_of := color_of;
  rt_color_of_int := color_of_int;
  rt_str_tail := fun _ => "..."%string;
|}.

(** The same runtime, where only the resources given by an [https://] URL
    are web resources (the others are files to upload). *)
Definition rt_files : Runtime := {|
  rt_int_of_str := int_of_str;
  rt_datetime := string;
  rt_iso8601 := iso8601;
  rt_isoformat := fun s => s;
  rt_user := json;
  rt_deserialize_user := deserialize_dict;
  rt_overwrite := json;
  rt_deserialize_permission_overwrite := deserialize_dict;
  rt_status := string;
  rt_status_of := status_of;
  rt_status_offline := "offline"%string;
  rt_activity := json;
  rt_deserialize_activity := deserialize_dict;
  rt_resource := string;
  rt_ensure_resource := ensure_resource;
  rt_resource_url := fun s => s;
  rt_is_web_resource := String.prefix "https://";
  rt_color_of := color_of;
  rt_color_of_int := color_of_int;
  rt_str_tail := fun _ => "..."%string;
|}.

End ReferenceRuntime.

(** ** Example payloads *)

(** An invite payload of ["max_uses"] 0 and ["max_age"] 0. *)
Definition unlimited_invite_payload : obj :=
  [("code"%string, JStr "hikari"); ("uses"%string, JInt 3); ("max_uses"%string, JInt 0);
   ("max_age"%string, JInt 0); ("temporary"%string, JBool false);
   ("created_at"%string, JStr "2020-07-01T00:00:00+00:00")].

(** A member payload without ["nick"] and with a null ["premium_since"]. *)
Definition member_payload : obj :=
  [("user"%string, JObj [("id"%string, JInt 1)]); ("guild_id"%string, JInt 2);
   ("roles"%string, JArr []); ("premium_since"%string, JNull)].

(** Two presence payloads, without ["nick"] and with a null ["nick"]. *)
Definition presence_payload : obj :=
  [("user"%string, JObj [("id"%string, JInt 1)]); ("guild_id"%string, JInt 2);
   ("status"%string, JStr "online"); ("activities"%string, JArr []);
   ("client_status"%string, JObj [])].

Definition presence_payload_null_nick : obj := presence_payload ++ [("nick"%string, JNull)].

(** An audit log entry of action type 99, which no event type has. *)
Definition unknown_audit_log_entry : obj :=
  [("id"%string, JInt 5); ("target_id"%string, JNull); ("user_id"%string, JNull);
   ("action_type"%string, JInt 99); ("options"%string, JObj [("count"%string, JStr "3")])].

Definition audit_log_payload : obj :=
  [("audit_log_entries"%string, JArr [JObj unknown_audit_log_entry]);
   ("integrations"%string, JArr []); ("users"%string, JArr []); ("webhooks"%string, JArr [])].

(** An audit log entry of action type 99 with one change of key
    ["colour"], which no change key has. *)
Definition unknown_change_audit_log_entry : obj :=
  [("id"%string, JInt 6); ("target_id"%string, JNull);
   ("changes"%string, JArr [JObj [("key"%string, JStr "colour"); ("new_value"%string, JInt 1);
                                  ("old_value"%string, JNull)]]);
   ("user_id"%string, JNull); ("action_type"%string, JInt 99);
   ("options"%string, JObj [("count"%string, JStr "3")])].

Definition unknown_change_audit_log_payload : obj :=
  [("audit_log_entries"%string, JArr [JObj unknown_change_audit_log_entry]);
   ("integrations"%string, JArr []); ("users"%string, JArr []); ("webhooks"%string, JArr [])].

(** The payload without the key [k]:
    [{kk: v for kk, v in payload.items() if kk != k}]. *)
Definition drop_key (p : obj) (k : string) : obj :=
  filter (fun kv => negb (String.eqb (fst kv) k)) p.

(** A text channel payload of ["type"] 0 with ["guild_id"] 7. *)
Definition text_channel_payload : obj :=
  [("id"%string, JInt 10); ("type"%string, JInt 0); ("guild_id"%string, JInt 7);
   ("position"%string, JInt 1); ("permission_overwrites"%string, JArr []);
   ("topic"%string, JNull); ("last_message_id"%string, JNull)].

(** An embed payload with one field whose name is a single space. *)
Definition whitespace_name_embed_payload : obj :=
  [("title"%string, JStr "t");
   ("fields"%string, JArr [JObj [("name"%string, JStr " "); ("value"%string, JStr "v")]])].

(** An embed payload with a colour and one well-formed inline field. *)
Definition roundtrip_embed_payload : obj :=
  [("title"%string, JStr "t"); ("color"%string, JInt 255);
   ("fields"%string, JArr [JObj [("name"%string, JStr "a"); ("value"%string, JStr "b");
                                 ("inline"%string, JBool true)]])].

(** An embed model with one field whose value is a single space. *)
Definition whitespace_value_embed : Embeds.Embed ReferenceRuntime.rt0 := {|
  Embeds.e_title := JStr "t"; Embeds.e_description := JNull; Embeds.e_url := JNull;
  Embeds.e_color := None; Embeds.e_timestamp := None; Embeds.e_image := None;
  Embeds.e_thumbnail := None; Embeds.e_video := None; Embeds.e_provider := None;
  Embeds.e_author := None; Embeds.e_footer := None;
  Embeds.e_fields := Some [{| Embeds.f_name := JStr "a"; Embeds.f_value := JStr " ";
                              Embeds.f_is_inline := JBool false |}] |}.

(** An embed model with a title, a colour, a footer with an icon, an image,
    an author without icon and one field, for resources of any runtime. *)
Definition example_embed (rt : Runtime) (icon image : rt_resource rt) : Embeds.Embed rt := {|
  Embeds.e_title := JStr "t"; Embeds.e_description := JNull; Embeds.e_url := JNull;
  Embeds.e_color := Some 255; Embeds.e_timestamp := None;
  Embeds.e_image := Some (Embeds.Build_EmbedImage rt image image JNull JNull);
  Embeds.e_thumbnail := None; Embeds.e_video := None; Embeds.e_provider := None;
  Embeds.e_author := Some (Embeds.Build_EmbedAuthor rt (JStr "n") JNull None);
  Embeds.e_footer := Some (Embeds.Build_EmbedFooter rt (JStr "f")
                            (Some (Embeds.Build_EmbedResourceWithProxy rt icon icon)));
  Embeds.e_fields := Some [{| Embeds.f_name := JStr "a"; Embeds.f_value := JStr "b";
                              Embeds.f_is_inline := JBool false |}] |}.

(** A permission overwrite whose type is kept as its JSON value. *)
Definition example_overwrite : PermissionOverwrites.PermissionOverwrite json := {|
  PermissionOverwrites.po_id := 42; PermissionOverwrites.po_type := JInt 1;
  PermissionOverwrites.po_allow := 8; PermissionOverwrites.po_deny := 0 |}.

(** A [GET /gateway/bot] payload announcing a [max_concurrency] of [0]. *)
Definition gateway_bot_payload : obj :=
  [("url"%string, JStr "wss://gateway.discord.gg"); ("shards"%string, JInt 1);
   ("session_start_limit"%string,
      JObj [("total"%string, JInt 1000); ("remaining"%string, JInt 999);
            ("reset_after"%string, JInt 0); ("max_concurrency"%string, JInt 0)])].

(** An invite payload with both a guild object and a (different)
    ["guild_id"]. *)
Definition invite_payload : obj :=
  [("code"%string, JStr "abc");
   ("guild"%string,
      JObj [("id"%string, JStr "10"); ("name"%string, JStr "g"); ("icon"%string, JNull);
            ("features"%string, JArr [JStr "NEWS"]); ("splash"%string, JNull);
            ("banner"%string, JNull); ("description"%string, JNull);
            ("verification_level"%string, JInt 0); ("vanity_url_code"%string, JNull)]);
   ("guild_id"%string, JStr "99");
   ("channel"%string, JObj [("id"%string, JStr "7"); ("name"%string, JStr "c");
                            ("type"%string, JInt 0)]);
   ("channel_id"%string, JStr "5")].

(** A guild channel payload listing two overwrites with the same id. *)
Definition overwrites_channel_payload : obj :=
  [("id"%string, JInt 10); ("type"%string, JInt 4); ("guild_id"%string, JInt 7);
   ("position"%string, JInt 1);
   ("permission_overwrites"%string,
      JArr [JObj [("id"%string, JInt 3); ("allow_new"%string, JStr "1")];
            JObj [("id"%string, JInt 3); ("allow_new"%string, JStr "2")]])].

(** ** The spec's words, for the embed fields *)

(** A field's name or value that is null, empty, or only whitespace. *)
Definition blank_text (rt : Runtime) (j : json) : Prop :=
  j = JNull \/ py_str rt j = EmptyString \/
  Forall (fun c => is_py_space c = true) (list_ascii_of_string (py_str rt j)).

(** A field payload the spec treats as well formed: a dict whose [name]
    and [value] are strings, neither of them blank. *)
Definition good_field_payload (rt : Runtime) (fp : json) : Prop :=
  exists o n v, fp = JObj o /\ lookup o "name" = Some (JStr n) /\
    lookup o "value" = Some (JStr v) /\
    ~ blank_text rt (JStr n) /\ ~ blank_text rt (JStr v).

(** The field payload one expects back after a round trip: [name], [value]
    and [inline], this one [False] when it was absent. *)
Definition field_roundtrip (fp : json) : json :=
  match fp with
  | JObj o => JObj [("name"%string, get o "name"); ("value"%string, get o "value");
                    ("inline"%string, get_default o "inline" (JBool false))]
  | _ => fp
  end.

(** The part of [serialize_embed]'s payload set before the nested objects. *)
Definition embed_base_payload (rt : Runtime) (embed : Embeds.Embed rt) : obj :=
  let payload := Embeds.set_if_not_none [] "title" (Embeds.e_title rt embed) in
  let payload := Embeds.set_if_not_none payload "description" (Embeds.e_description rt embed) in
  let payload := Embeds.set_if_not_none payload "url" (Embeds.e_url rt embed) in
  let payload := match Embeds.e_timestamp rt embed with
                 | Some t => payload ++ [("timestamp"%string, JStr (rt_isoformat rt t))]
                 | None => payload end in
  match Embeds.e_color rt embed with
  | Some c => payload ++ [("color"%string, JInt c)]
  | None => payload end.

(** * Facts about the collections *)

Module CacheMapFacts.
Import LimitedCapacityCacheMap CacheMapSpec.
Section Facts.
Context {K V : Type} (K_eq_dec : forall a b : K, {a = b} + {a <> b}).

Local Notation ent := (entry (K:=K) (V:=V)).

Definition proj (e : ent) : K * V := (ekey e, evalue e).

(** The code's [_data] lists the entries of the documented model in order of
    insertion time, with no key twice, within the limit. *)
Definition refines (lim t : nat) (d : list (K * V)) (es : list ent) : Prop :=
  d = map proj es /\ StronglySorted Nat.lt (map estamp es) /\
  Forall (fun e => (estamp e < t)%nat) es /\ NoDup (map ekey es) /\ (length es <= lim)%nat.

(** Each recorded call of [on_expire] matches one eviction of the model, in
    order, and sees a [_data] that no longer holds the evicted key. *)
Definition log_rel (cb : bool) (log : list (V * list (K * V))) (evs : list (K * V)) : Prop :=
  if cb then Forall2 (fun kv ex => snd kv = fst ex /\ ~ In (fst kv) (keys (snd ex))) evs log
  else log = [].

Lemma mem_has_key (k : K) (es : list ent) :
  mem K_eq_dec k (map proj es) = existsb (has_key K_eq_dec k) es.
Proof. induction es as [|e r IH]; simpl; [reflexivity|]. rewrite IH. reflexivity. Qed.

Lemma has_key_true (k : K) (e : ent) : has_key K_eq_dec k e = true <-> ekey e = k.
Proof. unfold has_key. destruct (K_eq_dec (ekey e) k); split; congruence. Qed.

Lemma existsb_has_key (k : K) (es : list ent) :
  existsb (has_key K_eq_dec k) es = true <-> In k (map ekey es).
Proof.
  rewrite existsb_exists, in_map_iff. split.
  - intros (e & He & Hk). apply has_key_true in Hk. eauto.
  - intros (e & Hk & He). exists e. split; [exact He|]. apply has_key_true. exact Hk.
Qed.

Lemma gc_cons (lim : nat) (cb : bool) (k : K) (v : V) (rest : list (K * V))
    (log : list (V * list (K * V))) :
  garbage_collect lim cb ((k, v) :: rest) log =
  if Nat.leb (S (length rest)) lim then ((k, v) :: rest, log)
  else garbage_collect lim cb rest (if cb then log ++ [(v, rest)] else log).
Proof. reflexivity. Qed.

Lemma gc_within (lim : nat) (cb : bool) (d : list (K * V)) (log : list (V * list (K * V))) :
  (length d <= lim)%nat -> garbage_collect lim cb d log = (d, log).
Proof.
  intros H. destruct d as [|[k v] rest]; [reflexivity|]. rewrite gc_cons.
  simpl in H. destruct (Nat.leb_spec (S (length rest)) lim); [reflexivity|lia].
Qed.

Lemma gc_one (lim : nat) (cb : bool) (k : K) (v : V) (rest : list (K * V))
    (log : list (V * list (K * V))) :
  length rest = lim ->
  garbage_collect lim cb ((k, v) :: rest) log = (rest, if cb then log ++ [(v, rest)] else log).
Proof.
  intros H. rewrite gc_cons. destruct (Nat.leb_spec (S (length rest)) lim); [lia|].
  apply gc_within. lia.
Qed.

Lemma earliest_in (es : list ent) (a : ent) : earliest es = Some a -> In a es.
Proof.
  revert a; induction es as [|e r IH]; intros a H; simpl in *; [discriminate|].
  destruct (earliest r) as [b|] eqn:E.
  - destruct (Nat.ltb (estamp b) (estamp e)); inversion H; subst; auto.
  - inversion H; auto.
Qed.

Lemma earliest_sorted (e : ent) (r : list ent) :
  StronglySorted Nat.lt (map estamp (e :: r)) -> earliest (e :: r) = Some e.
Proof.
  intros Hs. simpl in Hs. apply StronglySorted_inv in Hs as [_ Hf]. simpl.
  destruct (earliest r) as [b|] eqn:E; [|reflexivity].
  apply earliest_in in E. rewrite Forall_forall in Hf.
  assert (estamp e < estamp b)%nat by (apply Hf, in_map; exact E).
  destruct (Nat.ltb_spec (estamp b) (estamp e)); [lia|reflexivity].
Qed.

Lemma filter_other_keys (k : K) (r : list ent) :
  ~ In k (map ekey r) -> filter (fun e => negb (has_key K_eq_dec k e)) r = r.
Proof.
  induction r as [|e r IH]; intros H; simpl in *; [reflexivity|].
  destruct (has_key K_eq_dec k e) eqn:E.
  - apply has_key_true in E. intuition.
  - simpl. f_equal. apply IH. intuition.
Qed.

Lemma filter_head_removed (e0 : ent) (rest : list ent) :
  ~ In (ekey e0) (map ekey rest) ->
  filter (fun e => negb (has_key K_eq_dec (ekey e0) e)) (e0 :: rest) = rest.
Proof.
  intros H. simpl. rewrite (proj2 (has_key_true (ekey e0) e0) eq_refl). simpl.
  apply filter_other_keys. exact H.
Qed.

Lemma filter_map_comm (p : K * V -> bool) (es : list ent) :
  filter p (map proj es) = map proj (filter (fun e => p (proj e)) es).
Proof.
  induction es as [|e r IH]; simpl; [reflexivity|].
  destruct (p (proj e)); simpl; rewrite IH; reflexivity.
Qed.

Lemma sorted_filter (p : ent -> bool) (es : list ent) :
  StronglySorted Nat.lt (map estamp es) -> StronglySorted Nat.lt (map estamp (filter p es)).
Proof.
  induction es as [|e r IH]; intros Hs; simpl in *; [constructor|].
  apply StronglySorted_inv in Hs as [Hr Hf].
  destruct (p e); simpl; [|auto].
  constructor; [auto|]. rewrite Forall_forall in *. intros x Hx.
  apply in_map_iff in Hx as (e' & <- & He'). apply filter_In in He' as [He' _].
  apply Hf, in_map. exact He'.
Qed.

Lemma nodup_filter (p : ent -> bool) (es : list ent) :
  NoDup (map ekey es) -> NoDup (map ekey (filter p es)).
Proof.
  induction es as [|e r IH]; intros Hn; simpl in *; [constructor|].
  inversion Hn as [|? ? Hnin Hr]; subst.
  destruct (p e); simpl; [|auto].
  constructor; [|auto]. intros Hin. apply Hnin.
  apply in_map_iff in Hin as (e' & Hk & He'). apply filter_In in He' as [He' _].
  rewrite <- Hk. apply in_map. exact He'.
Qed.

Lemma sorted_snoc (es : list ent) (e : ent) :
  StronglySorted Nat.lt (map estamp es) -> Forall (fun x => (estamp x < estamp e)%nat) es ->
  StronglySorted Nat.lt (map estamp (es ++ [e])).
Proof.
  induction es as [|x r IH]; intros Hs Hf; simpl in *.
  - repeat constructor.
  - apply StronglySorted_inv in Hs as [Hr Hx]. inversion Hf as [|? ? Hlt Hf']; subst.
    constructor; [auto|]. rewrite map_app. apply Forall_app. split; [exact Hx|].
    repeat constructor. exact Hlt.
Qed.

Lemma nodup_snoc (es : list ent) (e : ent) :
  NoDup (map ekey es) -> ~ In (ekey e) (map ekey es) -> NoDup (map ekey (es ++ [e])).
Proof.
  induction es as [|x r IH]; intros Hn Hnin; simpl in *.
  - repeat constructor. simpl. tauto.
  - inversion Hn as [|? ? Hx Hr]; subst. constructor.
    + rewrite map_app, in_app_iff. simpl. intuition.
    + apply IH; [exact Hr|]. intuition.
Qed.

Lemma map_update_proj (k : K) (v : V) (es : list ent) :
  map (fun kv => if K_eq_dec (fst kv) k then (k, v) else kv) (map proj es) =
  map proj (map (fun e => if has_key K_eq_dec k e then (k, v, estamp e) else e) es).
Proof.
  rewrite !map_map. apply map_ext. intros e. unfold has_key, proj. simpl.
  destruct (K_eq_dec (ekey e) k); reflexivity.
Qed.

Lemma set_step (st : state) (t : nat) (es : list ent) (k : K) (v : V) :
  refines (limit st) t (data st) es ->
  let st' := setitem K_eq_dec st k v in
  let (es', ev) := spec_set K_eq_dec (limit st) t es k v in
  refines (limit st) (S t) (data st') es' /\ limit st' = limit st /\
  on_expire st' = on_expire st /\
  expired st' = expired st ++ (if on_expire st then map (fun kv => (snd kv, data st')) ev else []) /\
  Forall (fun kv => ~ In (fst kv) (keys (data st'))) ev.
Proof.
  destruct st as [d lim cb log]; simpl.
  intros (-> & Hs & Ht & Hn & Hl).
  unfold setitem, gc_state, spec_set, dict_set. simpl. rewrite mem_has_key.
  destruct (existsb (has_key K_eq_dec k) es) eqn:E.
  - rewrite map_update_proj, gc_within by (rewrite !length_map; exact Hl). simpl.
    assert (Hst : map estamp (map (fun e => if has_key K_eq_dec k e then (k, v, estamp e) else e) es)
                  = map estamp es).
    { rewrite map_map. apply map_ext. intros e. destruct (has_key K_eq_dec k e); reflexivity. }
    assert (Hkey : map ekey (map (fun e => if has_key K_eq_dec k e then (k, v, estamp e) else e) es)
                   = map ekey es).
    { rewrite map_map. apply map_ext. intros e.
      destruct (has_key K_eq_dec k e) eqn:He; [apply has_key_true in He|]; auto. }
    repeat split; auto.
    + rewrite Hst. exact Hs.
    + rewrite Forall_forall in *. intros e He. apply in_map_iff in He as (e0 & <- & He0).
      specialize (Ht e0 He0). destruct (has_key K_eq_dec k e0); simpl; unfold estamp in *; simpl; lia.
    + rewrite Hkey. exact Hn.
    + rewrite length_map. exact Hl.
    + destruct cb; simpl; rewrite ?app_nil_r; reflexivity.
  - assert (Hnin : ~ In k (map ekey es)) by (rewrite <- existsb_has_key, E; discriminate).
    set (es' := es ++ [(k, v, t)]).
    assert (Hs' : StronglySorted Nat.lt (map estamp es')) by (apply sorted_snoc; exact Hs || exact Ht).
    assert (Hn' : NoDup (map ekey es')) by (apply nodup_snoc; assumption).
    assert (Ht' : Forall (fun e => (estamp e < S t)%nat) es').
    { apply Forall_app. split; [|repeat constructor; unfold estamp; simpl; lia].
      eapply Forall_impl; [|exact Ht]. simpl. intros; lia. }
    assert (Hproj : map proj es ++ [(k, v)] = map proj es') by (unfold es'; rewrite map_app; reflexivity).
    rewrite Hproj.
    assert (Hlen : length es' = S (length es)) by (unfold es'; rewrite length_app; simpl; lia).
    destruct (Nat.leb_spec (length es') lim) as [Hle|Hgt].
    + rewrite gc_within by (rewrite length_map; exact Hle). simpl.
      repeat split; auto. destruct cb; simpl; rewrite ?app_nil_r; reflexivity.
    + destruct es' as [|e0 rest] eqn:Ees; [simpl in Hlen; discriminate|].
      rewrite (earliest_sorted e0 rest Hs').
      simpl in Hn'. inversion Hn' as [|? ? Hnin0 Hnr]; subst.
      rewrite filter_head_removed by exact Hnin0.
      replace (map proj (e0 :: rest)) with ((ekey e0, evalue e0) :: map proj rest) by reflexivity.
      simpl in Hlen, Hgt.
      rewrite gc_one by (rewrite length_map; lia). simpl.
      apply StronglySorted_inv in Hs' as [Hsr _]. inversion Ht' as [|? ? _ Htr]; subst.
      repeat split; auto.
      * lia.
      * destruct cb; simpl; rewrite ?app_nil_r; reflexivity.
      * constructor; [|constructor]. simpl. unfold keys, proj. rewrite map_map. simpl.
        exact Hnin0.
Qed.

Lemma del_step (st : state) (t : nat) (es : list ent) (k : K) :
  refines (limit st) t (data st) es ->
  match delitem K_eq_dec st k, spec_del K_eq_dec es k with
  | Some st', Some es' =>
      refines (limit st) (S t) (data st') es' /\ limit st' = limit st /\
      on_expire st' = on_expire st /\ expired st' = expired st
  | None, None => True
  | _, _ => False
  end.
Proof.
  destruct st as [d lim cb log]; simpl.
  intros (-> & Hs & Ht & Hn & Hl).
  unfold delitem, dict_del, spec_del. simpl. rewrite mem_has_key.
  destruct (existsb (has_key K_eq_dec k) es); [|exact I]. simpl.
  rewrite filter_map_comm. repeat split; auto.
  - f_equal. apply filter_ext. intros e. unfold has_key, proj. simpl.
    destruct (K_eq_dec (ekey e) k); reflexivity.
  - apply sorted_filter. exact Hs.
  - rewrite Forall_forall in *. intros e He. apply filter_In in He as [He _].
    specialize (Ht e He). lia.
  - apply nodup_filter. exact Hn.
  - pose proof (filter_length_le (fun e => negb (has_key K_eq_dec k e)) es). lia.
Qed.

Lemma forall2_expired (ev : list (K * V)) (d : list (K * V)) :
  Forall (fun kv => ~ In (fst kv) (keys d)) ev ->
  Forall2 (fun kv ex => snd kv = fst ex /\ ~ In (fst kv) (keys (snd ex)))
    ev (map (fun kv => (snd kv, d)) ev).
Proof.
  induction 1 as [|kv ev' Hkv _ IH]; simpl; constructor; auto.
Qed.

Lemma run_refines (ops : list op) :
  forall st t es evs,
  refines (limit st) t (data st) es -> log_rel (on_expire st) (expired st) evs ->
  match run K_eq_dec st ops, spec_run K_eq_dec (limit st) t es evs ops with
  | Some st', Some (es', evs') =>
      (exists t', refines (limit st) t' (data st') es') /\
      log_rel (on_expire st) (expired st') evs'
  | None, None => True
  | _, _ => False
  end.
Proof.
  induction ops as [|o rest IH]; intros st t es evs Hr Hlog.
  - simpl. split; eauto.
  - destruct o as [k v|k]; cbn [run run_op spec_run].
    + pose proof (set_step st t es k v Hr) as Hstep.
      destruct (spec_set K_eq_dec (limit st) t es k v) as [es' ev].
      destruct Hstep as (Hr' & Hlim & Hcb & Hexp & Hev).
      specialize (IH (setitem K_eq_dec st k v) (S t) es' (evs ++ ev)).
      rewrite Hlim, Hcb in IH. apply IH; [exact Hr'|].
      unfold log_rel in *. rewrite Hexp.
      destruct (on_expire st).
      * apply Forall2_app; [exact Hlog|]. apply forall2_expired. exact Hev.
      * rewrite Hlog. reflexivity.
    + pose proof (del_step st t es k Hr) as Hstep.
      destruct (delitem K_eq_dec st k) as [st'|], (spec_del K_eq_dec es k) as [es'|];
        try contradiction; [|exact I].
      destruct Hstep as (Hr' & Hlim & Hcb & Hexp).
      specialize (IH st' (S t) es' evs). rewrite Hlim, Hcb in IH.
      apply IH; [exact Hr'|]. rewrite Hexp. exact Hlog.
Qed.

Lemma mem_keys (k : K) (d : list (K * V)) : mem K_eq_dec k d = true <-> In k (keys d).
Proof.
  unfold mem, keys. rewrite existsb_exists, in_map_iff. split.
  - intros (kv & Hin & Hk). destruct (K_eq_dec (fst kv) k); [eauto|discriminate].
  - intros (kv & Hk & Hin). exists kv. split; [exact Hin|]. destruct (K_eq_dec (fst kv) k); congruence.
Qed.

Lemma keys_dict_set_present (d : list (K * V)) (k : K) (v : V) :
  mem K_eq_dec k d = true -> keys (dict_set K_eq_dec d k v) = keys d /\
  length (dict_set K_eq_dec d k v) = length d.
Proof.
  intros H. unfold dict_set. rewrite H. unfold keys. rewrite map_map, length_map. split; [|reflexivity].
  apply map_ext. intros kv. destruct (K_eq_dec (fst kv) k); simpl; congruence.
Qed.

(** The size invariant of a run of insertions from the empty map: at the
    limit, or holding every key inserted so far. *)
Definition size_inv (lim : nat) (d : list (K * V)) (seen : list K) : Prop :=
  NoDup (keys d) /\ (length d <= lim)%nat /\
  (length d = lim \/ forall k, In k (keys d) <-> In k seen).

Lemma size_inv_set (st : state) (seen : list K) (k : K) (v : V) :
  size_inv (limit st) (data st) seen ->
  size_inv (limit st) (data (setitem K_eq_dec st k v)) (seen ++ [k]).
Proof.
  destruct st as [d lim cb log]. unfold setitem, gc_state. simpl.
  intros (Hn & Hl & Hor).
  destruct (mem K_eq_dec k d) eqn:E.
  - destruct (keys_dict_set_present d k v E) as [Hk Hlen].
    rewrite gc_within by lia. simpl. unfold size_inv. rewrite Hk, Hlen.
    repeat split; auto. destruct Hor as [Hor|Hor]; [left; exact Hor|right].
    intros x. rewrite Hor, in_app_iff. simpl.
    apply mem_keys, Hor in E. intuition congruence.
  - assert (Hnin : ~ In k (keys d)) by (rewrite <- mem_keys, E; discriminate).
    unfold dict_set. rewrite E.
    assert (Hn' : NoDup (keys (d ++ [(k, v)]))).
    { unfold keys. rewrite map_app. simpl. apply NoDup_app; auto.
      - repeat constructor. simpl. tauto.
      - intros x Hx [<-|[]]. contradiction. }
    destruct (Nat.eq_dec (length d) lim) as [Hfull|Hroom].
    + destruct (d ++ [(k, v)]) as [|[k0 v0] rest] eqn:Ed.
      { apply (f_equal (@length _)) in Ed. rewrite length_app in Ed. simpl in Ed. lia. }
      assert (Hlr : length rest = lim).
      { apply (f_equal (@length _)) in Ed. rewrite length_app in Ed. simpl in Ed. lia. }
      rewrite gc_one by exact Hlr. simpl.
      unfold keys in Hn'. simpl in Hn'. inversion Hn'; subst.
      repeat split; auto; lia.
    + assert (Hle : (length (d ++ [(k, v)]) <= lim)%nat) by (rewrite length_app; simpl; lia).
      rewrite gc_within by exact Hle. simpl.
      repeat split; auto. right. destruct Hor as [Hor|Hor]; [lia|].
      intros x. unfold keys in *. rewrite map_app, !in_app_iff, Hor. tauto.
Qed.

Lemma size_run (kvs : list (K * V)) :
  forall st seen,
  size_inv (limit st) (data st) seen ->
  exists st', run K_eq_dec st (map (fun kv => Set_ (fst kv) (snd kv)) kvs) = Some st' /\
    limit st' = limit st /\ size_inv (limit st) (data st') (seen ++ map fst kvs).
Proof.
  induction kvs as [|[k v] kvs IH]; intros st seen Hinv.
  - exists st. rewrite app_nil_r. simpl. auto.
  - cbn [map run run_op fst snd].
    assert (Hl : limit (setitem K_eq_dec st k v) = limit st).
    { unfold setitem, gc_state. simpl. destruct (garbage_collect _ _ _ _); reflexivity. }
    destruct (IH (setitem K_eq_dec st k v) (seen ++ [k])) as (st' & Hrun & Hlim & Hinv').
    + rewrite Hl. apply size_inv_set. exact Hinv.
    + exists st'. split; [exact Hrun|]. rewrite Hl in Hlim, Hinv'. split; [exact Hlim|].
      rewrite <- app_assoc in Hinv'. exact Hinv'.
Qed.

End Facts.
End CacheMapFacts.

Example snowflake_set_run_example :
  option_map SnowflakeSet.iter
    (SnowflakeSet.run [] [SnowflakeSet.Add 5; SnowflakeSet.AddAll [3; 9; 5; 1]; SnowflakeSet.Add 3])
  = Some [1; 3; 5; 9].
Proof. reflexivity. Qed.

Module SnowflakeSetFacts.
Import SnowflakeSet.

(** Number of leading elements of [a] below [x]. *)
Fixpoint lt_count (a : list Z) (x : Z) : nat :=
  match a with
  | [] => O
  | y :: r => if y <? x then S (lt_count r x) else O
  end.

(** Sorted insertion without duplicates, the reference for [add]. *)
Fixpoint ins (x : Z) (a : list Z) : list Z :=
  match a with
  | [] => [x]
  | y :: r => if y <? x then y :: ins x r else if y =? x then a else x :: a
  end.

Lemma partition_lt_count (a : list Z) (x : Z) (i : nat) :
  (i <= length a)%nat ->
  (forall j, (j < i)%nat -> nth j a 0 < x) ->
  (forall j, (i <= j < length a)%nat -> x <= nth j a 0) ->
  i = lt_count a x.
Proof.
  revert i; induction a as [|y r IH]; intros i Hle Hlo Hhi; simpl in *.
  - lia.
  - destruct i as [|i].
    + assert (x <= y) by (apply (Hhi 0%nat); lia).
      destruct (Z.ltb_spec y x); lia.
    + assert (y < x) by (apply (Hlo 0%nat); lia).
      destruct (Z.ltb_spec y x); [|lia]. f_equal.
      apply IH; [lia| |].
      * intros j Hj. apply (Hlo (S j)); lia.
      * intros j Hj. apply (Hhi (S j)); lia.
Qed.

Lemma sorted_nth (a : list Z) (i j : nat) :
  StronglySorted Z.lt a -> (i < j)%nat -> (j < length a)%nat ->
  nth i a 0 < nth j a 0.
Proof.
  intros Hs; revert i j; induction Hs as [|y r Hr IH Hf]; intros i j Hij Hj; simpl in *.
  - lia.
  - destruct i as [|i], j as [|j]; try lia.
    + rewrite Forall_forall in Hf. apply Hf, nth_In. lia.
    + apply IH; lia.
Qed.

Lemma bisect_loop_S (fuel : nat) (a : list Z) (x : Z) (lo hi : nat) :
  bisect_loop (S fuel) a x lo hi =
  if Nat.ltb lo hi then
    let mid := Nat.div (lo + hi) 2 in
    if nth mid a 0 <? x then bisect_loop fuel a x (S mid) hi
    else bisect_loop fuel a x lo mid
  else lo.
Proof. reflexivity. Qed.

Lemma bisect_loop_lt_count (fuel : nat) (a : list Z) (x : Z) (lo hi : nat) :
  StronglySorted Z.lt a ->
  (lo <= hi <= length a)%nat -> (hi - lo < fuel)%nat ->
  (forall j, (j < lo)%nat -> nth j a 0 < x) ->
  (forall j, (hi <= j < length a)%nat -> x <= nth j a 0) ->
  bisect_loop fuel a x lo hi = lt_count a x.
Proof.
  intros Hs; revert lo hi; induction fuel as [|fuel IH]; intros lo hi Hb Hf Hlo Hhi; [lia|].
  rewrite bisect_loop_S. destruct (Nat.ltb_spec lo hi) as [Hlt|Hge].
  - cbv zeta. set (mid := Nat.div (lo + hi) 2).
    assert (Hm : (lo <= mid < hi)%nat).
    { subst mid. split.
      - apply Nat.div_le_lower_bound; lia.
      - apply Nat.Div0.div_lt_upper_bound; lia. }
    destruct (Z.ltb_spec (nth mid a 0) x).
    + apply IH; [lia|lia| |exact Hhi].
      intros j Hj. destruct (Nat.eq_dec j mid) as [->|Hne]; [assumption|].
      assert (nth j a 0 < nth mid a 0) by (apply sorted_nth; auto; lia). lia.
    + apply IH; [lia|lia|exact Hlo|].
      intros j Hj. destruct (Nat.eq_dec j mid) as [->|Hne]; [assumption|].
      assert (nth mid a 0 < nth j a 0) by (apply sorted_nth; auto; lia). lia.
  - apply partition_lt_count; [lia|exact Hlo|].
    intros j Hj. apply Hhi. lia.
Qed.

Lemma bisect_left_lt_count (a : list Z) (x : Z) :
  StronglySorted Z.lt a -> bisect_left a x = lt_count a x.
Proof.
  intros Hs. unfold bisect_left. apply bisect_loop_lt_count; auto; intros; lia.
Qed.

Lemma lt_count_le (a : list Z) (x : Z) : (lt_count a x <= length a)%nat.
Proof. induction a as [|y r IH]; simpl; [lia|]. destruct (y <? x); lia. Qed.

Lemma ins_split (a : list Z) (x : Z) :
  (lt_count a x = length a -> ins x a = a ++ [x]) /\
  ((lt_count a x < length a)%nat -> nth (lt_count a x) a 0 = x -> ins x a = a) /\
  ((lt_count a x < length a)%nat -> nth (lt_count a x) a 0 <> x ->
     ins x a = firstn (lt_count a x) a ++ x :: skipn (lt_count a x) a).
Proof.
  induction a as [|y r IH]; simpl.
  - repeat split; intros; lia.
  - destruct IH as (IH1 & IH2 & IH3).
    destruct (Z.ltb_spec y x); simpl.
    + split; [|split].
      * intros H1. f_equal. apply IH1; lia.
      * intros H1 H2. f_equal. apply IH2; [lia|assumption].
      * intros H1 H2. f_equal. apply IH3; [lia|assumption].
    + destruct (Z.eqb_spec y x); repeat split; intros; try lia; subst; auto.
Qed.

Lemma ins_sorted (a : list Z) (x : Z) :
  StronglySorted Z.lt a -> StronglySorted Z.lt (ins x a).
Proof.
  intros Hs; induction Hs as [|y r Hr IH Hf]; simpl.
  - repeat constructor.
  - destruct (Z.ltb_spec y x).
    + constructor; [exact IH|].
      rewrite Forall_forall in *. intros z Hz.
      assert (Hz' : z = x \/ In z r).
      { clear -Hz. induction r as [|w r' IHr]; simpl in *; [intuition|].
        destruct (w <? x); [|destruct (w =? x)]; simpl in *; intuition. }
      destruct Hz' as [->|Hz']; auto.
    + destruct (Z.eqb_spec y x); [constructor; auto|].
      constructor; [constructor; auto|].
      constructor; [lia|]. rewrite Forall_forall in *. intros z Hz.
      specialize (Hf z Hz). lia.
Qed.

Lemma in_ins (a : list Z) (x y : Z) : In y (ins x a) <-> y = x \/ In y a.
Proof.
  induction a as [|w r IH]; simpl; [intuition|].
  destruct (Z.ltb_spec w x); [simpl; rewrite IH; intuition|].
  destruct (Z.eqb_spec w x); simpl; [subst|]; intuition.
Qed.

Definition ids_inv (a : list Z) : Prop :=
  StronglySorted Z.lt a /\ Forall (fun v => in_u64 v = true) a.

Lemma add_ins (a : list Z) (x : Z) :
  ids_inv a -> add a x = if in_u64 x then Some (ins x a) else None.
Proof.
  intros [Hs Hr]. unfold add. rewrite bisect_left_lt_count by exact Hs.
  destruct (ins_split a x) as (A & B & C).
  pose proof (lt_count_le a x) as Hle.
  destruct (Nat.eqb_spec (lt_count a x) (length a)) as [E|E].
  - unfold array_append. rewrite A by exact E. reflexivity.
  - destruct (Z.eqb_spec (nth (lt_count a x) a 0) x) as [Ex|Ex]; simpl.
    + rewrite B by (lia || exact Ex).
      rewrite Forall_forall in Hr.
      rewrite (Hr x); [reflexivity|]. rewrite <- Ex. apply nth_In. lia.
    + unfold array_insert. rewrite C by (lia || exact Ex). reflexivity.
Qed.

Lemma ins_inv (a : list Z) (x : Z) :
  ids_inv a -> in_u64 x = true -> ids_inv (ins x a).
Proof.
  intros [Hs Hr] Hx. split; [apply ins_sorted; exact Hs|].
  rewrite Forall_forall in *. intros v Hv. apply in_ins in Hv.
  destruct Hv as [->|Hv]; auto.
Qed.

Lemma add_all_cons (ids : list Z) (sf : Z) (rest : list Z) :
  add_all ids (sf :: rest) =
  match add ids sf with Some ids' => add_all ids' rest | None => None end.
Proof. reflexivity. Qed.

Lemma add_all_spec (a vs : list Z) :
  ids_inv a -> Forall (fun v => in_u64 v = true) vs ->
  exists b, add_all a vs = Some b /\ ids_inv b /\
            (forall v, In v b <-> In v a \/ In v vs).
Proof.
  revert a; induction vs as [|x vs IH]; intros a Ha Hvs.
  - exists a. simpl. intuition.
  - inversion Hvs as [|? ? Hx Hvs']; subst.
    rewrite add_all_cons, add_ins by exact Ha. rewrite Hx.
    destruct (IH (ins x a) (ins_inv a x Ha Hx) Hvs') as (b & Hb & Hib & Hin).
    exists b. split; [exact Hb|split; [exact Hib|]].
    intros v. rewrite Hin, in_ins. simpl. intuition.
Qed.

Lemma run_spec (a : list Z) (ops : list op) :
  ids_inv a -> Forall (fun v => in_u64 v = true) (concat (map op_values ops)) ->
  exists b, run a ops = Some b /\ ids_inv b /\
            (forall v, In v b <-> In v a \/ In v (concat (map op_values ops))).
Proof.
  revert a; induction ops as [|o ops IH]; intros a Ha Hv.
  - exists a. simpl. intuition.
  - simpl in Hv. apply Forall_app in Hv as [Ho Hrest].
    assert (Hstep : exists a', run_op a o = Some a' /\ ids_inv a' /\
                      (forall v, In v a' <-> In v a \/ In v (op_values o))).
    { destruct o as [x|xs]; simpl in *.
      - inversion Ho as [|? ? Hx]; subst. rewrite add_ins by exact Ha. rewrite Hx.
        exists (ins x a). split; [reflexivity|split; [apply ins_inv; auto|]].
        intros v. rewrite in_ins. intuition.
      - apply add_all_spec; auto. }
    destruct Hstep as (a' & Hr & Ha' & Hin').
    destruct (IH a' Ha' Hrest) as (b & Hb & Hib & Hin).
    exists b. simpl. rewrite Hr. split; [exact Hb|split; [exact Hib|]].
    intros v. rewrite Hin, Hin', in_app_iff. intuition.
Qed.

End SnowflakeSetFacts.

(** * Facts about the entity factory *)

(** Peel the successful steps off [bind m f = Ok x]. *)
Ltac bind_ok H :=
  repeat match type of H with
  | bind ?m _ = Ok _ =>
      let E := fresh "E" in
      let x := fresh "a" in
      case_eq m; intros x E; rewrite E in H; cbn [bind] in H; [ | discriminate H ]
  end.

Module ChannelFacts.

Lemma getitem_ok (p : obj) (k : string) (v : json) : getitem p k = Ok v -> lookup p k = Some v.
Proof. unfold getitem. destruct (lookup p k); congruence. Qed.

Lemma set_guild_some (rt : Runtime) (payload : obj) (g : Z) (gc : Channels.GuildChannel rt) :
  Channels._set_guild_channel_attributes rt payload (Some g) = Ok gc -> Channels.gc_guild_id rt gc = g.
Proof.
  intro H. unfold Channels._set_guild_channel_attributes in H. bind_ok H.
  injection H as <-. reflexivity.
Qed.

Lemma set_guild_none (rt : Runtime) (payload : obj) (gc : Channels.GuildChannel rt) :
  Channels._set_guild_channel_attributes rt payload None = Ok gc ->
  exists v, lookup payload "guild_id" = Some v /\ snowflake rt v = Ok (Channels.gc_guild_id rt gc).
Proof.
  intro H. unfold Channels._set_guild_channel_attributes in H. bind_ok H.
  injection H as <-. simpl.
  unfold Channels.getitem_snowflake in E0. bind_ok E0.
  eexists. split; [apply getitem_ok; eassumption | eassumption].
Qed.

Lemma deserialize_channel_guild (rt : Runtime) (payload : obj) (gid : option Z)
    (c : Channels.Channel rt) (z : Z) :
  Channels.deserialize_channel rt payload gid = Ok c -> Channels.channel_guild_id rt c = Some z ->
  exists gc, Channels._set_guild_channel_attributes rt payload gid = Ok gc /\ Channels.gc_guild_id rt gc = z.
Proof.
  intros H Hz. unfold Channels.deserialize_channel in H. bind_ok H.
  destruct a0 as [t|].
  - destruct t; bind_ok H; injection H as <-;
      unfold Channels.deserialize_guild_category, Channels.deserialize_guild_text_channel,
        Channels.deserialize_guild_news_channel, Channels.deserialize_guild_store_channel,
        Channels.deserialize_guild_voice_channel in E1;
      bind_ok E1; try (injection E1 as <-); simpl in Hz; injection Hz as <-; eauto.
  - bind_ok H. destruct a0; bind_ok H; injection H as <-; discriminate Hz.
Qed.

Lemma deserialize_channel_agree (rt : Runtime) (p1 p2 : obj) (g : Z) :
  (forall k, k <> "guild_id"%string -> lookup p1 k = lookup p2 k) ->
  Channels.deserialize_channel rt p1 (Some g) = Channels.deserialize_channel rt p2 (Some g).
Proof.
  intro Hagree.
  unfold Channels.deserialize_channel, Channels.deserialize_guild_category,
    Channels.deserialize_guild_text_channel, Channels.deserialize_guild_news_channel,
    Channels.deserialize_guild_store_channel, Channels.deserialize_guild_voice_channel,
    Channels.deserialize_private_text_channel, Channels.deserialize_private_group_text_channel,
    Channels._set_guild_channel_attributes, Channels._set_partial_channel_attributes,
    Channels.getitem_snowflake, Channels.getitem_int, getitem, get, get_default, contains.
  cbv beta iota zeta.
  repeat match goal with
         | |- context [lookup p1 ?k] => rewrite (Hagree k) by discriminate
         end.
  reflexivity.
Qed.

Lemma type0_text (rt : Runtime) (payload : obj) (gid : option Z) (c : Channels.Channel rt) :
  lookup payload "type" = Some (JInt 0) -> Channels.deserialize_channel rt payload gid = Ok c ->
  exists t, c = Channels.CGuildText rt t /\
    Channels.deserialize_guild_text_channel rt payload gid = Ok t.
Proof.
  intros Ht H. unfold Channels.deserialize_channel in H.
  assert (Hg : getitem payload "type" = Ok (JInt 0)) by (unfold getitem; rewrite Ht; reflexivity).
  rewrite Hg in H. cbn [bind] in H.
  change (Channels.guild_channel_type_mapping_get (JInt 0)) with (Ok (A:=option ChannelType) (Some GUILD_TEXT)) in H.
  cbn [bind] in H. bind_ok H. injection H as <-. eauto.
Qed.

Lemma unknown_type_key_error (rt : Runtime) (payload : obj) (gid : option Z) (n : Z) :
  lookup payload "type" = Some (JInt n) -> ~ In n [0; 1; 2; 3; 4; 5; 6] ->
  Channels.deserialize_channel rt payload gid = Err (KeyError (JInt n)).
Proof.
  intros Ht Hn. unfold Channels.deserialize_channel.
  assert (Hg : getitem payload "type" = Ok (JInt n)) by (unfold getitem; rewrite Ht; reflexivity).
  rewrite Hg. cbn [bind].
  assert (Hne : forall z, In z [0; 1; 2; 3; 4; 5; 6] -> (n =? z) = false)
    by (intros z Hz; apply Z.eqb_neq; intros ->; contradiction).
  unfold Channels.guild_channel_type_mapping_get, Channels.dm_channel_type_mapping_getitem.
  simpl. rewrite !Hne by (simpl; tauto). reflexivity.
Qed.

End ChannelFacts.

Module DictFacts.

Lemma dict_insert_in {V : Type} (d : list (Z * V)) (k : Z) (v : V) : In (k, v) (dict_insert d k v).
Proof.
  induction d as [|[k' v'] rest IH]; simpl; [left; reflexivity|].
  destruct (Z.eqb_spec k' k); [left; reflexivity | right; exact IH].
Qed.

Lemma dict_insert_keep {V : Type} (d : list (Z * V)) (k k' : Z) (v v' : V) :
  k' <> k -> In (k, v) d -> In (k, v) (dict_insert d k' v').
Proof.
  intros Hne. induction d as [|[k0 v0] rest IH]; simpl; [contradiction|].
  intros [Heq | Hin].
  - injection Heq as -> ->. destruct (Z.eqb_spec k k'); [congruence | left; reflexivity].
  - destruct (Z.eqb_spec k0 k'); [right; exact Hin | right; exact (IH Hin)].
Qed.

Lemma fold_insert_keep {V : Type} (l : list (Z * V)) (d : list (Z * V)) (k : Z) (v : V) :
  (forall kv, In kv l -> fst kv <> k) -> In (k, v) d ->
  In (k, v) (fold_left (fun d kv => dict_insert d (fst kv) (snd kv)) l d).
Proof.
  revert d. induction l as [|kv rest IH]; intros d Hl Hd; simpl; [exact Hd|].
  apply IH; [intros kv' H; apply Hl; right; exact H|].
  apply dict_insert_keep; [apply Hl; left; reflexivity | exact Hd].
Qed.

(** The value a dict comprehension keeps is the last one given for its key. *)
Lemma dict_of_pairs_last {V : Type} (l1 l2 : list (Z * V)) (k : Z) (v : V) :
  (forall kv, In kv l2 -> fst kv <> k) -> In (k, v) (dict_of_pairs (l1 ++ (k, v) :: l2)).
Proof.
  intro Hl2. unfold dict_of_pairs. rewrite fold_left_app. simpl.
  apply fold_insert_keep; [exact Hl2 | apply dict_insert_in].
Qed.

Lemma map_result_app {A B : Type} (f : A -> result B) (l1 l2 : list A) (ys : list B) :
  map_result f (l1 ++ l2) = Ok ys ->
  exists ys1 ys2, ys = ys1 ++ ys2 /\ map_result f l1 = Ok ys1 /\ map_result f l2 = Ok ys2.
Proof.
  revert ys. induction l1 as [|a rest IH]; intros ys H; simpl in *.
  - exists [], ys. auto.
  - bind_ok H. injection H as <-.
    destruct (IH _ E0) as (ys1 & ys2 & -> & H1 & H2).
    exists (a0 :: ys1), ys2. split; [reflexivity|]. split; [|exact H2].
    rewrite H1. reflexivity.
Qed.

Lemma map_result_in {A B : Type} (f : A -> result B) (l : list A) (ys : list B) (y : B) :
  map_result f l = Ok ys -> In y ys -> exists x, In x l /\ f x = Ok y.
Proof.
  revert ys. induction l as [|a rest IH]; intros ys H Hy; simpl in H.
  - injection H as <-. contradiction.
  - bind_ok H. injection H as <-. destruct Hy as [<- | Hy].
    + exists a. split; [left; reflexivity | assumption].
    + destruct (IH _ E0 Hy) as (x & Hx & Hfx). exists x. split; [right; exact Hx | exact Hfx].
Qed.

End DictFacts.

Module AuditLogFacts.
Section Facts.
Variable rt : Runtime.
Variable known_event_types : list Z.
Variable known_change_keys : list string.
Variable entry_info : Type.
Variable audit_log_event_mapping : list (Z * (json -> result entry_info)).
Variable converted : Type.
Variable audit_log_entry_converters : list (string * (json -> result converted)).

Lemma event_type_unknown (n : Z) :
  ~ In n known_event_types -> AuditLogs.event_type_of known_event_types (JInt n) = AuditLogs.EventRaw (JInt n).
Proof.
  intro Hn. unfold AuditLogs.event_type_of.
  destruct (find _ known_event_types) as [z|] eqn:F; [|reflexivity].
  apply find_some in F. destruct F as [Hin Heq]. simpl in Heq.
  apply Z.eqb_eq in Heq. subst. contradiction.
Qed.

Lemma event_mapping_get_unknown (n : Z) :
  (forall z f, In (z, f) audit_log_event_mapping -> In z known_event_types) ->
  ~ In n known_event_types ->
  AuditLogs.event_mapping_get entry_info audit_log_event_mapping (AuditLogs.EventRaw (JInt n)) = Ok None.
Proof.
  intros Hkeys Hn. unfold AuditLogs.event_mapping_get.
  destruct (find _ audit_log_event_mapping) as [[z f]|] eqn:F; [|reflexivity].
  apply find_some in F. destruct F as [Hin Heq]. simpl in Heq.
  apply Z.eqb_eq in Heq. subst. exfalso. exact (Hn (Hkeys _ _ Hin)).
Qed.

Lemma change_key_unknown (k : string) :
  ~ In k known_change_keys -> AuditLogs.change_key_of known_change_keys (JStr k) = AuditLogs.KeyRaw (JStr k).
Proof.
  intro Hk. unfold AuditLogs.change_key_of.
  destruct (existsb (String.eqb k) known_change_keys) eqn:F; [|reflexivity].
  apply existsb_exists in F. destruct F as [k' [Hin Heq]].
  apply String.eqb_eq in Heq. subst. contradiction.
Qed.

Lemma entry_converters_get_unknown (k : string) :
  (forall s f, In (s, f) audit_log_entry_converters -> In s known_change_keys) ->
  ~ In k known_change_keys ->
  AuditLogs.entry_converters_get converted audit_log_entry_converters (AuditLogs.KeyRaw (JStr k)) = Ok None.
Proof.
  intros Hkeys Hk. unfold AuditLogs.entry_converters_get.
  destruct (find _ audit_log_entry_converters) as [[s f]|] eqn:F; [|reflexivity].
  apply find_some in F. destruct F as [Hin Heq]. simpl in Heq.
  apply String.eqb_eq in Heq. subst. exfalso. exact (Hk (Hkeys _ _ Hin)).
Qed.

(** The id an entry is stored under is its payload's ["id"]. *)
Lemma deserialize_entry_id (ep : json) (e : AuditLogs.AuditLogEntry entry_info converted) :
  AuditLogs.deserialize_entry rt known_event_types known_change_keys entry_info
    audit_log_event_mapping converted audit_log_entry_converters ep = Ok e ->
  exists o j, ep = JObj o /\ lookup o "id" = Some j /\ snowflake rt j = Ok (AuditLogs.ae_id e).
Proof.
  intro H. unfold AuditLogs.deserialize_entry in H.
  destruct ep as [| | | | | o]; cbn [as_obj bind] in H; try discriminate H.
  destruct (getitem o "id") as [j|] eqn:Eid; cbn [bind] in H; [|discriminate H].
  destruct (snowflake rt j) as [z|] eqn:Ez; cbn [bind] in H; [|discriminate H].
  bind_ok H. injection H as <-.
  exists o, j. split; [reflexivity|]. split; [apply ChannelFacts.getitem_ok; exact Eid | exact Ez].
Qed.

Lemma deserialize_entry_unknown_action (o : obj) (e : AuditLogs.AuditLogEntry entry_info converted)
    (n : Z) (opt : json) :
  (forall z f, In (z, f) audit_log_event_mapping -> In z known_event_types) ->
  AuditLogs.deserialize_entry rt known_event_types known_change_keys entry_info
    audit_log_event_mapping converted audit_log_entry_converters (JObj o) = Ok e ->
  lookup o "action_type" = Some (JInt n) -> ~ In n known_event_types ->
  lookup o "options" = Some opt -> opt <> JNull ->
  AuditLogs.ae_action_type e = AuditLogs.EventRaw (JInt n) /\
  AuditLogs.ae_options e = AuditLogs.OptUnrecognised opt.
Proof.
  intros Hkeys H Ha Hn Ho Hnn.
  unfold AuditLogs.deserialize_entry in H. cbn [as_obj bind] in H.
  assert (Hga : getitem o "action_type" = Ok (JInt n)) by (unfold getitem; rewrite Ha; reflexivity).
  assert (Hgo : get o "options" = opt) by (unfold get; rewrite Ho; reflexivity).
  assert (Hin : is_none opt = false) by (destruct opt; [contradiction | reflexivity ..]).
  rewrite Hga, Hgo in H. cbn [bind] in H.
  rewrite (event_type_unknown n Hn), (event_mapping_get_unknown n Hkeys Hn), Hin in H.
  cbn [bind] in H. bind_ok H. injection H as <-. split; reflexivity.
Qed.

Lemma lookup_drop_key (p : obj) (k k' : string) :
  lookup (drop_key p k) k' = if String.eqb k' k then None else lookup p k'.
Proof.
  unfold drop_key. induction p as [|[k0 v0] p IH]; simpl.
  - destruct (String.eqb k' k); reflexivity.
  - destruct (String.eqb_spec k0 k) as [E0|E0]; simpl.
    + rewrite IH. subst k0. destruct (String.eqb_spec k' k) as [E1|E1]; [reflexivity|].
      destruct (String.eqb_spec k k'); [congruence|reflexivity].
    + destruct (String.eqb_spec k0 k') as [E1|E1].
      * subst k0. destruct (String.eqb_spec k' k); [congruence|reflexivity].
      * exact IH.
Qed.

(** A change of an unknown key decodes, whatever else it holds, with its
    values kept raw. *)
Lemma deserialize_change_unknown (c : obj) (k : string) :
  (forall s f, In (s, f) audit_log_entry_converters -> In s known_change_keys) ->
  lookup c "key" = Some (JStr k) -> ~ In k known_change_keys ->
  AuditLogs.deserialize_change known_change_keys converted audit_log_entry_converters (JObj c) =
  Ok {| AuditLogs.ch_key := AuditLogs.KeyRaw (JStr k);
        AuditLogs.ch_new_value := AuditLogs.VRaw (get c "new_value");
        AuditLogs.ch_old_value := AuditLogs.VRaw (get c "old_value") |}.
Proof.
  intros Hconv Hkey Hk. unfold AuditLogs.deserialize_change. cbn [as_obj bind].
  unfold getitem at 1. rewrite Hkey. cbn [bind].
  rewrite (change_key_unknown k Hk), (entry_converters_get_unknown k Hconv Hk). reflexivity.
Qed.

(** With an unknown action type, an entry decodes exactly when it decodes
    without its ["options"]: the options never make it fail. *)
Lemma deserialize_entry_options_unknown (ep : obj) (n : Z) :
  (forall z f, In (z, f) audit_log_event_mapping -> In z known_event_types) ->
  lookup ep "action_type" = Some (JInt n) -> ~ In n known_event_types ->
  AuditLogs.deserialize_entry rt known_event_types known_change_keys entry_info
    audit_log_event_mapping converted audit_log_entry_converters (JObj ep) =
  (e <- AuditLogs.deserialize_entry rt known_event_types known_change_keys entry_info
          audit_log_event_mapping converted audit_log_entry_converters (JObj (drop_key ep "options")) ;;
   Ok {| AuditLogs.ae_id := AuditLogs.ae_id e; AuditLogs.ae_target_id := AuditLogs.ae_target_id e;
         AuditLogs.ae_changes := AuditLogs.ae_changes e; AuditLogs.ae_user_id := AuditLogs.ae_user_id e;
         AuditLogs.ae_action_type := AuditLogs.ae_action_type e;
         AuditLogs.ae_options := if is_none (get ep "options") then AuditLogs.OptNone
                                 else AuditLogs.OptUnrecognised (get ep "options");
         AuditLogs.ae_reason := AuditLogs.ae_reason e |}).
Proof.
  intros Hkeys Ha Hn. unfold AuditLogs.deserialize_entry. cbn [as_obj bind].
  unfold getitem, get. rewrite !lookup_drop_key. cbn [String.eqb Ascii.eqb Bool.eqb andb].
  destruct (lookup ep "id") as [idj|]; cbn [bind]; [|reflexivity].
  destruct (snowflake rt idj) as [id|]; cbn [bind]; [|reflexivity].
  destruct (lookup ep "target_id") as [tj|]; cbn [bind]; [|reflexivity].
  destruct (AuditLogs.nullable_snowflake rt tj) as [t|]; cbn [bind]; [|reflexivity].
  destruct (if is_none _ then _ else _) as [chs|]; cbn [bind]; [|reflexivity].
  destruct (lookup ep "user_id") as [uj|]; cbn [bind]; [|reflexivity].
  destruct (AuditLogs.nullable_snowflake rt uj) as [u|]; cbn [bind]; [|reflexivity].
  rewrite Ha. cbn [bind is_none].
  rewrite (event_type_unknown n Hn), (event_mapping_get_unknown n Hkeys Hn).
  destruct (is_none _); reflexivity.
Qed.

Lemma deserialize_entry_unknown_action_get (ep : obj) (e : AuditLogs.AuditLogEntry entry_info converted)
    (n : Z) :
  (forall z f, In (z, f) audit_log_event_mapping -> In z known_event_types) ->
  AuditLogs.deserialize_entry rt known_event_types known_change_keys entry_info
    audit_log_event_mapping converted audit_log_entry_converters (JObj ep) = Ok e ->
  lookup ep "action_type" = Some (JInt n) -> ~ In n known_event_types ->
  AuditLogs.ae_action_type e = AuditLogs.EventRaw (JInt n) /\
  AuditLogs.ae_options e = if is_none (get ep "options") then AuditLogs.OptNone
                           else AuditLogs.OptUnrecognised (get ep "options").
Proof.
  intros Hkeys H Ha Hn.
  unfold AuditLogs.deserialize_entry in H. cbn [as_obj bind] in H.
  assert (Hga : getitem ep "action_type" = Ok (JInt n)) by (unfold getitem; rewrite Ha; reflexivity).
  rewrite Hga in H. cbv zeta in H. cbn [bind] in H.
  rewrite (event_type_unknown n Hn), (event_mapping_get_unknown n Hkeys Hn) in H.
  destruct (is_none (get ep "options")); cbn [bind] in H; bind_ok H; injection H as <-;
    split; reflexivity.
Qed.

Lemma deserialize_entry_changes (ep : obj) (e : AuditLogs.AuditLogEntry entry_info converted)
    (cps : list json) :
  AuditLogs.deserialize_entry rt known_event_types known_change_keys entry_info
    audit_log_event_mapping converted audit_log_entry_converters (JObj ep) = Ok e ->
  lookup ep "changes" = Some (JArr cps) ->
  map_result (AuditLogs.deserialize_change known_change_keys converted audit_log_entry_converters) cps
  = Ok (AuditLogs.ae_changes e).
Proof.
  intros H Hc. unfold AuditLogs.deserialize_entry in H. cbn [as_obj bind] in H.
  assert (Hg : get ep "changes" = JArr cps) by (unfold get; rewrite Hc; reflexivity).
  rewrite Hg in H. cbv zeta in H. cbn [is_none as_list bind] in H.
  bind_ok H. injection H as <-. cbn [AuditLogs.ae_changes].
  first [reflexivity | assumption].
Qed.

End Facts.

Lemma map_result_Forall2 {A B : Type} (f : A -> result B) (l : list A) (ys : list B) :
  map_result f l = Ok ys -> Forall2 (fun x y => f x = Ok y) l ys.
Proof.
  revert ys; induction l as [|x rest IH]; intros ys H; simpl in H.
  - injection H as <-. constructor.
  - bind_ok H. injection H as <-. constructor; [assumption | apply IH; assumption].
Qed.

(** An entry payload of a decoded audit log decodes, and the log holds it
    under its id unless a later entry payload has the same id. *)
Lemma audit_log_entry_in
    (rt : Runtime) (known_event_types : list Z) (known_change_keys : list string)
    (entry_info : Type) (audit_log_event_mapping : list (Z * (json -> result entry_info)))
    (converted : Type) (audit_log_entry_converters : list (string * (json -> result converted)))
    (integration webhook : Type) (deserialize_partial_integration : json -> result integration)
    (deserialize_webhook : json -> result webhook)
    (payload : obj) (al : AuditLogs.AuditLog rt entry_info converted integration webhook)
    (pre post : list json) (ep : obj) :
  AuditLogs.deserialize_audit_log rt known_event_types known_change_keys entry_info
    audit_log_event_mapping converted audit_log_entry_converters integration webhook
    deserialize_partial_integration deserialize_webhook payload = Ok al ->
  lookup payload "audit_log_entries" = Some (JArr (pre ++ JObj ep :: post)) ->
  exists e,
    AuditLogs.deserialize_entry rt known_event_types known_change_keys entry_info
      audit_log_event_mapping converted audit_log_entry_converters (JObj ep) = Ok e /\
    ((forall ep' o j, In ep' post -> ep' = JObj o -> lookup o "id" = Some j ->
        snowflake rt j <> Ok (AuditLogs.ae_id e)) ->
     In (AuditLogs.ae_id e, e) (AuditLogs.al_entries al)).
Proof.
  intros H Hentries.
  unfold AuditLogs.deserialize_audit_log in H.
  assert (Hg : getitem payload "audit_log_entries" = Ok (JArr (pre ++ JObj ep :: post)))
    by (unfold getitem; rewrite Hentries; reflexivity).
  rewrite Hg in H. cbn [bind as_list] in H.
  destruct (map_result _ (pre ++ JObj ep :: post)) as [es|err] eqn:Hes;
    cbn [bind] in H; [|discriminate H].
  bind_ok H. injection H as <-. cbn [AuditLogs.al_entries].
  destruct (DictFacts.map_result_app _ _ _ _ Hes) as (es1 & es2 & -> & _ & H2).
  cbn [map_result] in H2.
  destruct (AuditLogs.deserialize_entry _ _ _ _ _ _ _ (JObj ep)) as [e|err] eqn:He;
    cbn [bind] in H2; [|discriminate H2].
  destruct (map_result _ post) as [rest|err] eqn:Hrest; cbn [bind] in H2; [|discriminate H2].
  injection H2 as <-.
  exists e. split; [reflexivity|].
  intro Hpost. rewrite map_app. cbn [map fst snd].
  apply DictFacts.dict_of_pairs_last.
  intros kv Hkv. apply in_map_iff in Hkv. destruct Hkv as (e' & <- & He').
  destruct (DictFacts.map_result_in _ _ _ _ Hrest He') as (ep' & Hep & Hdec).
  destruct (deserialize_entry_id rt known_event_types known_change_keys entry_info
              audit_log_event_mapping converted audit_log_entry_converters ep' e' Hdec)
    as (o & j & -> & Hj & Hs).
  cbn [fst]. intro Heq. rewrite Heq in Hs. exact (Hpost _ o j Hep eq_refl Hj Hs).
Qed.

End AuditLogFacts.

Module EmbedFacts.

Lemma lookup_snoc_other (p : obj) (k' k : string) (v : json) :
  k' <> k -> lookup (p ++ [(k', v)]) k = lookup p k.
Proof.
  intro Hne. induction p as [|[k0 v0] p IH]; cbn.
  - destruct (String.eqb_spec k' k); [contradiction | reflexivity].
  - destruct (String.eqb k0 k); [reflexivity | exact IH].
Qed.

Lemma lookup_snoc_same (p : obj) (k : string) (v : json) :
  lookup p k = None -> lookup (p ++ [(k, v)]) k = Some v.
Proof.
  induction p as [|[k0 v0] p IH]; cbn; intro H.
  - rewrite String.eqb_refl. reflexivity.
  - destruct (String.eqb k0 k); [discriminate H | exact (IH H)].
Qed.

Lemma set_if_not_none_other (p : obj) (k' k : string) (j : json) :
  k' <> k -> lookup (Embeds.set_if_not_none p k' j) k = lookup p k.
Proof.
  intro Hne. unfold Embeds.set_if_not_none. destruct (is_none j); [reflexivity|].
  apply lookup_snoc_other; exact Hne.
Qed.

Lemma set_if_not_none_same (p : obj) (k : string) (j : json) :
  lookup p k = None ->
  lookup (Embeds.set_if_not_none p k j) k = if is_none j then None else Some j.
Proof.
  intro H. unfold Embeds.set_if_not_none. destruct (is_none j); [exact H|].
  apply lookup_snoc_same; exact H.
Qed.

Ltac neq_str := let H := fresh in intro H; discriminate H.

Lemma base_title rt e :
  lookup (embed_base_payload rt e) "title" =
  if is_none (Embeds.e_title rt e) then None else Some (Embeds.e_title rt e).
Proof.
  unfold embed_base_payload; cbv zeta.
  destruct (Embeds.e_color rt e); [rewrite lookup_snoc_other by neq_str|];
  (destruct (Embeds.e_timestamp rt e); [rewrite lookup_snoc_other by neq_str|]);
  rewrite !set_if_not_none_other by neq_str; apply set_if_not_none_same; reflexivity.
Qed.

Lemma base_description rt e :
  lookup (embed_base_payload rt e) "description" =
  if is_none (Embeds.e_description rt e) then None else Some (Embeds.e_description rt e).
Proof.
  unfold embed_base_payload; cbv zeta.
  destruct (Embeds.e_color rt e); [rewrite lookup_snoc_other by neq_str|];
  (destruct (Embeds.e_timestamp rt e); [rewrite lookup_snoc_other by neq_str|]);
  rewrite set_if_not_none_other by neq_str; apply set_if_not_none_same;
  rewrite set_if_not_none_other by neq_str; reflexivity.
Qed.

Lemma base_url rt e :
  lookup (embed_base_payload rt e) "url" =
  if is_none (Embeds.e_url rt e) then None else Some (Embeds.e_url rt e).
Proof.
  unfold embed_base_payload; cbv zeta.
  destruct (Embeds.e_color rt e); [rewrite lookup_snoc_other by neq_str|];
  (destruct (Embeds.e_timestamp rt e); [rewrite lookup_snoc_other by neq_str|]);
  apply set_if_not_none_same; rewrite !set_if_not_none_other by neq_str; reflexivity.
Qed.

Lemma base_timestamp rt e :
  lookup (embed_base_payload rt e) "timestamp" =
  option_map (fun t => JStr (rt_isoformat rt t)) (Embeds.e_timestamp rt e).
Proof.
  unfold embed_base_payload; cbv zeta.
  destruct (Embeds.e_color rt e); [rewrite lookup_snoc_other by neq_str|];
  (destruct (Embeds.e_timestamp rt e); cbn [option_map];
   [apply lookup_snoc_same|]); rewrite !set_if_not_none_other by neq_str; reflexivity.
Qed.

Lemma base_color rt e :
  lookup (embed_base_payload rt e) "color" = option_map JInt (Embeds.e_color rt e).
Proof.
  unfold embed_base_payload; cbv zeta.
  destruct (Embeds.e_color rt e); cbn [option_map]; [apply lookup_snoc_same|];
  (destruct (Embeds.e_timestamp rt e); [rewrite lookup_snoc_other by neq_str|]);
  rewrite !set_if_not_none_other by neq_str; reflexivity.
Qed.

Lemma base_other rt e k :
  ~ In k ["title"; "description"; "url"; "timestamp"; "color"]%string ->
  lookup (embed_base_payload rt e) k = None.
Proof.
  intro Hk.
  assert (Hne : forall k', In k' ["title"; "description"; "url"; "timestamp"; "color"]%string -> k' <> k)
    by (intros k' Hin Heq; subst; contradiction).
  unfold embed_base_payload; cbv zeta.
  destruct (Embeds.e_color rt e);
  [rewrite lookup_snoc_other by (apply Hne; simpl; tauto)|];
  (destruct (Embeds.e_timestamp rt e);
   [rewrite lookup_snoc_other by (apply Hne; simpl; tauto)|]);
  rewrite !set_if_not_none_other by (apply Hne; simpl; tauto); reflexivity.
Qed.

Lemma strip_empty_Forall (s : string) :
  strip_empty s = true <-> Forall (fun c => is_py_space c = true) (list_ascii_of_string s).
Proof.
  unfold strip_empty. rewrite forallb_forall, Forall_forall. tauto.
Qed.

Lemma check_field_text_ok rt i what j s :
  Embeds.check_field_text rt i what j = Ok s -> ~ blank_text rt j /\ s = py_str rt j.
Proof.
  unfold Embeds.check_field_text. cbv zeta.
  destruct (is_none j) eqn:Hn; [discriminate|].
  destruct (str_empty (py_str rt j)) eqn:He; [discriminate|].
  destruct (strip_empty (py_str rt j)) eqn:Hw; [discriminate|].
  intro H. injection H as <-. split; [|reflexivity].
  intros [Hb | [Hb | Hb]].
  - subst j. discriminate Hn.
  - unfold str_empty in He. rewrite Hb in He. discriminate He.
  - apply strip_empty_Forall in Hb. congruence.
Qed.

Lemma check_field_text_err rt i what j err :
  Embeds.check_field_text rt i what j = Err err ->
  blank_text rt j /\ exists msg, err = Embeds.field_error i what msg.
Proof.
  unfold Embeds.check_field_text. cbv zeta.
  destruct (is_none j) eqn:Hn.
  - intro H. injection H as <-. split; [|eexists; reflexivity].
    left. destruct j; try discriminate Hn. reflexivity.
  - destruct (str_empty (py_str rt j)) eqn:He.
    + intro H. injection H as <-. split; [|eexists; reflexivity].
      right; left. apply String.eqb_eq. exact He.
    + destruct (strip_empty (py_str rt j)) eqn:Hw; [|discriminate].
      intro H. injection H as <-. split; [|eexists; reflexivity].
      right; right. apply strip_empty_Forall. exact Hw.
Qed.

Lemma check_field_text_not_blank rt i what j :
  ~ blank_text rt j -> Embeds.check_field_text rt i what j = Ok (py_str rt j).
Proof.
  intro Hb. destruct (Embeds.check_field_text rt i what j) as [s|err] eqn:E.
  - apply check_field_text_ok in E. destruct E as [_ ->]. reflexivity.
  - apply check_field_text_err in E. tauto.
Qed.

Lemma check_field_text_blank rt i what j :
  blank_text rt j -> exists err, Embeds.check_field_text rt i what j = Err err.
Proof.
  intro Hb. destruct (Embeds.check_field_text rt i what j) as [s|err] eqn:E.
  - apply check_field_text_ok in E. tauto.
  - exists err. reflexivity.
Qed.

(** The loop raises at the first field with a blank name or value. *)
Lemma serialize_fields_err rt fs :
  forall i err, Embeds.serialize_fields rt i fs = Err err ->
  exists n f what msg,
    nth_error fs n = Some f /\
    ((what = "name"%string /\ blank_text rt (Embeds.f_name f)) \/
     (what = "value"%string /\ ~ blank_text rt (Embeds.f_name f) /\
      blank_text rt (Embeds.f_value f))) /\
    (forall m g, (m < n)%nat -> nth_error fs m = Some g ->
       ~ blank_text rt (Embeds.f_name g) /\ ~ blank_text rt (Embeds.f_value g)) /\
    err = Embeds.field_error (i + Z.of_nat n) what msg.
Proof.
  induction fs as [|f fs IH]; intros i err H; cbn [Embeds.serialize_fields] in H.
  - discriminate H.
  - destruct (Embeds.check_field_text rt i "name" (Embeds.f_name f)) as [nm|e1] eqn:En;
      cbn [bind] in H.
    + destruct (Embeds.check_field_text rt i "value" (Embeds.f_value f)) as [vl|e2] eqn:Ev;
        cbn [bind] in H.
      * destruct (Embeds.serialize_fields rt (i + 1) fs) as [fps|e3] eqn:Er;
          cbn [bind] in H; [discriminate H|].
        injection H as <-.
        destruct (IH _ _ Er) as (n & g & what & msg & Hg & Hw & Hbefore & ->).
        apply check_field_text_ok in En. apply check_field_text_ok in Ev.
        exists (S n), g, what, msg. split; [exact Hg|]. split; [exact Hw|]. split.
        -- intros [|m] g' Hm Hg'; cbn in Hg'.
           ++ injection Hg' as <-. tauto.
           ++ apply (Hbefore m); [lia | exact Hg'].
        -- f_equal. lia.
      * injection H as <-. apply check_field_text_ok in En.
        apply check_field_text_err in Ev. destruct Ev as [Hb [msg ->]].
        exists O, f, "value"%string, msg. split; [reflexivity|]. split; [tauto|]. split.
        -- intros m g Hm. lia.
        -- f_equal. lia.
    + injection H as <-. apply check_field_text_err in En. destruct En as [Hb [msg ->]].
      exists O, f, "name"%string, msg. split; [reflexivity|]. split; [tauto|]. split.
      * intros m g Hm. lia.
      * f_equal. lia.
Qed.

(** A blank name or value anywhere makes the loop raise. *)
Lemma serialize_fields_blank rt fs :
  forall i f, In f fs ->
  blank_text rt (Embeds.f_name f) \/ blank_text rt (Embeds.f_value f) ->
  exists err, Embeds.serialize_fields rt i fs = Err err.
Proof.
  induction fs as [|f0 fs IH]; intros i f Hin Hb; [destruct Hin|].
  cbn [Embeds.serialize_fields].
  destruct (Embeds.check_field_text rt i "name" (Embeds.f_name f0)) as [nm|e1] eqn:En;
    cbn [bind]; [|eexists; reflexivity].
  destruct (Embeds.check_field_text rt i "value" (Embeds.f_value f0)) as [vl|e2] eqn:Ev;
    cbn [bind]; [|eexists; reflexivity].
  destruct Hin as [<- | Hin].
  - apply check_field_text_ok in En. apply check_field_text_ok in Ev. tauto.
  - destruct (IH (i + 1) f Hin Hb) as [err ->]. cbn [bind]. eexists; reflexivity.
Qed.

Ltac not_in_str :=
  let H := fresh in
  cbn; intro H; repeat (destruct H as [H|H]; [discriminate H|]); exact H.

(** One goal for each shape of the footer, image, thumbnail and author. *)
Ltac embed_cases e :=
  unfold Embeds.serialize_embed in *; cbv zeta in *;
  let f := fresh "footer" in
  let a := fresh "author" in
  destruct (Embeds.e_footer _ e) as [f|]; cbv beta iota in *;
  [destruct (Embeds.ft_icon _ f); cbv beta iota in * | ];
  destruct (Embeds.e_image _ e); cbv beta iota in *;
  destruct (Embeds.e_thumbnail _ e); cbv beta iota in *;
  (destruct (Embeds.e_author _ e) as [a|]; cbv beta iota in *;
   [destruct (Embeds.au_icon _ a); cbv beta iota in * | ]).

Lemma serialize_embed_err rt e err :
  Embeds.serialize_embed rt e = Err err ->
  exists fs, Embeds.e_fields rt e = Some fs /\ Embeds.serialize_fields rt 0 fs = Err err.
Proof.
  intro H. embed_cases e;
  (destruct (Embeds.e_fields rt e) as [[|f fs]|]; try discriminate H;
   destruct (Embeds.serialize_fields rt 0 (f :: fs)) as [fps|err'] eqn:Hs;
   cbn [bind] in H; [discriminate H|];
   injection H as <-; exists (f :: fs); split; [reflexivity | exact Hs]).
Qed.

Lemma serialize_embed_fields_err rt e fs err :
  Embeds.e_fields rt e = Some fs -> Embeds.serialize_fields rt 0 fs = Err err ->
  Embeds.serialize_embed rt e = Err err.
Proof.
  intros Hf Hs. embed_cases e;
  (rewrite Hf; destruct fs as [|f fs]; [discriminate Hs|]; rewrite Hs; reflexivity).
Qed.

Lemma serialize_embed_lookup rt e out ups k :
  Embeds.serialize_embed rt e = Ok (out, ups) ->
  ~ In k ["footer"; "image"; "thumbnail"; "author"; "fields"]%string ->
  lookup out k = lookup (embed_base_payload rt e) k.
Proof.
  intros H Hk. embed_cases e;
  (destruct (Embeds.e_fields rt e) as [[|f fs]|];
   [ | destruct (Embeds.serialize_fields rt 0 (f :: fs)) as [fps|err'];
       cbn [bind] in H; [|discriminate H] | ];
   injection H as <- _;
   repeat rewrite lookup_snoc_other
     by (let Heq := fresh in intro Heq; apply Hk; rewrite <- Heq; cbn; tauto);
   reflexivity).
Qed.

Lemma serialize_embed_fields rt e out ups fs :
  Embeds.serialize_embed rt e = Ok (out, ups) -> Embeds.e_fields rt e = Some fs -> fs <> [] ->
  exists fps, Embeds.serialize_fields rt 0 fs = Ok fps /\ lookup out "fields" = Some (JArr fps).
Proof.
  intros H Hf Hne.
  assert (Hb := base_other rt e "fields" ltac:(not_in_str)).
  embed_cases e;
  (rewrite Hf in H; destruct fs as [|f fs]; [congruence|];
   destruct (Embeds.serialize_fields rt 0 (f :: fs)) as [fps|err'];
   cbn [bind] in H; [|discriminate H];
   injection H as <- _; exists fps; split; [reflexivity|];
   apply lookup_snoc_same; repeat rewrite lookup_snoc_other by neq_str; exact Hb).
Qed.

Lemma serialize_embed_no_fields rt e out ups :
  Embeds.serialize_embed rt e = Ok (out, ups) ->
  Embeds.e_fields rt e = None \/ Embeds.e_fields rt e = Some [] ->
  lookup out "fields" = None.
Proof.
  intros H Hf.
  assert (Hb := base_other rt e "fields" ltac:(not_in_str)).
  embed_cases e;
  (destruct Hf as [Hf|Hf]; rewrite Hf in H; injection H as <- _;
   repeat rewrite lookup_snoc_other by neq_str; exact Hb).
Qed.

Lemma deserialize_embed_parts rt p e :
  Embeds.deserialize_embed rt p = Ok e ->
  Embeds.e_title rt e = get p "title" /\ Embeds.e_description rt e = get p "description" /\
  Embeds.e_url rt e = get p "url" /\
  (if contains p "color"
   then c <- getitem p "color" ;; c <- rt_color_of rt c ;; Ok (Some c)
   else Ok None) = Ok (Embeds.e_color rt e) /\
  (if contains p "timestamp"
   then t <- getitem p "timestamp" ;; t <- rt_iso8601 rt t ;; Ok (Some t)
   else Ok None) = Ok (Embeds.e_timestamp rt e) /\
  (if Embeds.truthy (get p "fields")
   then l <- as_list (get p "fields") ;; fs <- map_result (Embeds.deserialize_field) l ;; Ok (Some fs)
   else Ok None) = Ok (Embeds.e_fields rt e).
Proof.
  intro H. unfold Embeds.deserialize_embed in H. cbv zeta in H. bind_ok H.
  injection H as <-. cbn [Embeds.e_title Embeds.e_description Embeds.e_url Embeds.e_color
    Embeds.e_timestamp Embeds.e_fields].
  repeat split; assumption.
Qed.

Lemma deserialize_embed_color rt p e :
  Embeds.deserialize_embed rt p = Ok e ->
  (lookup p "color" = None -> Embeds.e_color rt e = None) /\
  (forall z, lookup p "color" = Some (JInt z) -> Embeds.e_color rt e = Some z).
Proof.
  intro H. apply deserialize_embed_parts in H. destruct H as (_ & _ & _ & Hc & _).
  unfold contains, getitem in Hc. split.
  - intro Hl. rewrite Hl in Hc. injection Hc as <-. reflexivity.
  - intros z Hl. rewrite Hl in Hc. cbn [bind] in Hc.
    destruct (rt_color_of rt (JInt z)) as [c|err] eqn:Ec; cbn [bind] in Hc; [|discriminate Hc].
    injection Hc as <-. apply rt_color_of_int in Ec. subst c. reflexivity.
Qed.

Lemma deserialize_embed_timestamp rt p e :
  Embeds.deserialize_embed rt p = Ok e ->
  (lookup p "timestamp" = None -> Embeds.e_timestamp rt e = None) /\
  (forall t, lookup p "timestamp" = Some t ->
     exists d, rt_iso8601 rt t = Ok d /\ Embeds.e_timestamp rt e = Some d).
Proof.
  intro H. apply deserialize_embed_parts in H. destruct H as (_ & _ & _ & _ & Ht & _).
  unfold contains, getitem in Ht. split.
  - intro Hl. rewrite Hl in Ht. injection Ht as <-. reflexivity.
  - intros t Hl. rewrite Hl in Ht. cbn [bind] in Ht.
    destruct (rt_iso8601 rt t) as [d|err] eqn:Ed; cbn [bind] in Ht; [|discriminate Ht].
    injection Ht as <-. exists d. split; reflexivity.
Qed.

Lemma deserialize_embed_fields rt p e :
  Embeds.deserialize_embed rt p = Ok e ->
  (lookup p "fields" = None -> Embeds.e_fields rt e = None) /\
  (forall fl, lookup p "fields" = Some (JArr fl) -> fl <> [] ->
     exists fs, map_result (Embeds.deserialize_field) fl = Ok fs /\
                Embeds.e_fields rt e = Some fs).
Proof.
  intro H. apply deserialize_embed_parts in H. destruct H as (_ & _ & _ & _ & _ & Hf).
  unfold get in Hf. split.
  - intro Hl. rewrite Hl in Hf. injection Hf as <-. reflexivity.
  - intros fl Hl Hne. rewrite Hl in Hf. destruct fl as [|fp fl]; [congruence|].
    cbn [Embeds.truthy as_list bind] in Hf.
    destruct (map_result (Embeds.deserialize_field) (fp :: fl)) as [fs|err] eqn:Em;
      cbn [bind] in Hf; [|discriminate Hf].
    injection Hf as <-. exists fs. split; reflexivity.
Qed.

Lemma py_str_JStr rt s : py_str rt (JStr s) = s.
Proof. reflexivity. Qed.

(** Well-formed field payloads come back as they were, with [inline]
    defaulting to [False]. *)
Lemma fields_roundtrip rt fl :
  Forall (good_field_payload rt) fl ->
  forall fs, map_result (Embeds.deserialize_field) fl = Ok fs ->
  forall i, Embeds.serialize_fields rt i fs = Ok (map field_roundtrip fl).
Proof.
  induction 1 as [|fp fl Hg Hall IH]; intros fs Hm i.
  - injection Hm as <-. reflexivity.
  - destruct Hg as (o & n & v & -> & Hn & Hv & Hbn & Hbv).
    cbn [map_result] in Hm. unfold Embeds.deserialize_field at 1 in Hm.
    cbn [as_obj bind] in Hm. unfold getitem in Hm. rewrite Hn, Hv in Hm. cbn [bind] in Hm.
    destruct (map_result (Embeds.deserialize_field) fl) as [fs'|err] eqn:Em;
      cbn [bind] in Hm; [|discriminate Hm].
    injection Hm as <-. cbn [Embeds.serialize_fields Embeds.f_name Embeds.f_value Embeds.f_is_inline].
    rewrite (check_field_text_not_blank rt i "name" (JStr n) Hbn).
    rewrite (check_field_text_not_blank rt i "value" (JStr v) Hbv).
    cbn [bind]. rewrite (IH fs' eq_refl (i + 1)). cbn [bind map field_roundtrip].
    unfold get. rewrite Hn, Hv, !py_str_JStr. reflexivity.
Qed.

Lemma map_result_nil {A B : Type} (f : A -> result B) l :
  map_result f l = Ok [] -> l = [].
Proof.
  destruct l as [|a l]; [reflexivity|]. cbn [map_result].
  destruct (f a); cbn [bind]; [|discriminate].
  destruct (map_result f l); cbn [bind]; discriminate.
Qed.

Lemma deserialize_embed_fields_some rt p e fs :
  Embeds.deserialize_embed rt p = Ok e -> Embeds.e_fields rt e = Some fs ->
  exists fl, lookup p "fields" = Some (JArr fl) /\
             map_result Embeds.deserialize_field fl = Ok fs.
Proof.
  intros H Hfs. apply deserialize_embed_parts in H. destruct H as (_ & _ & _ & _ & _ & Hf).
  rewrite Hfs in Hf. unfold get in Hf.
  destruct (lookup p "fields") as [j|]; [|discriminate Hf].
  destruct (Embeds.truthy j); [|discriminate Hf].
  destruct j as [| | | |l|]; cbn [as_list bind] in Hf; try discriminate Hf.
  destruct (map_result Embeds.deserialize_field l) as [fs'|err] eqn:Em;
    cbn [bind] in Hf; [|discriminate Hf].
  injection Hf as <-. exists l. split; [reflexivity | exact Em].
Qed.

Lemma map_result_plain_fields (l : list (json * json)) :
  map_result Embeds.deserialize_field
    (map (fun nv => JObj [("name"%string, fst nv); ("value"%string, snd nv)]) l) =
  Ok (map (fun nv => {| Embeds.f_name := fst nv; Embeds.f_value := snd nv;
                        Embeds.f_is_inline := JBool false |}) l).
Proof.
  induction l as [|nv l IH]; [reflexivity|].
  cbn [map map_result]. rewrite IH. reflexivity.
Qed.

(** [deserialize_embed] takes any name and value, blank or not. *)
Lemma deserialize_embed_fields_only rt (l : list (json * json)) :
  l <> [] ->
  exists e, Embeds.deserialize_embed rt
              [("fields"%string, JArr (map (fun nv => JObj [("name"%string, fst nv);
                                                             ("value"%string, snd nv)]) l))] = Ok e /\
    Embeds.e_fields rt e =
      Some (map (fun nv => {| Embeds.f_name := fst nv; Embeds.f_value := snd nv;
                              Embeds.f_is_inline := JBool false |}) l).
Proof.
  intro Hne. destruct l as [|nv l]; [congruence|].
  pose proof (map_result_plain_fields (nv :: l)) as Hm.
  unfold Embeds.deserialize_embed. cbv zeta.
  cbn -[map_result map].
  cbn [map] in Hm |- *. rewrite Hm. cbn [bind].
  eexists; split; reflexivity.
Qed.

Lemma nullable_roundtrip (j : json) (lp : option json) :
  j = match lp with Some v => v | None => JNull end -> lp <> Some JNull ->
  (if is_none j then None else Some j) = lp.
Proof.
  intros -> H. destruct lp as [v|]; [|reflexivity].
  destruct v; cbn; congruence.
Qed.

End EmbedFacts.

(** C3: values of [0, 2^64) inserted into an empty SnowflakeSet by any
    sequence of [add] and [add_all] calls, in any order and with repetitions,
    are all stored, and iteration then yields each of them exactly once, in
    strictly ascending order. *)
Theorem snowflake_set_iter_sorted (ops : list SnowflakeSet.op) :
  Forall (fun v => 0 <= v < 2 ^ 64) (concat (map SnowflakeSet.op_values ops)) ->
  exists ids, SnowflakeSet.run [] ops = Some ids /\
    StronglySorted Z.lt (SnowflakeSet.iter ids) /\
    (forall v, In v (SnowflakeSet.iter ids) <->
               In v (concat (map SnowflakeSet.op_values ops))).
Proof.
  intros Hv.
  assert (H0 : SnowflakeSetFacts.ids_inv []) by (split; constructor).
  assert (Hv' : Forall (fun v => SnowflakeSet.in_u64 v = true)
                  (concat (map SnowflakeSet.op_values ops))).
  { eapply Forall_impl; [|exact Hv]. intros v [Hlo Hhi]. unfold SnowflakeSet.in_u64.
    apply andb_true_intro. split; [apply Z.leb_le|apply Z.ltb_lt]; assumption. }
  destruct (SnowflakeSetFacts.run_spec [] ops H0 Hv') as (ids & Hr & [Hs _] & Hin).
  exists ids. split; [exact Hr|split; [exact Hs|]].
  intros v. unfold SnowflakeSet.iter. rewrite Hin. simpl. intuition.
Qed.

(** Witness of C3 at two calls on an empty set. *)
Lemma snowflake_set_iter_sorted_witness :
  Forall (fun v => 0 <= v < 2 ^ 64)
    (concat (map SnowflakeSet.op_values [SnowflakeSet.Add 5; SnowflakeSet.AddAll [3; 9; 5]])) /\
  exists ids, SnowflakeSet.run [] [SnowflakeSet.Add 5; SnowflakeSet.AddAll [3; 9; 5]] = Some ids /\
    StronglySorted Z.lt (SnowflakeSet.iter ids) /\
    (forall v, In v (SnowflakeSet.iter ids) <->
               In v (concat (map SnowflakeSet.op_values
                               [SnowflakeSet.Add 5; SnowflakeSet.AddAll [3; 9; 5]]))).
Proof.
  assert (H : Forall (fun v => 0 <= v < 2 ^ 64)
    (concat (map SnowflakeSet.op_values [SnowflakeSet.Add 5; SnowflakeSet.AddAll [3; 9; 5]])))
    by (simpl; repeat constructor; lia).
  split; [exact H|]. apply (snowflake_set_iter_sorted _ H).
Defined.

(** C2: from an empty LimitedCapacityCacheMap with limit [L], any sequence of
    [m[k] = v] and [del m[k]] statements leaves in [_data] exactly the entries
    of the documented model, in which an update keeps a key's insertion time
    and each overflow evicts the entry inserted earliest; the calls of
    [on_expire] (when it is set) correspond one to one and in order to those
    evictions, each receiving the evicted value after its key has left
    [_data]; without a callback none is made. The map never exceeds [L], and
    a sequence of insertions of more than [L] distinct keys ends at size
    exactly [L]. *)
Theorem cache_map_eviction {K V : Type} (K_eq_dec : forall a b : K, {a = b} + {a <> b})
    (L : nat) (cb : bool) (ops : list (LimitedCapacityCacheMap.op (K:=K) (V:=V))) :
  match LimitedCapacityCacheMap.run K_eq_dec (LimitedCapacityCacheMap.mk_state [] L cb []) ops,
        CacheMapSpec.spec_run K_eq_dec L 0 [] [] ops with
  | Some st, Some (es, evs) =>
      LimitedCapacityCacheMap.data st = map CacheMapFacts.proj es /\
      (length (LimitedCapacityCacheMap.data st) <= L)%nat /\
      (if cb then
         Forall2 (fun kv ex => snd kv = fst ex /\ ~ In (fst kv) (LimitedCapacityCacheMap.keys (snd ex)))
           evs (LimitedCapacityCacheMap.expired st)
       else LimitedCapacityCacheMap.expired st = [])
  | None, None => True
  | _, _ => False
  end /\
  (forall kvs : list (K * V), (L < length (nodup K_eq_dec (map fst kvs)))%nat ->
     exists st,
       LimitedCapacityCacheMap.run K_eq_dec (LimitedCapacityCacheMap.mk_state [] L cb [])
         (map (fun kv => LimitedCapacityCacheMap.Set_ (fst kv) (snd kv)) kvs) = Some st /\
       length (LimitedCapacityCacheMap.data st) = L).
Proof.
  split.
  - pose proof (CacheMapFacts.run_refines K_eq_dec ops
                  (LimitedCapacityCacheMap.mk_state [] L cb []) 0 [] []) as H.
    simpl in H.
    specialize (H ltac:(repeat split; simpl; try constructor; lia)
                  ltac:(unfold CacheMapFacts.log_rel; destruct cb; [constructor|reflexivity])).
    destruct (LimitedCapacityCacheMap.run _ _ _) as [st|], (CacheMapSpec.spec_run _ _ _ _ _ _) as [[es evs]|];
      try contradiction; [|exact I].
    destruct H as [(t' & Hd & _ & _ & _ & Hlen) Hlog].
    split; [exact Hd|split; [rewrite Hd, length_map; exact Hlen|exact Hlog]].
  - intros kvs Hgt.
    destruct (CacheMapFacts.size_run K_eq_dec kvs (LimitedCapacityCacheMap.mk_state [] L cb []) [])
      as (st & Hrun & _ & Hn & Hle & Hor).
    { repeat split; simpl; try constructor; lia. }
    exists st. split; [exact Hrun|]. destruct Hor as [Hor|Hor]; [exact Hor|exfalso].
    simpl in Hor.
    assert (Hincl1 : incl (nodup K_eq_dec (map fst kvs)) (LimitedCapacityCacheMap.keys (LimitedCapacityCacheMap.data st))).
    { intros x Hx. apply Hor. apply nodup_In in Hx. exact Hx. }
    pose proof (NoDup_incl_length (NoDup_nodup K_eq_dec (map fst kvs)) Hincl1) as Hlen.
    unfold LimitedCapacityCacheMap.keys in Hlen. rewrite length_map in Hlen. simpl in Hle. lia.
Qed.

(** Witness of C2 at limit 1, with a callback and three distinct keys. *)
Lemma cache_map_eviction_witness :
  (1 < length (nodup Nat.eq_dec (map fst [(1%nat, 10%Z); (2%nat, 20%Z); (1%nat, 11%Z); (3%nat, 30%Z)])))%nat /\
  exists st,
    LimitedCapacityCacheMap.run Nat.eq_dec (LimitedCapacityCacheMap.mk_state [] 1 true [])
      (map (fun kv => LimitedCapacityCacheMap.Set_ (fst kv) (snd kv))
         [(1%nat, 10%Z); (2%nat, 20%Z); (1%nat, 11%Z); (3%nat, 30%Z)]) = Some st /\
    length (LimitedCapacityCacheMap.data st) = 1%nat.
Proof.
  assert (H : (1 < length (nodup Nat.eq_dec (map fst [(1%nat, 10%Z); (2%nat, 20%Z); (1%nat, 11%Z); (3%nat, 30%Z)])))%nat)
    by (simpl; lia).
  split; [exact H|].
  exact (proj2 (cache_map_eviction (V:=Z) Nat.eq_dec 1 true []) _ H).
Defined.

(** C10: [clear()] empties the map and [del m[k]] removes the key, and
    neither makes any call of [on_expire]. *)
Theorem cache_map_clear_delete_no_expire {K V : Type}
    (K_eq_dec : forall a b : K, {a = b} + {a <> b})
    (st : LimitedCapacityCacheMap.state (K:=K) (V:=V)) :
  LimitedCapacityCacheMap.data (LimitedCapacityCacheMap.clear st) = [] /\
  LimitedCapacityCacheMap.expired (LimitedCapacityCacheMap.clear st) = LimitedCapacityCacheMap.expired st /\
  (forall k st', LimitedCapacityCacheMap.delitem K_eq_dec st k = Some st' ->
     ~ In k (LimitedCapacityCacheMap.keys (LimitedCapacityCacheMap.data st')) /\
     LimitedCapacityCacheMap.expired st' = LimitedCapacityCacheMap.expired st).
Proof.
  split; [reflexivity|split; [reflexivity|]].
  intros k st' H. unfold LimitedCapacityCacheMap.delitem, LimitedCapacityCacheMap.dict_del in H.
  destruct (LimitedCapacityCacheMap.mem K_eq_dec k (LimitedCapacityCacheMap.data st)); [|discriminate].
  inversion H; subst; clear H. simpl. split; [|reflexivity].
  unfold LimitedCapacityCacheMap.keys. rewrite in_map_iff.
  intros (kv & Hk & Hin). apply filter_In in Hin as [_ Hp].
  destruct (K_eq_dec (fst kv) k); [discriminate|contradiction].
Qed.

(** Witness of C10 on a map holding keys 1 and 2, deleting key 1. *)
Lemma cache_map_clear_delete_no_expire_witness :
  LimitedCapacityCacheMap.delitem Nat.eq_dec
    (LimitedCapacityCacheMap.mk_state [(1%nat, 10); (2%nat, 20)] 5 true []) 1%nat =
    Some (LimitedCapacityCacheMap.mk_state [(2%nat, 20)] 5 true []) /\
  ~ In 1%nat (LimitedCapacityCacheMap.keys [(2%nat, 20)]) /\
  LimitedCapacityCacheMap.expired (V:=Z) (LimitedCapacityCacheMap.mk_state [(2%nat, 20)] 5 true []) =
    LimitedCapacityCacheMap.expired (LimitedCapacityCacheMap.mk_state [(1%nat, 10); (2%nat, 20)] 5 true []).
Proof.
  assert (H : LimitedCapacityCacheMap.delitem Nat.eq_dec
    (LimitedCapacityCacheMap.mk_state [(1%nat, 10); (2%nat, 20)] 5 true []) 1%nat =
    Some (LimitedCapacityCacheMap.mk_state [(2%nat, 20)] 5 true [])) by reflexivity.
  split; [exact H|].
  exact (proj2 (proj2 (cache_map_clear_delete_no_expire Nat.eq_dec _)) _ _ H).
Defined.

(** C9: with the [guild_id] argument given, a guild channel that
    [deserialize_channel] returns has that [guild_id], and the payload's own
    ["guild_id"] is never read; with it omitted, the channel's [guild_id] is
    [Snowflake(payload["guild_id"])], so a payload without that key yields no
    guild channel; a ["type"] of 0 with a ["guild_id"] gives a text channel
    holding that id. *)
Theorem channel_guild_id_param_or_payload (rt : Runtime) :
  (forall payload g c z, Channels.deserialize_channel rt payload (Some g) = Ok c ->
     Channels.channel_guild_id rt c = Some z -> z = g) /\
  (forall p1 p2 g, (forall k, k <> "guild_id"%string -> lookup p1 k = lookup p2 k) ->
     Channels.deserialize_channel rt p1 (Some g) = Channels.deserialize_channel rt p2 (Some g)) /\
  (forall payload c z, Channels.deserialize_channel rt payload None = Ok c ->
     Channels.channel_guild_id rt c = Some z ->
     exists v, lookup payload "guild_id" = Some v /\ snowflake rt v = Ok z) /\
  (forall payload, lookup payload "type" = Some (JInt 0) -> lookup payload "guild_id" = None ->
     forall c, Channels.deserialize_channel rt payload None <> Ok c) /\
  (forall payload v c, lookup payload "type" = Some (JInt 0) -> lookup payload "guild_id" = Some v ->
     Channels.deserialize_channel rt payload None = Ok c ->
     exists t, c = Channels.CGuildText rt t /\
       snowflake rt v = Ok (Channels.gc_guild_id rt (Channels.gt_guild rt t))).
Proof.
  split; [|split; [|split; [|split]]].
  - intros payload g c z H Hz.
    destruct (ChannelFacts.deserialize_channel_guild rt payload (Some g) c z H Hz) as (gc & Hgc & <-).
    exact (ChannelFacts.set_guild_some rt payload g gc Hgc).
  - exact (ChannelFacts.deserialize_channel_agree rt).
  - intros payload c z H Hz.
    destruct (ChannelFacts.deserialize_channel_guild rt payload None c z H Hz) as (gc & Hgc & <-).
    exact (ChannelFacts.set_guild_none rt payload gc Hgc).
  - intros payload Ht Hg c H.
    destruct (ChannelFacts.type0_text rt payload None c Ht H) as (t & -> & _).
    destruct (ChannelFacts.deserialize_channel_guild rt payload None _ _ H eq_refl) as (gc & Hgc & _).
    destruct (ChannelFacts.set_guild_none rt payload gc Hgc) as (v & Hv & _). congruence.
  - intros payload v c Ht Hv H.
    destruct (ChannelFacts.type0_text rt payload None c Ht H) as (t & -> & _).
    exists t. split; [reflexivity|].
    destruct (ChannelFacts.deserialize_channel_guild rt payload None _ _ H eq_refl) as (gc & Hgc & Hid).
    destruct (ChannelFacts.set_guild_none rt payload gc Hgc) as (v' & Hv' & Hs).
    rewrite Hv in Hv'. injection Hv' as <-. rewrite Hs, Hid. reflexivity.
Qed.

(** Witness of C9: that payload decodes, with no [guild_id] argument, to a
    text channel of [guild_id] 7. *)
Lemma channel_guild_id_param_or_payload_witness :
  exists c, Channels.deserialize_channel ReferenceRuntime.rt0 text_channel_payload None = Ok c /\
  exists t, c = Channels.CGuildText ReferenceRuntime.rt0 t /\
    snowflake ReferenceRuntime.rt0 (JInt 7) =
      Ok (Channels.gc_guild_id ReferenceRuntime.rt0 (Channels.gt_guild ReferenceRuntime.rt0 t)).
Proof.
  eexists. split; [reflexivity|].
  destruct (channel_guild_id_param_or_payload ReferenceRuntime.rt0) as (_ & _ & _ & _ & H).
  apply (H text_channel_payload (JInt 7)); reflexivity.
Defined.

(** C1 (amended): in [deserialize_audit_log], an action type outside
    [AuditLogEventType] and a change key outside [AuditLogChangeKey] are kept
    raw. Every entry payload of a decoded audit log decodes to an entry that
    the log holds under its id (unless a later entry payload has the same
    id); if its ["action_type"] is unknown, its action type is kept raw and
    its options are [None] or go through the unrecognised decoder; each of its
    changes whose ["key"] is unknown keeps its values unconverted. Neither
    makes an entry fail: a change of an unknown key always decodes, and with
    an unknown action type an entry decodes exactly as it does without its
    ["options"]. But [deserialize_channel] raises [KeyError] for a ["type"]
    outside its guild and DM dispatch tables. *)
Theorem unknown_values_kept_in_audit_log_channel_type_raises
    (rt : Runtime) (known_event_types : list Z) (known_change_keys : list string)
    (entry_info : Type) (audit_log_event_mapping : list (Z * (json -> result entry_info)))
    (converted : Type) (audit_log_entry_converters : list (string * (json -> result converted)))
    (integration webhook : Type) (deserialize_partial_integration : json -> result integration)
    (deserialize_webhook : json -> result webhook) :
  (forall z f, In (z, f) audit_log_event_mapping -> In z known_event_types) ->
  (forall s f, In (s, f) audit_log_entry_converters -> In s known_change_keys) ->
  (forall (payload : obj) (al : AuditLogs.AuditLog rt entry_info converted integration webhook)
          (pre post : list json) (ep : obj),
     AuditLogs.deserialize_audit_log rt known_event_types known_change_keys entry_info
       audit_log_event_mapping converted audit_log_entry_converters integration webhook
       deserialize_partial_integration deserialize_webhook payload = Ok al ->
     lookup payload "audit_log_entries" = Some (JArr (pre ++ JObj ep :: post)) ->
     exists e,
       AuditLogs.deserialize_entry rt known_event_types known_change_keys entry_info
         audit_log_event_mapping converted audit_log_entry_converters (JObj ep) = Ok e /\
       ((forall ep' o j, In ep' post -> ep' = JObj o -> lookup o "id" = Some j ->
           snowflake rt j <> Ok (AuditLogs.ae_id e)) ->
        In (AuditLogs.ae_id e, e) (AuditLogs.al_entries al)) /\
       (forall n, lookup ep "action_type" = Some (JInt n) -> ~ In n known_event_types ->
          AuditLogs.ae_action_type e = AuditLogs.EventRaw (JInt n) /\
          AuditLogs.ae_options e = if is_none (get ep "options") then AuditLogs.OptNone
                                   else AuditLogs.OptUnrecognised (get ep "options")) /\
       (forall cps, lookup ep "changes" = Some (JArr cps) ->
          Forall2 (fun cp ch => forall c k, cp = JObj c -> lookup c "key" = Some (JStr k) ->
                     ~ In k known_change_keys ->
                     ch = {| AuditLogs.ch_key := AuditLogs.KeyRaw (JStr k);
                             AuditLogs.ch_new_value := AuditLogs.VRaw (get c "new_value");
                             AuditLogs.ch_old_value := AuditLogs.VRaw (get c "old_value") |})
                  cps (AuditLogs.ae_changes e))) /\
  (forall (c : obj) (k : string), lookup c "key" = Some (JStr k) -> ~ In k known_change_keys ->
     AuditLogs.deserialize_change known_change_keys converted audit_log_entry_converters (JObj c) =
     Ok {| AuditLogs.ch_key := AuditLogs.KeyRaw (JStr k);
           AuditLogs.ch_new_value := AuditLogs.VRaw (get c "new_value");
           AuditLogs.ch_old_value := AuditLogs.VRaw (get c "old_value") |}) /\
  (forall (ep : obj) (n : Z), lookup ep "action_type" = Some (JInt n) -> ~ In n known_event_types ->
     AuditLogs.deserialize_entry rt known_event_types known_change_keys entry_info
       audit_log_event_mapping converted audit_log_entry_converters (JObj ep) =
     (e <- AuditLogs.deserialize_entry rt known_event_types known_change_keys entry_info
             audit_log_event_mapping converted audit_log_entry_converters (JObj (drop_key ep "options")) ;;
      Ok {| AuditLogs.ae_id := AuditLogs.ae_id e; AuditLogs.ae_target_id := AuditLogs.ae_target_id e;
            AuditLogs.ae_changes := AuditLogs.ae_changes e; AuditLogs.ae_user_id := AuditLogs.ae_user_id e;
            AuditLogs.ae_action_type := AuditLogs.ae_action_type e;
            AuditLogs.ae_options := if is_none (get ep "options") then AuditLogs.OptNone
                                    else AuditLogs.OptUnrecognised (get ep "options");
            AuditLogs.ae_reason := AuditLogs.ae_reason e |})) /\
  (forall payload gid n, lookup payload "type" = Some (JInt n) -> ~ In n [0; 1; 2; 3; 4; 5; 6] ->
     Channels.deserialize_channel rt payload gid = Err (KeyError (JInt n))).
Proof.
  intros Hev Hconv. split; [|split; [|split]].
  - intros payload al pre post ep Hal Hentries.
    destruct (AuditLogFacts.audit_log_entry_in rt known_event_types known_change_keys entry_info
                audit_log_event_mapping converted audit_log_entry_converters integration webhook
                deserialize_partial_integration deserialize_webhook payload al pre post ep Hal Hentries)
      as (e & He & Hin).
    exists e. split; [exact He|]. split; [exact Hin|]. split.
    + intros n Ha Hn.
      exact (AuditLogFacts.deserialize_entry_unknown_action_get rt known_event_types known_change_keys
               entry_info audit_log_event_mapping converted audit_log_entry_converters ep e n Hev He Ha Hn).
    + intros cps Hc.
      pose proof (AuditLogFacts.deserialize_entry_changes rt known_event_types known_change_keys
                    entry_info audit_log_event_mapping converted audit_log_entry_converters ep e cps He Hc)
        as Hm.
      apply AuditLogFacts.map_result_Forall2 in Hm.
      eapply Forall2_impl; [|exact Hm].
      intros cp ch Hd c k -> Hk Hnk.
      rewrite (AuditLogFacts.deserialize_change_unknown known_change_keys converted
                 audit_log_entry_converters c k Hconv Hk Hnk) in Hd.
      injection Hd as <-. reflexivity.
  - intros c k Hk Hnk.
    exact (AuditLogFacts.deserialize_change_unknown known_change_keys converted
             audit_log_entry_converters c k Hconv Hk Hnk).
  - intros ep n Ha Hn.
    exact (AuditLogFacts.deserialize_entry_options_unknown rt known_event_types known_change_keys
             entry_info audit_log_event_mapping converted audit_log_entry_converters ep n Hev Ha Hn).
  - intros payload gid n Ht Hn. exact (ChannelFacts.unknown_type_key_error rt payload gid n Ht Hn).
Qed.

(** Witness of C1: the audit log whose only entry has action type 99 and a
    change of key ["colour"] decodes, with the event types 13 and 14 and the
    change key ["color"] known; the log holds the entry under id 6, with its
    action type, options and change kept raw; and a channel of ["type"] 99
    raises. *)
Lemma unknown_values_kept_in_audit_log_channel_type_raises_witness :
  (exists al, AuditLogs.deserialize_audit_log ReferenceRuntime.rt0 [13; 14] ["color"%string] Z
    [(13, fun _ => Ok 0)] json [("color"%string, fun j => Ok j)] json json
    ReferenceRuntime.deserialize_dict ReferenceRuntime.deserialize_dict
    unknown_change_audit_log_payload = Ok al /\
  exists e, In (6, e) (AuditLogs.al_entries al) /\
    AuditLogs.ae_action_type e = AuditLogs.EventRaw (JInt 99) /\
    AuditLogs.ae_options e = AuditLogs.OptUnrecognised (JObj [("count"%string, JStr "3")]) /\
    AuditLogs.ae_changes e = [{| AuditLogs.ch_key := AuditLogs.KeyRaw (JStr "colour");
                                 AuditLogs.ch_new_value := AuditLogs.VRaw (JInt 1);
                                 AuditLogs.ch_old_value := AuditLogs.VRaw JNull |}]) /\
  Channels.deserialize_channel ReferenceRuntime.rt0 [("id"%string, JInt 1); ("type"%string, JInt 99)] None =
    Err (KeyError (JInt 99)).
Proof.
  destruct (unknown_values_kept_in_audit_log_channel_type_raises ReferenceRuntime.rt0 [13; 14]
              ["color"%string] Z [(13, fun _ => Ok 0)] json [("color"%string, fun j => Ok j)]
              json json ReferenceRuntime.deserialize_dict ReferenceRuntime.deserialize_dict)
    as (H1 & _ & _ & H4).
  - simpl. intros z f [H | []]. injection H as <- _. left. reflexivity.
  - simpl. intros s f [H | []]. injection H as <- _. left. reflexivity.
  - split; [|apply H4; [reflexivity | simpl; lia]].
    eexists. split; [reflexivity|].
    destruct (H1 unknown_change_audit_log_payload _ [] [] unknown_change_audit_log_entry
                eq_refl eq_refl) as (e & He & Hin & Hact & Hch).
    destruct (Hact 99 eq_refl) as [Ha Ho]; [simpl; lia|].
    pose proof (Hch _ eq_refl) as Hf. inversion Hf as [|cp ch cps' chs Hc Hnil Hcp Hchs]. subst.
    inversion Hnil as [Hn|]. subst.
    exists e. split; [|split; [exact Ha|split; [exact Ho|]]].
    + assert (Hid : AuditLogs.ae_id e = 6) by (vm_compute in He; injection He as <-; reflexivity).
      pose proof (Hin (fun ep' o j (H : In ep' []) => match H with end)) as Hin'.
      rewrite Hid in Hin'. exact Hin'.
    + rewrite <- Hchs. f_equal.
      apply (Hc _ "colour"%string eq_refl eq_refl). simpl. intuition discriminate.
Defined.

(** Counterexample to C1: a channel payload of ["type"] 99 makes
    [deserialize_channel] raise [KeyError(99)]. *)
Lemma deserialize_channel_unknown_type_raises :
  Channels.deserialize_channel ReferenceRuntime.rt0 [("id"%string, JInt 1); ("type"%string, JInt 99)] None =
    Err (KeyError (JInt 99)).
Proof. reflexivity. Qed.

(** C8: in an audit log that [deserialize_audit_log] decodes, an entry
    payload whose ["action_type"] is a number [n] outside [AuditLogEventType]
    and whose ["options"] is present and not null decodes to an entry of
    action type [n], kept raw, whose options are that payload wrapped in
    [UnrecognisedAuditLogEntryInfo]; the log holds this entry under its id
    unless a later entry payload has the same id. *)
Theorem audit_log_unknown_action_type_options_raw
    (rt : Runtime) (known_event_types : list Z) (known_change_keys : list string)
    (entry_info : Type) (audit_log_event_mapping : list (Z * (json -> result entry_info)))
    (converted : Type) (audit_log_entry_converters : list (string * (json -> result converted)))
    (integration webhook : Type) (deserialize_partial_integration : json -> result integration)
    (deserialize_webhook : json -> result webhook)
    (payload : obj) (al : AuditLogs.AuditLog rt entry_info converted integration webhook)
    (pre post : list json) (entry_payload : obj) (n : Z) (options : json) :
  (forall z f, In (z, f) audit_log_event_mapping -> In z known_event_types) ->
  AuditLogs.deserialize_audit_log rt known_event_types known_change_keys entry_info
    audit_log_event_mapping converted audit_log_entry_converters integration webhook
    deserialize_partial_integration deserialize_webhook payload = Ok al ->
  lookup payload "audit_log_entries" = Some (JArr (pre ++ JObj entry_payload :: post)) ->
  lookup entry_payload "action_type" = Some (JInt n) -> ~ In n known_event_types ->
  lookup entry_payload "options" = Some options -> options <> JNull ->
  exists e,
    AuditLogs.deserialize_entry rt known_event_types known_change_keys entry_info
      audit_log_event_mapping converted audit_log_entry_converters (JObj entry_payload) = Ok e /\
    AuditLogs.ae_action_type e = AuditLogs.EventRaw (JInt n) /\
    AuditLogs.ae_options e = AuditLogs.OptUnrecognised options /\
    ((forall ep o j, In ep post -> ep = JObj o -> lookup o "id" = Some j ->
        snowflake rt j <> Ok (AuditLogs.ae_id e)) ->
     In (AuditLogs.ae_id e, e) (AuditLogs.al_entries al)).
Proof.
  intros Hkeys H Hentries Ha Hn Ho Hnn.
  unfold AuditLogs.deserialize_audit_log in H.
  assert (Hg : getitem payload "audit_log_entries" = Ok (JArr (pre ++ JObj entry_payload :: post)))
    by (unfold getitem; rewrite Hentries; reflexivity).
  rewrite Hg in H. cbn [bind as_list] in H.
  destruct (map_result _ (pre ++ JObj entry_payload :: post)) as [es|err] eqn:Hes;
    cbn [bind] in H; [|discriminate H].
  bind_ok H. injection H as <-. cbn [AuditLogs.al_entries].
  destruct (DictFacts.map_result_app _ _ _ _ Hes) as (es1 & es2 & -> & _ & H2).
  cbn [map_result] in H2.
  destruct (AuditLogs.deserialize_entry _ _ _ _ _ _ _ (JObj entry_payload)) as [e|err] eqn:He;
    cbn [bind] in H2; [|discriminate H2].
  destruct (map_result _ post) as [rest|err] eqn:Hrest; cbn [bind] in H2; [|discriminate H2].
  injection H2 as <-.
  exists e. split; [reflexivity|].
  destruct (AuditLogFacts.deserialize_entry_unknown_action rt known_event_types known_change_keys
              entry_info audit_log_event_mapping converted audit_log_entry_converters
              entry_payload e n options Hkeys He Ha Hn Ho Hnn) as [Hact Hopt].
  split; [exact Hact|]. split; [exact Hopt|].
  intro Hpost. rewrite map_app. cbn [map fst snd].
  apply DictFacts.dict_of_pairs_last.
  intros kv Hkv. apply in_map_iff in Hkv. destruct Hkv as (e' & <- & He').
  destruct (DictFacts.map_result_in _ _ _ _ Hrest He') as (ep & Hep & Hdec).
  destruct (AuditLogFacts.deserialize_entry_id rt known_event_types known_change_keys entry_info
              audit_log_event_mapping converted audit_log_entry_converters ep e' Hdec)
    as (o & j & -> & Hj & Hs).
  cbn [fst]. intro Heq. rewrite Heq in Hs. exact (Hpost _ o j Hep eq_refl Hj Hs).
Qed.

(** Witness of C8: an audit log whose only entry has action type 99, with
    the event types 13 and 14 known and a decoder for 13. *)
Lemma audit_log_unknown_action_type_options_raw_witness :
  exists al, AuditLogs.deserialize_audit_log ReferenceRuntime.rt0 [13; 14] [] Z [(13, fun _ => Ok 0)]
    json [] json json ReferenceRuntime.deserialize_dict ReferenceRuntime.deserialize_dict
    audit_log_payload = Ok al /\
  exists e,
    AuditLogs.deserialize_entry ReferenceRuntime.rt0 [13; 14] [] Z [(13, fun _ => Ok 0)] json []
      (JObj unknown_audit_log_entry) = Ok e /\
    AuditLogs.ae_action_type e = AuditLogs.EventRaw (JInt 99) /\
    AuditLogs.ae_options e = AuditLogs.OptUnrecognised (JObj [("count"%string, JStr "3")]) /\
    ((forall ep o j, In ep [] -> ep = JObj o -> lookup o "id" = Some j ->
        snowflake ReferenceRuntime.rt0 j <> Ok (AuditLogs.ae_id e)) ->
     In (AuditLogs.ae_id e, e) (AuditLogs.al_entries al)).
Proof.
  eexists. split; [reflexivity|].
  apply (audit_log_unknown_action_type_options_raw ReferenceRuntime.rt0 [13; 14] [] Z
           [(13, fun _ => Ok 0)] json [] json json ReferenceRuntime.deserialize_dict
           ReferenceRuntime.deserialize_dict audit_log_payload _ [] [] unknown_audit_log_entry 99
           (JObj [("count"%string, JStr "3")])).
  - simpl. intros z f [H | []]. injection H as <- _. left. reflexivity.
  - reflexivity.
  - reflexivity.
  - reflexivity.
  - simpl. lia.
  - reflexivity.
  - discriminate.
Defined.

(** C4 (amended): [deserialize_member] keeps ["nick"] and ["premium_since"]
    three-way (absent: [UNDEFINED]; null: [None]; a value: that value, or the
    parsed datetime), while [deserialize_member_presence] maps an absent and a
    null ["nick"] both to [None] and an absent and a null ["premium_since"]
    both to [None]; [deserialize_member] also maps an absent and a null
    ["joined_at"] both to [UNDEFINED]. *)
Theorem member_optional_fields_presence_collapses (rt : Runtime) :
  (forall payload user gid m, Members.deserialize_member rt payload user gid = Ok m ->
     (lookup payload "nick" = None -> Members.m_nickname rt m = UNDEFINED) /\
     (forall v, lookup payload "nick" = Some v -> Members.m_nickname rt m = Defined v) /\
     (lookup payload "premium_since" = None -> Members.m_premium_since rt m = UNDEFINED) /\
     (lookup payload "premium_since" = Some JNull -> Members.m_premium_since rt m = Defined None) /\
     (forall v, v <> JNull -> lookup payload "premium_since" = Some v ->
        exists d, rt_iso8601 rt v = Ok d /\ Members.m_premium_since rt m = Defined (Some d)) /\
     (lookup payload "joined_at" = None \/ lookup payload "joined_at" = Some JNull ->
        Members.m_joined_at rt m = UNDEFINED)) /\
  (forall payload gid pr, Members.deserialize_member_presence rt payload gid = Ok pr ->
     (lookup payload "nick" = None -> Members.p_nickname rt pr = JNull) /\
     (forall v, lookup payload "nick" = Some v -> Members.p_nickname rt pr = v) /\
     (lookup payload "premium_since" = None -> Members.p_premium_since rt pr = None) /\
     (lookup payload "premium_since" = Some JNull -> Members.p_premium_since rt pr = None) /\
     (forall v, v <> JNull -> lookup payload "premium_since" = Some v ->
        exists d, rt_iso8601 rt v = Ok d /\ Members.p_premium_since rt pr = Some d)).
Proof.
  split.
  - intros payload user gid m H.
    unfold Members.deserialize_member, contains, getitem, get in H.
    repeat split.
    + intro Hl. rewrite Hl in H. cbn [bind] in H. bind_ok H. injection H as <-. reflexivity.
    + intros v Hl. rewrite Hl in H. cbn [bind] in H. bind_ok H. injection H as <-. reflexivity.
    + intro Hl. rewrite Hl in H. cbn [bind] in H. bind_ok H. injection H as <-. reflexivity.
    + intro Hl. rewrite Hl in H. cbn [bind is_none] in H. bind_ok H. injection H as <-. reflexivity.
    + intros v Hv Hl. rewrite Hl in H. cbn [bind] in H.
      assert (Hn : is_none v = false) by (destruct v; [contradiction | reflexivity ..]).
      rewrite Hn in H. cbn [bind] in H.
      destruct (rt_iso8601 rt v) as [d|e] eqn:Ed; cbn [bind] in H; bind_ok H; [|discriminate H].
      injection H as <-. exists d. split; reflexivity.
    + intros [Hl | Hl]; rewrite Hl in H; cbn [bind is_none] in H; bind_ok H; injection H as <-;
        reflexivity.
  - intros payload gid pr H.
    unfold Members.deserialize_member_presence, get in H.
    repeat split.
    + intro Hl. rewrite Hl in H. bind_ok H. injection H as <-. reflexivity.
    + intros v Hl. rewrite Hl in H. bind_ok H. injection H as <-. reflexivity.
    + intro Hl. rewrite Hl in H. cbn [bind is_none] in H. bind_ok H. injection H as <-. reflexivity.
    + intro Hl. rewrite Hl in H. cbn [bind is_none] in H. bind_ok H. injection H as <-. reflexivity.
    + intros v Hv Hl. rewrite Hl in H.
      assert (Hn : is_none v = false) by (destruct v; [contradiction | reflexivity ..]).
      rewrite Hn in H. cbn [bind] in H.
      destruct (rt_iso8601 rt v) as [d|e] eqn:Ed; cbn [bind] in H; bind_ok H; [|discriminate H].
      injection H as <-. exists d. split; reflexivity.
Qed.

(** Witness of C4: a member payload without ["nick"] decodes to a member whose
    nickname is [UNDEFINED]. *)
Lemma member_optional_fields_presence_collapses_witness :
  exists m, Members.deserialize_member ReferenceRuntime.rt0 member_payload None None = Ok m /\
    Members.m_nickname ReferenceRuntime.rt0 m = UNDEFINED.
Proof.
  eexists. split; [reflexivity|].
  destruct (member_optional_fields_presence_collapses ReferenceRuntime.rt0) as [H _].
  apply (H member_payload None None); [reflexivity | reflexivity].
Defined.

(** Counterexample to C4: a presence payload without ["nick"] and the same
    payload with a null ["nick"] decode to the same presence. *)
Lemma presence_nick_absent_null_collapse :
  (exists pr, Members.deserialize_member_presence ReferenceRuntime.rt0 presence_payload None = Ok pr) /\
  Members.deserialize_member_presence ReferenceRuntime.rt0 presence_payload None =
    Members.deserialize_member_presence ReferenceRuntime.rt0 presence_payload_null_nick None.
Proof. split; [eexists; reflexivity | reflexivity]. Qed.

(** C5: an invite that [deserialize_invite_with_metadata] accepts has
    [max_age] [None] for a ["max_age"] of 0 and [s] seconds for a positive
    ["max_age"] [s], but its [max_uses] is ["max_uses"] itself, 0 included,
    where [_deserialize_max_uses] would give [None]. *)
Theorem invite_max_age_converted_max_uses_raw (rt : Runtime) (invite_attributes : Type)
    (_set_invite_attributes : obj -> result invite_attributes) (payload : obj)
    (inv : Invites.InviteWithMetadata rt invite_attributes) :
  Invites.deserialize_invite_with_metadata rt invite_attributes _set_invite_attributes payload = Ok inv ->
  (lookup payload "max_age" = Some (JInt 0) -> Invites.inv_max_age rt invite_attributes inv = None) /\
  (forall s, 0 < s -> lookup payload "max_age" = Some (JInt s) ->
     Invites.inv_max_age rt invite_attributes inv = Some s) /\
  (forall u, lookup payload "max_uses" = Some (JInt u) -> Invites.inv_max_uses rt invite_attributes inv = u) /\
  Invites._deserialize_max_uses 0 = None.
Proof.
  intro H. unfold Invites.deserialize_invite_with_metadata, getitem in H.
  split; [|split; [|split]].
  - intro Hl. rewrite Hl in H. cbn [bind Invites.gt_zero] in H.
    change (0 <? 0) with false in H. cbn [bind] in H.
    bind_ok H. injection H as <-. reflexivity.
  - intros s Hs Hl. rewrite Hl in H. cbn [bind Invites.gt_zero] in H.
    assert (Hlt : (0 <? s) = true) by (apply Z.ltb_lt; exact Hs).
    rewrite Hlt in H. cbn [bind timedelta_seconds] in H.
    bind_ok H. injection H as <-. reflexivity.
  - intros u Hl. rewrite Hl in H. cbn [bind py_int] in H.
    bind_ok H. injection H as <-. reflexivity.
  - reflexivity.
Qed.

(** Witness of C5: the invite of ["max_uses"] 0 decodes with [max_uses] 0. *)
Lemma invite_max_age_converted_max_uses_raw_witness :
  exists inv, Invites.deserialize_invite_with_metadata ReferenceRuntime.rt0 unit (fun _ => Ok tt)
    unlimited_invite_payload = Ok inv /\
  Invites.inv_max_uses ReferenceRuntime.rt0 unit inv = 0 /\
  Invites.inv_max_age ReferenceRuntime.rt0 unit inv = None.
Proof.
  eexists. split; [reflexivity|].
  destruct (invite_max_age_converted_max_uses_raw ReferenceRuntime.rt0 unit (fun _ => Ok tt)
              unlimited_invite_payload _ eq_refl) as (H0 & _ & Hu & _).
  split; [apply Hu | apply H0]; reflexivity.
Defined.

(** C7: [serialize_embed] raises exactly when a field has a null, empty or
    whitespace-only name or value. The error is the [TypeError] of the first
    such field, and its message carries that field's index. [deserialize_embed]
    makes no such check: it takes fields with any name and value. *)
Theorem serialize_embed_field_validation (rt : Runtime) :
  (forall e err, Embeds.serialize_embed rt e = Err err ->
     exists fs n f what msg,
       Embeds.e_fields rt e = Some fs /\ nth_error fs n = Some f /\
       ((what = "name"%string /\ blank_text rt (Embeds.f_name f)) \/
        (what = "value"%string /\ ~ blank_text rt (Embeds.f_name f) /\
         blank_text rt (Embeds.f_value f))) /\
       (forall m g, (m < n)%nat -> nth_error fs m = Some g ->
          ~ blank_text rt (Embeds.f_name g) /\ ~ blank_text rt (Embeds.f_value g)) /\
       err = Embeds.field_error (Z.of_nat n) what msg) /\
  (forall e fs f, Embeds.e_fields rt e = Some fs -> In f fs ->
     blank_text rt (Embeds.f_name f) \/ blank_text rt (Embeds.f_value f) ->
     exists err, Embeds.serialize_embed rt e = Err err) /\
  (forall l : list (json * json), l <> [] ->
     exists e, Embeds.deserialize_embed rt
                 [("fields"%string, JArr (map (fun nv => JObj [("name"%string, fst nv);
                                                                ("value"%string, snd nv)]) l))] = Ok e /\
       Embeds.e_fields rt e =
         Some (map (fun nv => {| Embeds.f_name := fst nv; Embeds.f_value := snd nv;
                                 Embeds.f_is_inline := JBool false |}) l)).
Proof.
  split; [|split].
  - intros e err H.
    destruct (EmbedFacts.serialize_embed_err rt e err H) as (fs & Hf & Hs).
    destruct (EmbedFacts.serialize_fields_err rt fs 0 err Hs)
      as (n & f & what & msg & Hn & Hw & Hbefore & Herr).
    exists fs, n, f, what, msg.
    split; [exact Hf|]. split; [exact Hn|]. split; [exact Hw|]. split; [exact Hbefore|].
    rewrite Herr; f_equal; lia.
  - intros e fs f Hf Hin Hb.
    destruct (EmbedFacts.serialize_fields_blank rt fs 0 f Hin Hb) as [err Hs].
    exists err. exact (EmbedFacts.serialize_embed_fields_err rt e fs err Hf Hs).
  - exact (EmbedFacts.deserialize_embed_fields_only rt).
Qed.

(** Witness of C7: an embed whose only field has the value [" "] does not
    serialize. *)
Lemma serialize_embed_field_validation_witness :
  exists err, Embeds.serialize_embed ReferenceRuntime.rt0 whitespace_value_embed = Err err.
Proof.
  destruct (serialize_embed_field_validation ReferenceRuntime.rt0) as (_ & H & _).
  apply (H whitespace_value_embed
           [{| Embeds.f_name := JStr "a"; Embeds.f_value := JStr " ";
               Embeds.f_is_inline := JBool false |}]
           {| Embeds.f_name := JStr "a"; Embeds.f_value := JStr " ";
              Embeds.f_is_inline := JBool false |}).
  - reflexivity.
  - left. reflexivity.
  - right. right. right. cbn. repeat constructor.
Defined.

(** C6 (amended): for a payload that [deserialize_embed] accepts, with no
    null [title], [description] or [url], an integer [color] if any, and
    fields whose [name] and [value] are strings that are not blank,
    [serialize_embed] succeeds. Its payload has the same [title],
    [description], [url] and [color] entries. The [timestamp] comes back as
    the ISO 8601 form of the parsed datetime. Each field comes back with its
    [name] and [value], and with [inline] set to [False] when it was absent. *)
Theorem embed_roundtrip_well_formed (rt : Runtime) (p : obj) (e : Embeds.Embed rt)
  (Hd : Embeds.deserialize_embed rt p = Ok e)
  (Hnull : forall k, In k ["title"; "description"; "url"]%string -> lookup p k <> Some JNull)
  (Hcolor : forall c, lookup p "color" = Some c -> exists z, c = JInt z)
  (Hfields : forall fl, lookup p "fields" = Some (JArr fl) -> Forall (good_field_payload rt) fl) :
  exists out ups, Embeds.serialize_embed rt e = Ok (out, ups) /\
    (forall k, In k ["title"; "description"; "url"; "color"]%string -> lookup out k = lookup p k) /\
    (lookup p "timestamp" = None -> lookup out "timestamp" = None) /\
    (forall t, lookup p "timestamp" = Some t ->
       exists d, rt_iso8601 rt t = Ok d /\ lookup out "timestamp" = Some (JStr (rt_isoformat rt d))) /\
    (lookup p "fields" = None -> lookup out "fields" = None) /\
    (forall fl, lookup p "fields" = Some (JArr fl) -> fl <> [] ->
       lookup out "fields" = Some (JArr (map field_roundtrip fl))).
Proof.
  destruct (Embeds.serialize_embed rt e) as [[out ups]|err] eqn:Hs.
  2:{ exfalso.
      destruct (EmbedFacts.serialize_embed_err rt e err Hs) as (fs & Hf & Hse).
      destruct (EmbedFacts.deserialize_embed_fields_some rt p e fs Hd Hf) as (fl & Hl & Hm).
      rewrite (EmbedFacts.fields_roundtrip rt fl (Hfields fl Hl) fs Hm 0) in Hse.
      discriminate Hse. }
  exists out, ups. split; [reflexivity|].
  destruct (EmbedFacts.deserialize_embed_parts rt p e Hd) as (Ht & Hde & Hu & _).
  destruct (EmbedFacts.deserialize_embed_color rt p e Hd) as [Hc0 Hc1].
  destruct (EmbedFacts.deserialize_embed_timestamp rt p e Hd) as [Ht0 Ht1].
  destruct (EmbedFacts.deserialize_embed_fields rt p e Hd) as [Hf0 Hf1].
  assert (Hbase : forall k, ~ In k ["footer"; "image"; "thumbnail"; "author"; "fields"]%string ->
            lookup out k = lookup (embed_base_payload rt e) k)
    by (intros k Hk; exact (EmbedFacts.serialize_embed_lookup rt e out ups k Hs Hk)).
  split; [|split; [|split; [|split]]].
  - intros k Hk. rewrite Hbase by (cbn in Hk |- *; intuition congruence).
    cbn in Hk. destruct Hk as [<- | [<- | [<- | [<- | []]]]].
    + rewrite EmbedFacts.base_title. apply EmbedFacts.nullable_roundtrip; [exact Ht|].
      apply Hnull. cbn; tauto.
    + rewrite EmbedFacts.base_description. apply EmbedFacts.nullable_roundtrip; [exact Hde|].
      apply Hnull. cbn; tauto.
    + rewrite EmbedFacts.base_url. apply EmbedFacts.nullable_roundtrip; [exact Hu|].
      apply Hnull. cbn; tauto.
    + rewrite EmbedFacts.base_color.
      destruct (lookup p "color") as [c|] eqn:Hl.
      * destruct (Hcolor c eq_refl) as [z ->]. rewrite (Hc1 z eq_refl). reflexivity.
      * rewrite (Hc0 eq_refl). reflexivity.
  - intro Hl. rewrite Hbase by (cbn; intuition congruence).
    rewrite EmbedFacts.base_timestamp, (Ht0 Hl). reflexivity.
  - intros t Hl. destruct (Ht1 t Hl) as (d & Hiso & Hts). exists d. split; [exact Hiso|].
    rewrite Hbase by (cbn; intuition congruence).
    rewrite EmbedFacts.base_timestamp, Hts. reflexivity.
  - intro Hl. apply (EmbedFacts.serialize_embed_no_fields rt e out ups Hs). left. exact (Hf0 Hl).
  - intros fl Hl Hne. destruct (Hf1 fl Hl Hne) as (fs & Hm & Hfs).
    assert (Hfsne : fs <> []).
    { intro Hnil. subst fs. apply Hne. exact (EmbedFacts.map_result_nil _ _ Hm). }
    destruct (EmbedFacts.serialize_embed_fields rt e out ups fs Hs Hfs Hfsne) as (fps & Hse & Hout).
    rewrite (EmbedFacts.fields_roundtrip rt fl (Hfields fl Hl) fs Hm 0) in Hse.
    injection Hse as <-. exact Hout.
Qed.

(** Witness of C6: the payload with a colour and one inline field decodes,
    and serializes back to the same colour and field. *)
Lemma embed_roundtrip_well_formed_witness :
  exists e, Embeds.deserialize_embed ReferenceRuntime.rt0 roundtrip_embed_payload = Ok e /\
  exists out ups, Embeds.serialize_embed ReferenceRuntime.rt0 e = Ok (out, ups) /\
    lookup out "color" = Some (JInt 255) /\
    lookup out "fields" =
      Some (JArr [JObj [("name"%string, JStr "a"); ("value"%string, JStr "b");
                        ("inline"%string, JBool true)]]).
Proof.
  destruct (Embeds.deserialize_embed ReferenceRuntime.rt0 roundtrip_embed_payload)
    as [e|err] eqn:Hd; [|vm_compute in Hd; discriminate Hd].
  exists e. split; [reflexivity|].
  destruct (embed_roundtrip_well_formed ReferenceRuntime.rt0 roundtrip_embed_payload e Hd)
    as (out & ups & Hs & Hk & _ & _ & _ & Hf).
  - intros k Hk. cbn in Hk. destruct Hk as [<- | [<- | [<- | []]]]; vm_compute; discriminate.
  - intros c Hc. vm_compute in Hc. injection Hc as <-. exists 255. reflexivity.
  - intros fl Hl. vm_compute in Hl. injection Hl as <-. constructor; [|constructor].
    exists [("name"%string, JStr "a"); ("value"%string, JStr "b"); ("inline"%string, JBool true)],
      "a"%string, "b"%string.
    split; [reflexivity|]. split; [reflexivity|]. split; [reflexivity|].
    split; intros [Hb | [Hb | Hb]]; vm_compute in Hb; try discriminate Hb;
      apply Forall_inv in Hb; discriminate Hb.
  - exists out, ups. split; [exact Hs|]. split.
    + rewrite (Hk "color"%string) by (cbn; tauto). reflexivity.
    + rewrite (Hf [JObj [("name"%string, JStr "a"); ("value"%string, JStr "b");
                         ("inline"%string, JBool true)]]) by (first [reflexivity | discriminate]).
      reflexivity.
Defined.

(** Counterexample to C6: a field named [" "] is accepted by
    [deserialize_embed], but [serialize_embed] raises on the model it gives. *)
Lemma embed_roundtrip_whitespace_name_raises :
  match Embeds.deserialize_embed ReferenceRuntime.rt0 whitespace_name_embed_payload with
  | Ok e => Embeds.serialize_embed ReferenceRuntime.rt0 e =
              Err (TypeError "in embed.fields[0].name - cannot have only whitespace")
  | Err _ => False
  end.
Proof. vm_compute. reflexivity. Qed.

(** * Further properties of the code *)

Module SnowflakeSetMoreFacts.
Import SnowflakeSet SnowflakeSetFacts.

(** Removal from a sorted list, the reference for [discard]. *)
Fixpoint rem (x : Z) (a : list Z) : list Z :=
  match a with
  | [] => []
  | y :: r => if y <? x then y :: rem x r else if y =? x then r else a
  end.

Lemma lt_count_in (a : list Z) (v : Z) :
  StronglySorted Z.lt a ->
  (In v a <-> ((lt_count a v <? length a)%nat && (nth (lt_count a v) a 0 =? v)) = true).
Proof.
  intros Hs; induction Hs as [|y r Hr IH Hf]; simpl; [split; [tauto|discriminate]|].
  destruct (Z.ltb_spec y v).
  - simpl. rewrite <- IH. split; [intros [->|H']; [lia|exact H'] | auto].
  - simpl. rewrite Forall_forall in Hf. split.
    + intros [->|Hin]; [apply Z.eqb_refl|]. specialize (Hf v Hin). lia.
    + intros E. apply Z.eqb_eq in E. auto.
Qed.

Lemma rem_split (a : list Z) (v : Z) :
  rem v a =
  if (lt_count a v <? length a)%nat && (nth (lt_count a v) a 0 =? v)
  then firstn (lt_count a v) a ++ skipn (S (lt_count a v)) a else a.
Proof.
  induction a as [|y r IH]; simpl; [reflexivity|].
  destruct (Z.ltb_spec y v); simpl.
  - change ((S (lt_count r v) <? S (length r))%nat) with ((lt_count r v <? length r)%nat).
    revert IH. destruct ((lt_count r v <? length r)%nat && (nth (lt_count r v) r 0 =? v));
      intros ->; reflexivity.
  - destruct (Z.eqb_spec y v); reflexivity.
Qed.

Lemma discard_rem (a : list Z) (v : Z) :
  StronglySorted Z.lt a -> discard a v = rem v a.
Proof.
  intros Hs. rewrite rem_split. unfold discard. destruct a as [|y r]; [reflexivity|].
  rewrite bisect_left_lt_count by exact Hs. reflexivity.
Qed.

Lemma in_rem (a : list Z) (v w : Z) :
  StronglySorted Z.lt a -> (In w (rem v a) <-> In w a /\ w <> v).
Proof.
  intros Hs; induction Hs as [|y r Hr IH Hf]; simpl; [tauto|].
  rewrite Forall_forall in Hf.
  destruct (Z.ltb_spec y v); simpl.
  - rewrite IH. split; [intros [->|[H1 H2]]; [split; [auto|lia]|auto] | tauto].
  - destruct (Z.eqb_spec y v) as [->|Hne]; simpl.
    + split; [intros H1; split; [auto|]; specialize (Hf w H1); lia |].
      intros [[->|H1] H2]; [congruence|exact H1].
    + split; [intros H1; split; [exact H1|] | tauto].
      destruct H1 as [<-|H1]; [lia|]. specialize (Hf w H1). lia.
Qed.

Lemma rem_inv (a : list Z) (v : Z) : ids_inv a -> ids_inv (rem v a).
Proof.
  intros [Hs Hr]. split.
  - induction Hs as [|y r Hr' IH Hf]; simpl; [constructor|].
    inversion Hr as [|? ? Hy Hr'']; subst.
    destruct (Z.ltb_spec y v); [|destruct (y =? v); [exact Hr'|constructor; auto]].
    constructor; [apply IH; exact Hr''|].
    rewrite Forall_forall in *. intros z Hz. apply (in_rem r v z Hr') in Hz. apply Hf, Hz.
  - rewrite Forall_forall in *. intros z Hz. apply (in_rem a v z Hs) in Hz. apply Hr, Hz.
Qed.

Lemma ins_length (a : list Z) (x : Z) :
  StronglySorted Z.lt a -> (length (ins x a) = S (length a) <-> ~ In x a).
Proof.
  intros Hs; induction Hs as [|y r Hr IH Hf]; simpl; [tauto|].
  rewrite Forall_forall in Hf.
  destruct (Z.ltb_spec y x); simpl.
  - split.
    + intros H1 [->|H2]; [lia|].
      assert (H3 : length (ins x r) = S (length r)) by lia.
      apply IH in H3. contradiction.
    + intros H1. f_equal. apply IH. tauto.
  - destruct (Z.eqb_spec y x) as [->|Hne]; simpl.
    + split; [lia|]. intros H1. exfalso. tauto.
    + split; [intros _ [->|H2]; [lia|]; specialize (Hf x H2); lia | reflexivity].
Qed.

Lemma contains_in (ids : list Z) (v : Z) :
  StronglySorted Z.lt ids -> (contains ids (PInt v) = true <-> In v ids).
Proof.
  intros Hs. rewrite (lt_count_in ids v Hs).
  unfold contains. rewrite bisect_left_lt_count by exact Hs.
  destruct (Nat.ltb _ _); reflexivity.
Qed.

End SnowflakeSetMoreFacts.

(** [SnowflakeSet.__contains__] on a set built by its own methods (sorted,
    no duplicates): an [int] is in it exactly when it is one of the ids, a
    [bool] is looked up as [0] or [1], and any other object is not in it. *)
Theorem snowflake_set_contains_iff (ids : list Z) :
  SnowflakeSetFacts.ids_inv ids ->
  (forall v, SnowflakeSet.contains ids (SnowflakeSet.PInt v) = true <-> In v ids) /\
  (forall b, SnowflakeSet.contains ids (SnowflakeSet.PBool b) = true <-> In (Z.b2z b) ids) /\
  SnowflakeSet.contains ids SnowflakeSet.POther = false.
Proof.
  intros [Hs _].
  assert (H : forall v, SnowflakeSet.contains ids (SnowflakeSet.PInt v) = true <-> In v ids).
  { intros v. apply SnowflakeSetMoreFacts.contains_in, Hs. }
  split; [exact H|split; [|reflexivity]].
  intros b. rewrite <- H. destruct b; reflexivity.
Qed.

Lemma snowflake_set_contains_iff_witness :
  SnowflakeSetFacts.ids_inv [1; 5; 9] /\
  SnowflakeSet.contains [1; 5; 9] (SnowflakeSet.PBool true) = true.
Proof.
  assert (H : SnowflakeSetFacts.ids_inv [1; 5; 9]).
  { split; repeat constructor. }
  split; [exact H|].
  apply (proj1 (proj2 (snowflake_set_contains_iff [1; 5; 9] H)) true). simpl. auto.
Defined.

(** [SnowflakeSet.discard] keeps the set sorted and free of duplicates, and
    removes exactly the given id: afterwards an id is in the set exactly
    when it was before and differs from the discarded one (discarding an
    absent id, or discarding from an empty set, changes nothing). *)
Theorem snowflake_set_discard_spec (ids : list Z) (v : Z) :
  SnowflakeSetFacts.ids_inv ids ->
  SnowflakeSetFacts.ids_inv (SnowflakeSet.discard ids v) /\
  (forall w, In w (SnowflakeSet.discard ids v) <-> In w ids /\ w <> v) /\
  (~ In v ids -> SnowflakeSet.discard ids v = ids).
Proof.
  intros Hi. pose proof Hi as [Hs _].
  rewrite SnowflakeSetMoreFacts.discard_rem by exact Hs.
  split; [apply SnowflakeSetMoreFacts.rem_inv, Hi|].
  split; [intros w; apply SnowflakeSetMoreFacts.in_rem, Hs|].
  intros Hn. rewrite SnowflakeSetMoreFacts.rem_split.
  destruct ((SnowflakeSetFacts.lt_count ids v <? length ids)%nat &&
            (nth (SnowflakeSetFacts.lt_count ids v) ids 0 =? v)) eqn:E; [|reflexivity].
  exfalso. apply Hn. apply (SnowflakeSetMoreFacts.lt_count_in ids v Hs). exact E.
Qed.

Lemma snowflake_set_discard_spec_witness :
  SnowflakeSetFacts.ids_inv [1; 5; 9] /\
  SnowflakeSetFacts.ids_inv (SnowflakeSet.discard [1; 5; 9] 5) /\
  ~ In 5 (SnowflakeSet.discard [1; 5; 9] 5).
Proof.
  assert (H : SnowflakeSetFacts.ids_inv [1; 5; 9]) by (split; repeat constructor).
  destruct (snowflake_set_discard_spec [1; 5; 9] 5 H) as (H1 & H2 & _).
  split; [exact H|split; [exact H1|]].
  intros Hin. apply H2 in Hin. destruct Hin as [_ Hne]. apply Hne. reflexivity.
Defined.

(** [SnowflakeSet.add] on a set built by its own methods raises
    [OverflowError] exactly when the id does not fit an unsigned 64 bit
    integer. Otherwise the set stays sorted and free of duplicates, gains
    exactly that id, contains it afterwards, and its length grows by one
    exactly when the id was not already in it. *)
Theorem snowflake_set_add_spec (ids : list Z) (v : Z) :
  SnowflakeSetFacts.ids_inv ids ->
  (SnowflakeSet.add ids v = None <-> ~ (0 <= v < 2 ^ 64)) /\
  (forall ids', SnowflakeSet.add ids v = Some ids' ->
     SnowflakeSetFacts.ids_inv ids' /\
     SnowflakeSet.contains ids' (SnowflakeSet.PInt v) = true /\
     (forall w, In w ids' <-> w = v \/ In w ids) /\
     (SnowflakeSet.len ids' = S (SnowflakeSet.len ids) <-> ~ In v ids) /\
     (In v ids -> ids' = ids)).
Proof.
  intros Hi. pose proof Hi as [Hs _].
  rewrite (SnowflakeSetFacts.add_ins ids v Hi).
  assert (Hu : SnowflakeSet.in_u64 v = true <-> 0 <= v < 2 ^ 64).
  { unfold SnowflakeSet.in_u64. rewrite andb_true_iff, Z.leb_le, Z.ltb_lt. tauto. }
  destruct (SnowflakeSet.in_u64 v) eqn:E.
  - split; [split; [discriminate|intros Hn; exfalso; apply Hn, Hu; reflexivity]|].
    intros ids' Hids. injection Hids as <-.
    pose proof (SnowflakeSetFacts.ins_inv ids v Hi E) as Hi'.
    split; [exact Hi'|].
    split; [apply (SnowflakeSetMoreFacts.contains_in _ _ (proj1 Hi')), SnowflakeSetFacts.in_ins; left; reflexivity|].
    split; [intros w; apply SnowflakeSetFacts.in_ins|].
    split; [apply SnowflakeSetMoreFacts.ins_length, Hs|].
    intros Hin. destruct (SnowflakeSetFacts.ins_split ids v) as (_ & B & _).
    pose proof (proj1 (SnowflakeSetMoreFacts.lt_count_in ids v Hs) Hin) as Hc.
    apply andb_true_iff in Hc as [Hc1 Hc2]. apply Nat.ltb_lt in Hc1. apply Z.eqb_eq in Hc2.
    apply B; assumption.
  - split; [split; [intros _ Hv; apply Hu in Hv; discriminate|reflexivity]|].
    intros ids' Hids. discriminate Hids.
Qed.

Lemma snowflake_set_add_spec_witness :
  SnowflakeSetFacts.ids_inv [1; 5; 9] /\
  SnowflakeSet.add [1; 5; 9] (-1) = None.
Proof.
  assert (H : SnowflakeSetFacts.ids_inv [1; 5; 9]) by (split; repeat constructor).
  split; [exact H|].
  apply (snowflake_set_add_spec [1; 5; 9] (-1) H). lia.
Defined.

Module CacheMapMoreFacts.
Import LimitedCapacityCacheMap.
Section Facts.
Context {K V : Type} (K_eq_dec : forall a b : K, {a = b} + {a <> b}).

Local Notation is_key k := (fun kv : K * V => if K_eq_dec (fst kv) k then true else false).

Lemma gc_cons_unfold (lim : nat) (cb : bool) (k : K) (v : V) (rest : list (K * V)) log :
  garbage_collect lim cb ((k, v) :: rest) log =
  if Nat.leb (S (length rest)) lim then ((k, v) :: rest, log)
  else garbage_collect lim cb rest (if cb then log ++ [(v, rest)] else log).
Proof. reflexivity. Qed.

Lemma gc_noop (lim : nat) (cb : bool) (d : list (K * V)) log :
  (length d <= lim)%nat -> garbage_collect lim cb d log = (d, log).
Proof.
  intros H. destruct d as [|[k v] rest]; [reflexivity|]. rewrite gc_cons_unfold.
  simpl in H. destruct (Nat.leb_spec (S (length rest)) lim); [reflexivity|lia].
Qed.

Lemma gc_one_evict (lim : nat) (cb : bool) (k : K) (v : V) (rest : list (K * V)) log :
  length rest = lim ->
  garbage_collect lim cb ((k, v) :: rest) log = (rest, if cb then log ++ [(v, rest)] else log).
Proof.
  intros H. rewrite gc_cons_unfold. destruct (Nat.leb_spec (S (length rest)) lim); [lia|].
  apply gc_noop. lia.
Qed.

Lemma mem_false_iff (k : K) (d : list (K * V)) :
  mem K_eq_dec k d = false <-> ~ In k (keys d).
Proof.
  unfold mem, keys. induction d as [|[k' v'] r IH]; simpl; [tauto|].
  destruct (K_eq_dec k' k); simpl; [split; [discriminate|tauto]|].
  rewrite IH. intuition.
Qed.

Lemma length_dict_set (d : list (K * V)) (k : K) (v : V) :
  length (dict_set K_eq_dec d k v) = if mem K_eq_dec k d then length d else S (length d).
Proof.
  unfold dict_set. destruct (mem K_eq_dec k d); [apply length_map|].
  rewrite length_app. simpl. lia.
Qed.

Lemma find_upd_same (d : list (K * V)) (k : K) (v : V) :
  mem K_eq_dec k d = true ->
  find (is_key k) (map (fun kv => if K_eq_dec (fst kv) k then (k, v) else kv) d) = Some (k, v).
Proof.
  unfold mem. induction d as [|[k' v'] r IH]; simpl; [discriminate|].
  destruct (K_eq_dec k' k); simpl.
  - destruct (K_eq_dec k k); [reflexivity|contradiction].
  - destruct (K_eq_dec k' k); [contradiction|]. exact IH.
Qed.

Lemma find_upd_other (d : list (K * V)) (k k' : K) (v : V) :
  k' <> k ->
  find (is_key k') (map (fun kv => if K_eq_dec (fst kv) k then (k, v) else kv) d) =
  find (is_key k') d.
Proof.
  intros Hne. induction d as [|[k0 v0] r IH]; simpl; [reflexivity|].
  destruct (K_eq_dec k0 k) as [->|]; simpl.
  - destruct (K_eq_dec k k'); [congruence|]. exact IH.
  - destruct (K_eq_dec k0 k'); [reflexivity|exact IH].
Qed.

Lemma find_snoc_same (d : list (K * V)) (k : K) (v : V) :
  mem K_eq_dec k d = false -> find (is_key k) (d ++ [(k, v)]) = Some (k, v).
Proof.
  unfold mem. induction d as [|[k' v'] r IH]; simpl.
  - destruct (K_eq_dec k k); [reflexivity|contradiction].
  - destruct (K_eq_dec k' k); simpl; [discriminate|exact IH].
Qed.

Lemma find_snoc_other (d : list (K * V)) (k k' : K) (v : V) :
  k' <> k -> find (is_key k') (d ++ [(k, v)]) = find (is_key k') d.
Proof.
  intros Hne. induction d as [|[k0 v0] r IH]; simpl.
  - destruct (K_eq_dec k k'); [congruence|reflexivity].
  - destruct (K_eq_dec k0 k'); [reflexivity|exact IH].
Qed.

Lemma gc_skipn (lim : nat) (cb : bool) (d : list (K * V)) (log : list (V * dict)) :
  fst (garbage_collect lim cb d log) = skipn (length d - lim) d /\
  map fst (snd (garbage_collect lim cb d log)) =
    map fst log ++ (if cb then map snd (firstn (length d - lim) d) else []).
Proof.
  revert log; induction d as [|[k v] rest IH]; intros log.
  - simpl. destruct cb; rewrite app_nil_r; split; reflexivity.
  - rewrite gc_cons_unfold. destruct (Nat.leb_spec (S (length rest)) lim) as [Hle|Hgt].
    + replace (length ((k, v) :: rest) - lim)%nat with 0%nat by (cbn [length]; lia).
      simpl. destruct cb; rewrite app_nil_r; split; reflexivity.
    + replace (length ((k, v) :: rest) - lim)%nat with (S (length rest - lim)) by (cbn [length]; lia).
      destruct (IH (if cb then log ++ [(v, rest)] else log)) as [IH1 IH2].
      split; [exact IH1|]. rewrite IH2.
      destruct cb; simpl; [rewrite map_app, <- app_assoc; reflexivity|reflexivity].
Qed.

End Facts.
End CacheMapMoreFacts.

(** [LimitedCapacityCacheMap.__setitem__] then [__getitem__]: on a map
    within its limit, reading the key just set gives the value set, unless
    the limit is [0], in which case the new entry is evicted at once and the
    read raises [KeyError]. When the key was already present, or the map was
    not full, nothing is evicted: [on_expire] is not called and every other
    key keeps its value. *)
Theorem cache_map_setitem_getitem {K V : Type} (K_eq_dec : forall a b : K, {a = b} + {a <> b})
    (st : LimitedCapacityCacheMap.state (K:=K) (V:=V)) (k : K) (v : V) :
  (length (LimitedCapacityCacheMap.data st) <= LimitedCapacityCacheMap.limit st)%nat ->
  ((1 <= LimitedCapacityCacheMap.limit st)%nat ->
     LimitedCapacityCacheMap.getitem K_eq_dec (LimitedCapacityCacheMap.setitem K_eq_dec st k v) k
     = Some v) /\
  (LimitedCapacityCacheMap.limit st = 0%nat ->
     LimitedCapacityCacheMap.data (LimitedCapacityCacheMap.setitem K_eq_dec st k v) = [] /\
     LimitedCapacityCacheMap.getitem K_eq_dec (LimitedCapacityCacheMap.setitem K_eq_dec st k v) k
     = None) /\
  (In k (LimitedCapacityCacheMap.keys (LimitedCapacityCacheMap.data st)) \/
   (length (LimitedCapacityCacheMap.data st) < LimitedCapacityCacheMap.limit st)%nat ->
     LimitedCapacityCacheMap.expired (LimitedCapacityCacheMap.setitem K_eq_dec st k v) =
       LimitedCapacityCacheMap.expired st /\
     forall k', k' <> k ->
       LimitedCapacityCacheMap.getitem K_eq_dec (LimitedCapacityCacheMap.setitem K_eq_dec st k v) k'
       = LimitedCapacityCacheMap.getitem K_eq_dec st k').
Proof.
  destruct st as [d lim cb log]. unfold LimitedCapacityCacheMap.setitem,
    LimitedCapacityCacheMap.gc_state, LimitedCapacityCacheMap.getitem. simpl.
  intros Hlen. unfold LimitedCapacityCacheMap.dict_set.
  destruct (LimitedCapacityCacheMap.mem K_eq_dec k d) eqn:Em.
  - rewrite CacheMapMoreFacts.gc_noop by (rewrite length_map; exact Hlen). simpl.
    split; [intros _; rewrite CacheMapMoreFacts.find_upd_same by exact Em; reflexivity|].
    split.
    + intros ->. destruct d; [discriminate Em|simpl in Hlen; lia].
    + intros _. split; [reflexivity|]. intros k' Hne.
      rewrite CacheMapMoreFacts.find_upd_other by exact Hne. reflexivity.
  - destruct (Nat.ltb_spec (length d) lim) as [Hlt|Hge].
    + rewrite CacheMapMoreFacts.gc_noop by (rewrite length_app; simpl; lia). simpl.
      split; [intros _; rewrite CacheMapMoreFacts.find_snoc_same by exact Em; reflexivity|].
      split; [intros ->; lia|].
      intros _. split; [reflexivity|]. intros k' Hne.
      rewrite CacheMapMoreFacts.find_snoc_other by exact Hne. reflexivity.
    + assert (Heq : length d = lim) by lia. clear Hge Hlen.
      split; [|split].
      * intros H1. destruct d as [|[k0 v0] rest]; [simpl in Heq; lia|].
        simpl app. rewrite CacheMapMoreFacts.gc_one_evict by (rewrite length_app; simpl in *; lia).
        simpl. rewrite CacheMapMoreFacts.find_snoc_same; [reflexivity|].
        simpl in Em. apply orb_false_iff in Em. exact (proj2 Em).
      * intros ->. destruct d as [|x rest]; [|simpl in Heq; lia].
        simpl app. rewrite CacheMapMoreFacts.gc_one_evict by reflexivity. simpl.
        split; reflexivity.
      * intros [Hin|Hlt]; [|lia]. exfalso.
        apply (CacheMapMoreFacts.mem_false_iff K_eq_dec k d); assumption.
Qed.

Lemma cache_map_setitem_getitem_witness :
  (length (LimitedCapacityCacheMap.data
     (LimitedCapacityCacheMap.mk_state [(1%nat, 10%Z); (2%nat, 20%Z)] 2 true [])) <=
   LimitedCapacityCacheMap.limit
     (LimitedCapacityCacheMap.mk_state [(1%nat, 10%Z); (2%nat, 20%Z)] 2 true []))%nat /\
  LimitedCapacityCacheMap.getitem Nat.eq_dec
    (LimitedCapacityCacheMap.setitem Nat.eq_dec
       (LimitedCapacityCacheMap.mk_state [(1%nat, 10%Z); (2%nat, 20%Z)] 2 true []) 3%nat 30) 3%nat
  = Some 30.
Proof.
  assert (H : (length (LimitedCapacityCacheMap.data
     (LimitedCapacityCacheMap.mk_state [(1%nat, 10%Z); (2%nat, 20%Z)] 2 true [])) <=
   LimitedCapacityCacheMap.limit
     (LimitedCapacityCacheMap.mk_state [(1%nat, 10%Z); (2%nat, 20%Z)] 2 true []))%nat)
    by (simpl; lia).
  split; [exact H|].
  apply (cache_map_setitem_getitem Nat.eq_dec _ 3%nat 30 H). simpl. lia.
Defined.

(** The constructor of [LimitedCapacityCacheMap] keeps the last [limit]
    items of its source, in order, and calls [on_expire] (when set) on the
    values of the dropped ones, oldest first; without a callback no call is
    made. [copy] of a map within its limit has the same items, the same limit
    and callback, and starts with no callback calls of its own. *)
Theorem cache_map_init_copy {K V : Type} (source : list (K * V)) (lim : nat) (cb : bool)
    (st : LimitedCapacityCacheMap.state (K:=K) (V:=V)) :
  LimitedCapacityCacheMap.data (LimitedCapacityCacheMap.init source lim cb) =
    skipn (length source - lim) source /\
  map fst (LimitedCapacityCacheMap.expired (LimitedCapacityCacheMap.init source lim cb)) =
    (if cb then map snd (firstn (length source - lim) source) else []) /\
  ((length (LimitedCapacityCacheMap.data st) <= LimitedCapacityCacheMap.limit st)%nat ->
     LimitedCapacityCacheMap.freeze (LimitedCapacityCacheMap.copy st) =
       LimitedCapacityCacheMap.freeze st /\
     LimitedCapacityCacheMap.limit (LimitedCapacityCacheMap.copy st) =
       LimitedCapacityCacheMap.limit st /\
     LimitedCapacityCacheMap.on_expire (LimitedCapacityCacheMap.copy st) =
       LimitedCapacityCacheMap.on_expire st /\
     LimitedCapacityCacheMap.expired (LimitedCapacityCacheMap.copy st) = []).
Proof.
  assert (Hinit : forall (src : list (K * V)) l c,
    LimitedCapacityCacheMap.init src l c =
    LimitedCapacityCacheMap.mk_state
      (fst (LimitedCapacityCacheMap.garbage_collect (K:=K) (V:=V) l c src []))
      l c (snd (LimitedCapacityCacheMap.garbage_collect (K:=K) (V:=V) l c src []))).
  { intros src l c. unfold LimitedCapacityCacheMap.init, LimitedCapacityCacheMap.gc_state. simpl.
    destruct (LimitedCapacityCacheMap.garbage_collect (K:=K) (V:=V) l c src []); reflexivity. }
  destruct (CacheMapMoreFacts.gc_skipn lim cb source []) as [H1 H2].
  split; [rewrite Hinit; exact H1|]. split; [rewrite Hinit; exact H2|].
  intros Hlen. unfold LimitedCapacityCacheMap.copy, LimitedCapacityCacheMap.freeze.
  rewrite Hinit. simpl. rewrite CacheMapMoreFacts.gc_noop by exact Hlen. simpl.
  repeat split.
Qed.

Lemma cache_map_init_copy_witness :
  (length (LimitedCapacityCacheMap.data
     (LimitedCapacityCacheMap.mk_state [(1%nat, 10%Z)] 2 true [(5%Z, [])])) <=
   LimitedCapacityCacheMap.limit
     (LimitedCapacityCacheMap.mk_state [(1%nat, 10%Z)] 2 true [(5%Z, [])]))%nat /\
  LimitedCapacityCacheMap.expired
    (LimitedCapacityCacheMap.copy
       (LimitedCapacityCacheMap.mk_state [(1%nat, 10%Z)] 2 true [(5%Z, [])])) = [].
Proof.
  assert (H : (length (LimitedCapacityCacheMap.data
     (LimitedCapacityCacheMap.mk_state [(1%nat, 10%Z)] 2 true [(5%Z, [])])) <=
   LimitedCapacityCacheMap.limit
     (LimitedCapacityCacheMap.mk_state [(1%nat, 10%Z)] 2 true [(5%Z, [])]))%nat)
    by (simpl; lia).
  split; [exact H|].
  destruct (proj2 (proj2 (cache_map_init_copy (K:=nat) (V:=Z) [] 0 false _)) H)
    as (_ & _ & _ & E).
  exact E.
Defined.

Module GetIndexOrSliceFacts.
Import GetIndexOrSlice.

Lemma maxsize_pos : 0 < maxsize.
Proof. unfold maxsize. reflexivity. Qed.

Lemma pow63 : 2 ^ 63 = maxsize + 1.
Proof. reflexivity. Qed.

Lemma pow64 : 2 ^ 64 = 2 * (maxsize + 1).
Proof. reflexivity. Qed.

Lemma wrap_small (z : Z) : - maxsize - 1 <= z <= maxsize -> ssize_wrap z = z.
Proof.
  intro H. pose proof maxsize_pos. unfold ssize_wrap. rewrite pow63, pow64.
  rewrite Z.mod_small by lia. lia.
Qed.

Lemma wrap_over (z : Z) : maxsize < z <= 2 * maxsize -> ssize_wrap z = z - 2 * (maxsize + 1).
Proof.
  intro H. pose proof maxsize_pos. unfold ssize_wrap. rewrite pow63, pow64.
  replace (z + (maxsize + 1)) with ((z + (maxsize + 1) - 2 * (maxsize + 1)) + 1 * (2 * (maxsize + 1)))
    by ring.
  rewrite Z.mod_add by lia. rewrite Z.mod_small by lia. lia.
Qed.

Lemma clip_nonneg (z : Z) : 0 <= z -> ssize_clip z = Z.min maxsize z.
Proof. intro H. pose proof maxsize_pos. unfold ssize_clip. lia. Qed.

Lemma clip_neg (z : Z) : z < 0 -> ssize_clip z < 0.
Proof. intro H. pose proof maxsize_pos. unfold ssize_clip. lia. Qed.

Lemma pick_ext {A : Type} (p q : nat -> bool) (l : list A) (j0 : nat) :
  (forall j, (j0 <= j < j0 + length l)%nat -> p j = q j) -> pick p l j0 = pick q l j0.
Proof.
  revert j0; induction l as [|x rest IH]; intros j0 H; simpl; [reflexivity|].
  rewrite (H j0) by (simpl; lia).
  rewrite (IH (S j0)) by (intros j Hj; apply H; simpl; lia). reflexivity.
Qed.

Lemma pick_none {A : Type} (p : nat -> bool) (l : list A) (j0 : nat) :
  (forall j, (j0 <= j)%nat -> p j = false) -> pick p l j0 = [].
Proof.
  revert j0; induction l as [|x rest IH]; intros j0 H; simpl; [reflexivity|].
  rewrite (H j0) by lia. apply IH. intros j Hj; apply H; lia.
Qed.

Lemma mod_shift (c st j : nat) :
  (1 <= st)%nat -> (c < j)%nat ->
  (Nat.leb (c + st) j && Nat.eqb (Nat.modulo (j - (c + st)) st) 0)%bool =
  Nat.eqb (Nat.modulo (j - c) st) 0.
Proof.
  intros Hst Hj. destruct (Nat.leb_spec (c + st) j) as [Hle|Hlt]; simpl.
  - replace (j - c)%nat with ((j - (c + st)) + 1 * st)%nat by lia.
    rewrite Nat.Div0.mod_add. reflexivity.
  - rewrite Nat.mod_small by lia. symmetry. apply Nat.eqb_neq. lia.
Qed.

Lemma mod_small_nonzero (c st j : nat) :
  (c < j)%nat -> (j < c + st)%nat -> Nat.eqb (Nat.modulo (j - c) st) 0 = false.
Proof. intros H1 H2. rewrite Nat.mod_small by lia. apply Nat.eqb_neq. lia. Qed.

(** Without wrap-around ([next + step] within [sys.maxsize] while items
    remain, or a stop), [islice] yields the items of the slice. *)
Lemma islice_go_pick {A : Type} (l : list A) (cnt next stop step : Z) :
  1 <= step <= maxsize -> 0 <= cnt <= next -> next <= maxsize ->
  ((stop = -1 /\ cnt + Z.of_nat (length l) + step <= maxsize + 1) \/ 0 <= stop <= maxsize) ->
  islice_go l cnt next stop step =
  pick (in_slice (Z.to_nat next) (if stop =? -1 then None else Some (Z.to_nat stop)) (Z.to_nat step))
    l (Z.to_nat cnt).
Proof.
  intros Hst. pose proof maxsize_pos.
  revert cnt next; induction l as [|x rest IH]; intros cnt next Hc Hn Hs; [reflexivity|].
  cbn [islice_go pick]. destruct (Z.ltb_spec cnt next) as [Hlt|Hge].
  - unfold in_slice at 1. destruct (Nat.leb_spec (Z.to_nat next) (Z.to_nat cnt)); [lia|]. cbn [andb].
    replace (S (Z.to_nat cnt)) with (Z.to_nat (cnt + 1)) by lia.
    apply IH; [lia|lia|]. cbn [length] in Hs. destruct Hs as [[-> Hl]|Hs]; [left|right]; lia.
  - assert (next = cnt) by lia. subst next. clear Hge.
    unfold in_slice at 1. rewrite Nat.leb_refl, Nat.sub_diag, Nat.Div0.mod_0_l.
    replace (S (Z.to_nat cnt)) with (Z.to_nat (cnt + 1)) by lia.
    destruct Hs as [[-> Hl]|Hs].
    + cbn [length] in Hl. rewrite Z.eqb_refl. cbn [negb andb].
      rewrite wrap_small by lia.
      destruct (Z.ltb_spec (cnt + step) cnt); [lia|]. cbn [orb negb andb]. simpl. f_equal.
      rewrite IH by (lia || (left; lia)). rewrite Z.eqb_refl.
      replace (Z.to_nat (cnt + step)) with (Z.to_nat cnt + Z.to_nat step)%nat by lia.
      apply pick_ext. intros j Hj. unfold in_slice.
      destruct (Nat.leb_spec (Z.to_nat cnt) j); [|lia]. simpl.
      rewrite <- (mod_shift (Z.to_nat cnt) (Z.to_nat step) j) by lia. rewrite andb_true_r. reflexivity.
    + assert (Hsn : (stop =? -1) = false) by (apply Z.eqb_neq; lia).
      rewrite Hsn. cbn [negb andb].
      destruct (Z.leb_spec stop cnt) as [Hsc|Hsc].
      * destruct (Nat.ltb_spec (Z.to_nat cnt) (Z.to_nat stop)); [lia|]. simpl.
        symmetry. apply pick_none. intros j Hj. unfold in_slice.
        destruct (Nat.ltb_spec j (Z.to_nat stop)); [lia|]. destruct (Nat.leb _ j); reflexivity.
      * destruct (Nat.ltb_spec (Z.to_nat cnt) (Z.to_nat stop)); [|lia]. simpl. f_equal.
        destruct (Z.leb_spec (cnt + step) maxsize) as [Hno|Hov].
        -- rewrite wrap_small by lia.
           destruct (Z.ltb_spec (cnt + step) cnt); [lia|]. cbn [orb].
           destruct (Z.ltb_spec stop (cnt + step)) as [Hcap|Hnocap]; cbn [andb negb].
           ++ rewrite IH by (lia || (right; lia)). rewrite Hsn.
              apply pick_ext. intros j Hj. unfold in_slice.
              destruct (Nat.leb_spec (Z.to_nat stop) j), (Nat.ltb_spec j (Z.to_nat stop)),
                (Nat.leb_spec (Z.to_nat cnt) j); try lia; simpl; try reflexivity.
              rewrite mod_small_nonzero by lia. reflexivity.
           ++ rewrite IH by (lia || (right; lia)). rewrite Hsn.
              replace (Z.to_nat (cnt + step)) with (Z.to_nat cnt + Z.to_nat step)%nat by lia.
              apply pick_ext. intros j Hj. unfold in_slice.
              destruct (Nat.leb_spec (Z.to_nat cnt) j); [|lia]. simpl.
              rewrite <- (mod_shift (Z.to_nat cnt) (Z.to_nat step) j) by lia.
              destruct (Nat.leb (Z.to_nat cnt + Z.to_nat step) j), (Nat.ltb j (Z.to_nat stop));
                reflexivity.
        -- rewrite wrap_over by lia.
           destruct (Z.ltb_spec (cnt + step - 2 * (maxsize + 1)) cnt); [|lia]. cbn [orb].
           rewrite IH by (lia || (right; lia)). rewrite Hsn.
           apply pick_ext. intros j Hj. unfold in_slice.
           destruct (Nat.leb_spec (Z.to_nat stop) j), (Nat.ltb_spec j (Z.to_nat stop)),
             (Nat.leb_spec (Z.to_nat cnt) j); try lia; simpl; try reflexivity.
           rewrite mod_small_nonzero by lia. reflexivity.
Qed.

Lemma islice_head {A : Type} (l : list A) (cnt next : Z) :
  0 <= cnt <= next -> hd_error (islice_go l cnt next (-1) 1) = nth_error l (Z.to_nat (next - cnt)).
Proof.
  revert cnt; induction l as [|x rest IH]; intros cnt Hc; simpl.
  - destruct (Z.to_nat (next - cnt)); reflexivity.
  - destruct (Z.ltb_spec cnt next) as [Hlt|Hge].
    + rewrite IH by lia. replace (Z.to_nat (next - cnt)) with (S (Z.to_nat (next - (cnt + 1)))) by lia.
      reflexivity.
    + replace (Z.to_nat (next - cnt)) with 0%nat by lia. reflexivity.
Qed.

Lemma islice_skip {A : Type} (pre l : list A) (cnt next stop step : Z) :
  cnt + Z.of_nat (length pre) = next ->
  islice_go (pre ++ l) cnt next stop step = islice_go l next next stop step.
Proof.
  revert cnt; induction pre as [|x pre IH]; intros cnt H; cbn [length app] in *.
  - replace cnt with next by lia. reflexivity.
  - cbn [islice_go]. destruct (Z.ltb_spec cnt next); [apply IH; lia | lia].
Qed.

(** Parameters beyond the length of the list select the same items. *)
Lemma in_slice_agree (n b b' : nat) (e e' : option nat) (st st' j : nat) :
  (j < n)%nat -> (1 <= st)%nat -> (1 <= st')%nat ->
  (b = b' \/ (n <= b /\ n <= b')%nat) ->
  (e = e' \/ exists s s', e = Some s /\ e' = Some s' /\ (n <= s /\ n <= s')%nat) ->
  (st = st' \/ (n <= st /\ n <= st')%nat) ->
  in_slice b e st j = in_slice b' e' st' j.
Proof.
  intros Hj Hs1 Hs2 Hb He Hst. unfold in_slice.
  assert (Eb : Nat.leb b j = Nat.leb b' j).
  { destruct Hb as [<-|Hb]; [reflexivity|].
    destruct (Nat.leb_spec b j), (Nat.leb_spec b' j); lia. }
  rewrite Eb. destruct (Nat.leb_spec b' j) as [Hbj|Hbj]; [|reflexivity]. cbn [andb].
  assert (Ee : match e with Some s => Nat.ltb j s | None => true end =
               match e' with Some s => Nat.ltb j s | None => true end).
  { destruct He as [<-|(s & s' & -> & -> & Hs)]; [reflexivity|].
    destruct (Nat.ltb_spec j s), (Nat.ltb_spec j s'); lia. }
  rewrite Ee. f_equal.
  assert (Hb' : b = b' \/ False) by (destruct Hb as [Hb|Hb]; [left; exact Hb|lia]).
  destruct Hb' as [<-|[]].
  destruct Hst as [<-|Hst]; [reflexivity|].
  rewrite !Nat.mod_small by lia. reflexivity.
Qed.

Lemma clip_agree (n : nat) (z : Z) :
  Z.of_nat n <= maxsize -> 0 <= z ->
  Z.to_nat (ssize_clip z) = Z.to_nat z \/ (n <= Z.to_nat (ssize_clip z) /\ n <= Z.to_nat z)%nat.
Proof.
  intros Hn Hz. rewrite clip_nonneg by exact Hz.
  destruct (Z.leb_spec z maxsize); [left | right]; lia.
Qed.

End GetIndexOrSliceFacts.

(** [get_index_or_slice] with an integer index, on a dict (which holds at
    most [sys.maxsize] items): a non-negative index gives the value at that
    position of the mapping's values (in insertion order), or raises
    [IndexError] with the index when the mapping has no such position (an
    index beyond [sys.maxsize] is clipped by [islice], and no dict reaches
    it); a negative index is rejected by [islice] with [ValueError], not read
    from the end. *)
Theorem get_index_or_slice_index {K V : Type} (mapping : list (K * V)) (i : Z) :
  Z.of_nat (length mapping) <= GetIndexOrSlice.maxsize ->
  GetIndexOrSlice.get_index_or_slice mapping (GetIndexOrSlice.Index i) =
  if 0 <=? i then
    match nth_error (map snd mapping) (Z.to_nat i) with
    | Some v => inr (GetIndexOrSlice.One v)
    | None => inl (GetIndexOrSlice.IndexError i)
    end
  else inl GetIndexOrSlice.ValueError.
Proof.
  intros Hlen. pose proof GetIndexOrSliceFacts.maxsize_pos.
  unfold GetIndexOrSlice.get_index_or_slice, GetIndexOrSlice.islice_args. cbn iota beta zeta.
  destruct (Z.leb_spec 0 i) as [Hi|Hi].
  - pose proof (GetIndexOrSliceFacts.clip_nonneg i Hi) as Hc.
    replace (GetIndexOrSlice.ssize_clip i <? 0) with false by (symmetry; apply Z.ltb_ge; lia).
    cbn [orb]. replace (-1 <? -1) with false by reflexivity. replace (1 <? 1) with false by reflexivity.
    unfold GetIndexOrSlice.islice.
    assert (Hn : nth_error (map snd mapping) (Z.to_nat (GetIndexOrSlice.ssize_clip i)) =
                 nth_error (map snd mapping) (Z.to_nat i)).
    { rewrite Hc. destruct (Z.leb_spec i GetIndexOrSlice.maxsize).
      - f_equal. lia.
      - rewrite !(proj2 (nth_error_None _ _)) by (rewrite length_map; lia). reflexivity. }
    pose proof (GetIndexOrSliceFacts.islice_head (map snd mapping) 0 (GetIndexOrSlice.ssize_clip i)
                  ltac:(lia)) as H1.
    rewrite Z.sub_0_r, Hn in H1.
    destruct (GetIndexOrSlice.islice_go (map snd mapping) 0 (GetIndexOrSlice.ssize_clip i) (-1) 1);
      cbn in H1; rewrite <- H1; reflexivity.
  - replace (GetIndexOrSlice.ssize_clip i <? 0) with true
      by (symmetry; apply Z.ltb_lt; apply GetIndexOrSliceFacts.clip_neg; exact Hi).
    reflexivity.
Qed.

Lemma get_index_or_slice_index_witness :
  Z.of_nat (length [(0%nat, 10); (1%nat, 11); (2%nat, 12)]) <= GetIndexOrSlice.maxsize /\
  GetIndexOrSlice.get_index_or_slice [(0%nat, 10); (1%nat, 11); (2%nat, 12)]
    (GetIndexOrSlice.Index (2 ^ 63)) = inl (GetIndexOrSlice.IndexError (2 ^ 63)).
Proof.
  assert (H : Z.of_nat (length [(0%nat, 10); (1%nat, 11); (2%nat, 12)]) <= GetIndexOrSlice.maxsize)
    by (unfold GetIndexOrSlice.maxsize; simpl; lia).
  split; [exact H|].
  rewrite (get_index_or_slice_index [(0%nat, 10); (1%nat, 11); (2%nat, 12)] (2 ^ 63) H).
  reflexivity.
Defined.

(** [get_index_or_slice] with a slice, on a dict (at most [sys.maxsize]
    items). A slice whose start and stop are [None] or non-negative and
    whose step is [None] or positive gives the tuple of the values at the
    positions [j] with [start <= j < stop] (no upper bound without a stop)
    and [j - start] a multiple of [step], [start] defaulting to [0] and
    [step] to [1], provided it has a stop or the step plus the number of
    items stays within [sys.maxsize + 1]. Without a stop, a start [k] whose
    sum with the (clipped) step exceeds [sys.maxsize] makes [islice]'s
    [next] wrap around: the item after position [k] is yielded too. A step
    of [0] or below, or a negative start or stop, raises [ValueError]. *)
Theorem get_index_or_slice_slice {K V : Type} (mapping : list (K * V))
    (start stop step : option Z) :
  Z.of_nat (length mapping) <= GetIndexOrSlice.maxsize ->
  ((forall z, start = Some z -> 0 <= z) ->
   (forall z, stop = Some z -> 0 <= z) ->
   (forall z, step = Some z -> 1 <= z) ->
   (stop <> None \/
    forall z, step = Some z -> Z.of_nat (length mapping) + z <= GetIndexOrSlice.maxsize + 1) ->
   GetIndexOrSlice.get_index_or_slice mapping (GetIndexOrSlice.Slice start stop step) =
   inr (GetIndexOrSlice.Many
          (GetIndexOrSlice.slice_values (map snd mapping)
             (match start with Some z => Z.to_nat z | None => 0%nat end)
             (option_map Z.to_nat stop)
             (match step with Some z => Z.to_nat z | None => 1%nat end)))) /\
  ((exists z, step = Some z /\ z <= 0) \/ (exists z, start = Some z /\ z < 0) \/
   (exists z, stop = Some z /\ z < 0) ->
   GetIndexOrSlice.get_index_or_slice mapping (GetIndexOrSlice.Slice start stop step) =
   inl GetIndexOrSlice.ValueError) /\
  (forall k z a b,
   0 <= k -> 1 <= z -> GetIndexOrSlice.maxsize < k + Z.min z GetIndexOrSlice.maxsize ->
   nth_error (map snd mapping) (Z.to_nat k) = Some a ->
   nth_error (map snd mapping) (S (Z.to_nat k)) = Some b ->
   exists rest,
     GetIndexOrSlice.get_index_or_slice mapping (GetIndexOrSlice.Slice (Some k) None (Some z)) =
     inr (GetIndexOrSlice.Many (a :: b :: rest))).
Proof.
  intros Hlen. pose proof GetIndexOrSliceFacts.maxsize_pos.
  set (n := length mapping) in *.
  assert (Hvl : length (map snd mapping) = n) by (apply length_map).
  split; [|split].
  - intros Hb He Hs Hov.
    set (b' := match start with Some z => GetIndexOrSlice.ssize_clip z | None => 0 end).
    set (e' := match stop with Some z => GetIndexOrSlice.ssize_clip z | None => -1 end).
    set (s' := match step with Some z => GetIndexOrSlice.ssize_clip z | None => 1 end).
    assert (Hb' : 0 <= b' <= GetIndexOrSlice.maxsize).
    { subst b'. destruct start as [z|]; [|lia].
      rewrite GetIndexOrSliceFacts.clip_nonneg by (apply Hb; reflexivity). specialize (Hb z eq_refl). lia. }
    assert (He' : (stop = None /\ e' = -1) \/ (stop <> None /\ 0 <= e' <= GetIndexOrSlice.maxsize)).
    { subst e'. destruct stop as [z|]; [right|left; split; reflexivity].
      rewrite GetIndexOrSliceFacts.clip_nonneg by (apply He; reflexivity). specialize (He z eq_refl).
      split; [discriminate|lia]. }
    assert (Hs' : 1 <= s' <= GetIndexOrSlice.maxsize).
    { subst s'. destruct step as [z|]; [|lia].
      rewrite GetIndexOrSliceFacts.clip_nonneg by (specialize (Hs z eq_refl); lia).
      specialize (Hs z eq_refl). lia. }
    assert (Hargs : GetIndexOrSlice.islice_args start stop step = Some (b', e', s')).
    { unfold GetIndexOrSlice.islice_args. fold b' e' s'.
      replace (match stop with Some _ => e' =? -1 | None => false end) with false
        by (destruct He' as [[-> _]|[Hne He']]; [reflexivity|destruct stop; [|congruence];
            symmetry; apply Z.eqb_neq; lia]).
      replace (b' <? 0) with false by (symmetry; apply Z.ltb_ge; lia).
      replace (e' <? -1) with false by (symmetry; apply Z.ltb_ge; lia).
      replace (s' <? 1) with false by (symmetry; apply Z.ltb_ge; lia).
      reflexivity. }
    unfold GetIndexOrSlice.get_index_or_slice. rewrite Hargs. do 2 f_equal.
    unfold GetIndexOrSlice.islice, GetIndexOrSlice.slice_values.
    rewrite GetIndexOrSliceFacts.islice_go_pick; [ |lia|lia|lia| ].
    2:{ destruct He' as [[Hn ->]|[_ He']]; [left|right; lia].
        split; [reflexivity|]. destruct Hov as [Hov|Hov]; [contradiction|].
        rewrite Hvl. subst s'. destruct step as [z|]; [|lia].
        rewrite GetIndexOrSliceFacts.clip_nonneg by (specialize (Hs z eq_refl); lia).
        specialize (Hov z eq_refl). lia. }
    apply GetIndexOrSliceFacts.pick_ext. intros j Hj. rewrite Hvl in Hj. cbn in Hj.
    apply (GetIndexOrSliceFacts.in_slice_agree n); [lia|lia| | | |].
    + destruct step as [z|]; [specialize (Hs z eq_refl); lia|lia].
    + subst b'. destruct start as [z|]; [|left; reflexivity].
      exact (GetIndexOrSliceFacts.clip_agree n z Hlen (Hb z eq_refl)).
    + subst e'. destruct stop as [z|]; [|left; reflexivity].
      assert (Hne : (GetIndexOrSlice.ssize_clip z =? -1) = false).
      { apply Z.eqb_neq. pose proof (He z eq_refl).
        rewrite GetIndexOrSliceFacts.clip_nonneg by lia. lia. }
      rewrite Hne. cbn [option_map].
      destruct (GetIndexOrSliceFacts.clip_agree n z Hlen (He z eq_refl)) as [Hz|Hz];
        [left; rewrite Hz; reflexivity|].
      right. exists (Z.to_nat (GetIndexOrSlice.ssize_clip z)), (Z.to_nat z).
      split; [reflexivity|]. split; [reflexivity|]. exact Hz.
    + subst s'. destruct step as [z|]; [|left; reflexivity].
      exact (GetIndexOrSliceFacts.clip_agree n z Hlen ltac:(specialize (Hs z eq_refl); lia)).
  - intros Hv. unfold GetIndexOrSlice.get_index_or_slice.
    replace (GetIndexOrSlice.islice_args start stop step) with (@None (Z * Z * Z)); [reflexivity|].
    unfold GetIndexOrSlice.islice_args.
    destruct Hv as [(z & -> & Hz) | [(z & -> & Hz) | (z & -> & Hz)]].
    + assert (Hc : GetIndexOrSlice.ssize_clip z < 1) by (unfold GetIndexOrSlice.ssize_clip; lia).
      destruct (match stop with Some _ => _ | None => false end); [reflexivity|].
      destruct (_ || _); [reflexivity|]. rewrite (proj2 (Z.ltb_lt _ _) Hc). reflexivity.
    + pose proof (GetIndexOrSliceFacts.clip_neg z Hz) as Hc.
      destruct (match stop with Some _ => _ | None => false end); [reflexivity|].
      rewrite (proj2 (Z.ltb_lt _ _) Hc). reflexivity.
    + pose proof (GetIndexOrSliceFacts.clip_neg z Hz) as Hc.
      destruct (Z.eqb_spec (GetIndexOrSlice.ssize_clip z) (-1)) as [E|E]; [reflexivity|].
      rewrite (proj2 (Z.ltb_lt (GetIndexOrSlice.ssize_clip z) (-1)) ltac:(lia)), orb_true_r.
      reflexivity.
  - intros k z a b Hk Hz Hov Ha Hb.
    destruct (nth_error_split _ _ Ha) as (pre & l2 & Hl & Hpre).
    rewrite Hl in Hb. rewrite nth_error_app2 in Hb by lia.
    replace (S (Z.to_nat k) - length pre)%nat with 1%nat in Hb by lia.
    destruct l2 as [|b' rest]; [discriminate Hb|]. cbn in Hb. injection Hb as ->.
    assert (Hkm : k <= GetIndexOrSlice.maxsize).
    { assert (Z.to_nat k < length (map snd mapping))%nat
        by (apply nth_error_Some; rewrite Ha; discriminate). lia. }
    eexists.
    unfold GetIndexOrSlice.get_index_or_slice, GetIndexOrSlice.islice_args.
    rewrite !GetIndexOrSliceFacts.clip_nonneg by lia.
    replace (Z.min GetIndexOrSlice.maxsize k) with k by lia.
    replace (k <? 0) with false by (symmetry; apply Z.ltb_ge; lia).
    replace (Z.min GetIndexOrSlice.maxsize z <? 1) with false by (symmetry; apply Z.ltb_ge; lia).
    cbn [orb]. replace (-1 <? -1) with false by reflexivity.
    unfold GetIndexOrSlice.islice. rewrite Hl.
    rewrite GetIndexOrSliceFacts.islice_skip by lia.
    cbn [GetIndexOrSlice.islice_go]. rewrite Z.ltb_irrefl. cbn [negb andb Z.eqb].
    rewrite GetIndexOrSliceFacts.wrap_over by lia.
    replace (k + Z.min GetIndexOrSlice.maxsize z - 2 * (GetIndexOrSlice.maxsize + 1) <? k) with true
      by (symmetry; apply Z.ltb_lt; lia).
    cbn [orb]. replace (k + 1 <? -1) with false by (symmetry; apply Z.ltb_ge; lia).
    reflexivity.
Qed.

Lemma get_index_or_slice_slice_witness :
  Z.of_nat (length [(0%nat, 10); (1%nat, 11); (2%nat, 12); (3%nat, 13); (4%nat, 14); (5%nat, 15);
                    (6%nat, 16)]) <= GetIndexOrSlice.maxsize /\
  GetIndexOrSlice.get_index_or_slice
    [(0%nat, 10); (1%nat, 11); (2%nat, 12); (3%nat, 13); (4%nat, 14); (5%nat, 15); (6%nat, 16)]
    (GetIndexOrSlice.Slice (Some 1) (Some 6) (Some 2)) = inr (GetIndexOrSlice.Many [11; 13; 15]) /\
  GetIndexOrSlice.get_index_or_slice [(0%nat, 10); (1%nat, 11); (2%nat, 12)]
    (GetIndexOrSlice.Slice (Some 1) None (Some GetIndexOrSlice.maxsize)) =
    inr (GetIndexOrSlice.Many [11; 12]) /\
  exists rest,
    GetIndexOrSlice.get_index_or_slice [(0%nat, 10); (1%nat, 11); (2%nat, 12)]
      (GetIndexOrSlice.Slice (Some 1) None (Some GetIndexOrSlice.maxsize)) =
    inr (GetIndexOrSlice.Many (11 :: 12 :: rest)).
Proof.
  assert (H : Z.of_nat (length [(0%nat, 10); (1%nat, 11); (2%nat, 12); (3%nat, 13); (4%nat, 14);
                                (5%nat, 15); (6%nat, 16)]) <= GetIndexOrSlice.maxsize)
    by (unfold GetIndexOrSlice.maxsize; simpl; lia).
  assert (H3 : Z.of_nat (length [(0%nat, 10); (1%nat, 11); (2%nat, 12)]) <= GetIndexOrSlice.maxsize)
    by (unfold GetIndexOrSlice.maxsize; simpl; lia).
  split; [exact H|]. split.
  - rewrite (proj1 (get_index_or_slice_slice
      [(0%nat, 10); (1%nat, 11); (2%nat, 12); (3%nat, 13); (4%nat, 14); (5%nat, 15); (6%nat, 16)]
      (Some 1) (Some 6) (Some 2) H)).
    + vm_compute. reflexivity.
    + intros z Hz. injection Hz as <-. lia.
    + intros z Hz. injection Hz as <-. lia.
    + intros z Hz. injection Hz as <-. lia.
    + left. discriminate.
  - destruct (proj2 (proj2 (get_index_or_slice_slice [(0%nat, 10); (1%nat, 11); (2%nat, 12)]
                              None None None H3)) 1 GetIndexOrSlice.maxsize 11 12)
      as [rest Hr].
    + lia.
    + unfold GetIndexOrSlice.maxsize; lia.
    + unfold GetIndexOrSlice.maxsize; lia.
    + reflexivity.
    + reflexivity.
    + split; [vm_compute; reflexivity|]. exists rest. exact Hr.
Defined.

(** [deserialize_permission_overwrite] cannot read back what
    [serialize_permission_overwrite] writes: the serializer writes the keys
    ["allow"] and ["deny"], the deserializer reads ["allow_new"] and
    ["deny_new"], so the result is always an error, and when the id and the
    type read back it is the [KeyError] of ["allow_new"]. *)
Theorem permission_overwrite_roundtrip_fails (rt : Runtime) (T : Type)
    (type_of : json -> result T) (type_json : T -> json)
    (o : PermissionOverwrites.PermissionOverwrite T) :
  (exists e, PermissionOverwrites.deserialize_permission_overwrite rt T type_of
               (PermissionOverwrites.serialize_permission_overwrite T type_json o) = Err e) /\
  (rt_int_of_str rt (z_to_dec (PermissionOverwrites.po_id T o)) =
     Some (PermissionOverwrites.po_id T o) ->
   type_of (type_json (PermissionOverwrites.po_type T o)) = Ok (PermissionOverwrites.po_type T o) ->
   PermissionOverwrites.deserialize_permission_overwrite rt T type_of
     (PermissionOverwrites.serialize_permission_overwrite T type_json o) =
   Err (KeyError (JStr "allow_new"))).
Proof.
  unfold PermissionOverwrites.deserialize_permission_overwrite,
    PermissionOverwrites.serialize_permission_overwrite. cbn.
  split.
  - destruct (rt_int_of_str rt _); cbn; [|eexists; reflexivity].
    destruct (type_of _); cbn; eexists; reflexivity.
  - intros -> ->. reflexivity.
Qed.

Lemma permission_overwrite_roundtrip_fails_witness :
  rt_int_of_str ReferenceRuntime.rt0 (z_to_dec (PermissionOverwrites.po_id json example_overwrite)) =
    Some (PermissionOverwrites.po_id json example_overwrite) /\
  PermissionOverwrites.deserialize_permission_overwrite ReferenceRuntime.rt0 json (@Ok json)
    (PermissionOverwrites.serialize_permission_overwrite json (fun j => j) example_overwrite) =
  Err (KeyError (JStr "allow_new")).
Proof.
  assert (H : rt_int_of_str ReferenceRuntime.rt0
                (z_to_dec (PermissionOverwrites.po_id json example_overwrite)) =
              Some (PermissionOverwrites.po_id json example_overwrite)) by (vm_compute; reflexivity).
  split; [exact H|].
  apply (proj2 (permission_overwrite_roundtrip_fails ReferenceRuntime.rt0 json (@Ok json)
                  (fun j => j) example_overwrite) H eq_refl).
Defined.

(** [deserialize_emoji] picks the model by ["id"] alone: when ["id"] is
    absent or null the payload is a unicode emoji, read from ["name"] (a
    [KeyError] when that is missing), whatever else it holds; otherwise any
    emoji it returns is a custom emoji with that id and name, whose
    [is_animated] is ["animated"] when present and [False] when absent. *)
Theorem deserialize_emoji_dispatch (rt : Runtime) (payload : obj) :
  (is_none (get payload "id") = true ->
   Emojis.deserialize_emoji rt payload =
   match lookup payload "name" with
   | Some n => Ok (Emojis.EUnicode {| Emojis.ue_name := n |})
   | None => Err (KeyError (JStr "name"))
   end) /\
  (is_none (get payload "id") = false ->
   forall e, Emojis.deserialize_emoji rt payload = Ok e ->
   exists c, e = Emojis.ECustom c /\
     snowflake rt (get payload "id") = Ok (Emojis.ce_id c) /\
     lookup payload "name" = Some (Emojis.ce_name c) /\
     Emojis.ce_is_animated c = get_default payload "animated" (JBool false)).
Proof.
  unfold Emojis.deserialize_emoji. split.
  - intros Hn. rewrite Hn. simpl. unfold Emojis.deserialize_unicode_emoji, getitem.
    destruct (lookup payload "name"); reflexivity.
  - intros Hn e He. rewrite Hn in He. simpl in He.
    unfold Emojis.deserialize_custom_emoji, getitem in He. unfold get in *.
    destruct (lookup payload "id") as [idj|]; [|discriminate He]. simpl in He.
    destruct (snowflake rt idj) as [id|] eqn:Ei; [|discriminate He]. simpl in He.
    destruct (lookup payload "name") as [n|]; [|discriminate He]. simpl in He.
    injection He as <-. eexists. split; [reflexivity|]. simpl.
    split; [reflexivity|split; reflexivity].
Qed.

Lemma deserialize_emoji_dispatch_witness :
  is_none (get [("id"%string, JNull); ("name"%string, JStr "x"); ("animated"%string, JBool true)] "id")
    = true /\
  Emojis.deserialize_emoji ReferenceRuntime.rt0
    [("id"%string, JNull); ("name"%string, JStr "x"); ("animated"%string, JBool true)] =
  Ok (Emojis.EUnicode {| Emojis.ue_name := JStr "x" |}).
Proof.
  assert (H : is_none (get [("id"%string, JNull); ("name"%string, JStr "x");
                            ("animated"%string, JBool true)] "id") = true) by reflexivity.
  split; [exact H|].
  apply (proj1 (deserialize_emoji_dispatch ReferenceRuntime.rt0
    [("id"%string, JNull); ("name"%string, JStr "x"); ("animated"%string, JBool true)]) H).
Defined.

(** [deserialize_gateway_bot] never gives a [max_concurrency] below [1]:
    an absent value becomes [1], an [int] [z] becomes [max(z, 1)] and a
    [bool] counts as [0] or [1]; a value that is not a number (null, a str,
    a list, a dict) makes the comparison raise, so no bot is returned. *)
Theorem gateway_bot_max_concurrency_at_least_1 (rt : Runtime) (payload : obj)
    (g : Gateway.GatewayBot) :
  Gateway.deserialize_gateway_bot rt payload = Ok g ->
  exists slp, lookup payload "session_start_limit" = Some (JObj slp) /\
    (let m := Gateway.ssl_max_concurrency (Gateway.gb_session_start_limit g) in
     match lookup slp "max_concurrency" with
     | None => m = JInt 1
     | Some (JInt z) => m = JInt (Z.max z 1)
     | Some (JBool b) => m = if b then JBool true else JInt 1
     | Some _ => False
     end /\
     exists z, py_int rt m = Ok z /\ 1 <= z).
Proof.
  intros H. unfold Gateway.deserialize_gateway_bot in H. bind_ok H.
  injection H as <-. cbn.
  apply ChannelFacts.getitem_ok in E. destruct a; try discriminate E0. injection E0 as <-.
  exists o. split; [exact E|]. unfold get_default in E7. revert E7.
  destruct (lookup o "max_concurrency") as [j|]; intros Em.
  - destruct j as [|b|z| | |]; cbn in Em; try discriminate Em; injection Em as <-.
    + destruct b; cbn; (split; [reflexivity|]); eexists; (split; [reflexivity|lia]).
    + destruct (Z.gtb_spec 1 z); cbn.
      * split; [f_equal; lia|]. eexists; split; [reflexivity|lia].
      * split; [f_equal; lia|]. eexists; split; [reflexivity|lia].
  - cbn in Em. injection Em as <-. split; [reflexivity|]. eexists; split; [reflexivity|lia].
Qed.

Lemma gateway_bot_max_concurrency_at_least_1_witness :
  exists g, Gateway.deserialize_gateway_bot ReferenceRuntime.rt0 gateway_bot_payload = Ok g /\
    Gateway.ssl_max_concurrency (Gateway.gb_session_start_limit g) = JInt 1.
Proof.
  destruct (Gateway.deserialize_gateway_bot ReferenceRuntime.rt0 gateway_bot_payload)
    as [g|err] eqn:Hd; [|vm_compute in Hd; discriminate Hd].
  exists g. split; [reflexivity|].
  destruct (gateway_bot_max_concurrency_at_least_1 ReferenceRuntime.rt0 gateway_bot_payload g Hd)
    as (slp & Hl & Hm & _).
  vm_compute in Hl. injection Hl as <-. exact Hm.
Defined.

Section InviteAttributesFacts.
Variable rt : Runtime.
Variable known_features : list string.
Variable verification_level : Type.
Variable verification_level_of : json -> result verification_level.
Variable target_user_type : Type.
Variable target_user_type_of : json -> result target_user_type.

Local Notation set_invite := (InviteAttributes._set_invite_attributes rt known_features
  verification_level verification_level_of target_user_type target_user_type_of).

(** [_set_invite_attributes] takes the guild id from the guild object when
    the payload has ["guild"] (a ["guild_id"] next to it is not read), from
    ["guild_id"] otherwise, and leaves both the guild and its id [None] when
    neither key is present. The channel id is the id of the ["channel"]
    object when that is present and not null, and ["channel_id"] otherwise,
    with no channel object. *)
Theorem invite_guild_and_channel_ids (payload : obj) inv :
  set_invite payload = Ok inv ->
  (if contains payload "guild" then
     exists gpayload ig,
       lookup payload "guild" = Some (JObj gpayload) /\
       InviteAttributes.ia_guild _ _ _ inv = Some ig /\
       Channels.getitem_snowflake rt gpayload "id" =
         Ok (InviteAttributes.pg_id (InviteAttributes.ig_partial _ ig)) /\
       InviteAttributes.ia_guild_id _ _ _ inv =
         Some (InviteAttributes.pg_id (InviteAttributes.ig_partial _ ig))
   else
     InviteAttributes.ia_guild _ _ _ inv = None /\
     (if contains payload "guild_id" then
        exists z, Channels.getitem_snowflake rt payload "guild_id" = Ok z /\
                  InviteAttributes.ia_guild_id _ _ _ inv = Some z
      else InviteAttributes.ia_guild_id _ _ _ inv = None)) /\
  (if is_none (get payload "channel") then
     InviteAttributes.ia_channel _ _ _ inv = None /\
     Channels.getitem_snowflake rt payload "channel_id" = Ok (InviteAttributes.ia_channel_id _ _ _ inv)
   else
     exists c, InviteAttributes.ia_channel _ _ _ inv = Some c /\
               InviteAttributes.ia_channel_id _ _ _ inv = Channels.ch_id c).
Proof.
  intros H. unfold InviteAttributes._set_invite_attributes in H. bind_ok H.
  injection H as <-. cbn [InviteAttributes.ia_guild InviteAttributes.ia_guild_id
    InviteAttributes.ia_channel InviteAttributes.ia_channel_id].
  split.
  - revert E0. destruct (contains payload "guild").
    + intros E0. bind_ok E0. injection E0 as <-. cbn [fst snd].
      apply ChannelFacts.getitem_ok in E7. destruct a7; try discriminate E8. injection E8 as <-.
      unfold InviteAttributes._set_partial_guild_attributes in E9. bind_ok E9.
      injection E9 as <-.
      do 2 eexists. split; [exact E7|]. split; [reflexivity|]. split; [exact E0|reflexivity].
    + destruct (contains payload "guild_id").
      * intros E0. bind_ok E0. injection E0 as <-. cbn [fst snd].
        split; [reflexivity|]. eexists; split; reflexivity.
      * intros E0. injection E0 as <-. split; reflexivity.
  - revert E1. destruct (is_none (get payload "channel")); cbn [negb].
    + intros E1. bind_ok E1. injection E1 as <-. split; reflexivity.
    + intros E1. bind_ok E1. injection E1 as <-. eexists; split; reflexivity.
Qed.

End InviteAttributesFacts.

Lemma invite_guild_and_channel_ids_witness :
  exists inv,
    InviteAttributes._set_invite_attributes ReferenceRuntime.rt0 [] json (@Ok json) json (@Ok json)
      invite_payload = Ok inv /\
    InviteAttributes.ia_guild_id _ _ _ inv = Some 10.
Proof.
  destruct (InviteAttributes._set_invite_attributes ReferenceRuntime.rt0 [] json (@Ok json) json
              (@Ok json) invite_payload) as [inv|err] eqn:Hd; [|vm_compute in Hd; discriminate Hd].
  exists inv. split; [reflexivity|].
  pose proof (proj1 (invite_guild_and_channel_ids ReferenceRuntime.rt0 [] json (@Ok json) json
                       (@Ok json) invite_payload inv Hd)) as G.
  simpl in G. destruct G as (gp & ig & Hl & _ & Hid & Hgid).
  injection Hl as <-. vm_compute in Hid. injection Hid as Hid.
  rewrite Hgid. f_equal. symmetry. exact Hid.
Defined.

Module ChannelMoreFacts.

Lemma eq_int_unique (j : json) (a b : Z) : eq_int j a = true -> eq_int j b = true -> a = b.
Proof. destruct j; simpl; try discriminate; rewrite !Z.eqb_eq; congruence. Qed.

Lemma channel_type_value_inj (a b : ChannelType) :
  channel_type_value a = channel_type_value b -> a = b.
Proof. destruct a, b; simpl; congruence. Qed.

Lemma partial_type (rt : Runtime) (p : obj) (pc : Channels.PartialChannel) :
  Channels._set_partial_channel_attributes rt p = Ok pc ->
  exists tj, lookup p "type" = Some tj /\ eq_int tj (channel_type_value (Channels.ch_type pc)) = true.
Proof.
  intros H. unfold Channels._set_partial_channel_attributes in H. bind_ok H.
  injection H as <-. simpl. exists a0. split; [apply ChannelFacts.getitem_ok; exact E0|].
  unfold channel_type_of in E1. destruct (find _ all_channel_types) as [t|] eqn:Ef; [|discriminate E1].
  injection E1 as <-. apply find_some in Ef. exact (proj2 Ef).
Qed.

Lemma guild_base (rt : Runtime) (p : obj) (gid : option Z) (g : Channels.GuildChannel rt) :
  Channels._set_guild_channel_attributes rt p gid = Ok g ->
  Channels._set_partial_channel_attributes rt p = Ok (Channels.gc_base rt g).
Proof.
  intros H. unfold Channels._set_guild_channel_attributes in H. bind_ok H.
  injection H as <-. reflexivity.
Qed.

Lemma text_base (rt : Runtime) (p : obj) (gid : option Z) (t : Channels.GuildTextChannel rt) :
  Channels.deserialize_guild_text_channel rt p gid = Ok t ->
  Channels._set_partial_channel_attributes rt p = Ok (Channels.gc_base rt (Channels.gt_guild rt t)).
Proof.
  intros H. unfold Channels.deserialize_guild_text_channel in H. bind_ok H.
  injection H as <-. apply (guild_base rt p gid). exact E.
Qed.

Lemma news_base (rt : Runtime) (p : obj) (gid : option Z) (n : Channels.GuildNewsChannel rt) :
  Channels.deserialize_guild_news_channel rt p gid = Ok n ->
  Channels._set_partial_channel_attributes rt p = Ok (Channels.gc_base rt (Channels.gn_guild rt n)).
Proof.
  intros H. unfold Channels.deserialize_guild_news_channel in H. bind_ok H.
  injection H as <-. apply (guild_base rt p gid). exact E.
Qed.

Lemma voice_base (rt : Runtime) (p : obj) (gid : option Z) (v : Channels.GuildVoiceChannel rt) :
  Channels.deserialize_guild_voice_channel rt p gid = Ok v ->
  Channels._set_partial_channel_attributes rt p = Ok (Channels.gc_base rt (Channels.gv_guild rt v)).
Proof.
  intros H. unfold Channels.deserialize_guild_voice_channel in H. bind_ok H.
  injection H as <-. apply (guild_base rt p gid). exact E.
Qed.

Lemma dm_base (rt : Runtime) (p : obj) (d : Channels.PrivateTextChannel rt) :
  Channels.deserialize_private_text_channel rt p = Ok d ->
  Channels._set_partial_channel_attributes rt p = Ok (Channels.dm_base rt d).
Proof.
  intros H. unfold Channels.deserialize_private_text_channel in H. bind_ok H.
  injection H as <-. reflexivity.
Qed.

Lemma group_base (rt : Runtime) (p : obj) (g : Channels.GroupPrivateTextChannel rt) :
  Channels.deserialize_private_group_text_channel rt p = Ok g ->
  Channels._set_partial_channel_attributes rt p = Ok (Channels.gp_base rt g).
Proof.
  intros H. unfold Channels.deserialize_private_group_text_channel in H. bind_ok H.
  injection H as <-. reflexivity.
Qed.

Lemma deserialize_channel_base (rt : Runtime) (payload : obj) (gid : option Z)
    (c : Channels.Channel rt) :
  Channels.deserialize_channel rt payload gid = Ok c ->
  Channels._set_partial_channel_attributes rt payload = Ok (channel_base rt c) /\
  exists tj, lookup payload "type" = Some tj /\
    eq_int tj (channel_type_value (channel_class_type rt c)) = true.
Proof.
  intros H. unfold Channels.deserialize_channel in H. bind_ok H.
  apply ChannelFacts.getitem_ok in E.
  destruct a0 as [t|].
  - assert (Ht : In t [GUILD_CATEGORY; GUILD_TEXT; GUILD_NEWS; GUILD_STORE; GUILD_VOICE] /\
                 eq_int a (channel_type_value t) = true).
    { unfold Channels.guild_channel_type_mapping_get in E0.
      assert (Ef : find (fun t => eq_int a (channel_type_value t))
                     [GUILD_CATEGORY; GUILD_TEXT; GUILD_NEWS; GUILD_STORE; GUILD_VOICE] = Some t)
        by (destruct a; try discriminate E0; injection E0 as E0; exact E0).
      apply find_some in Ef. exact Ef. }
    destruct Ht as [Hin Heq].
    destruct t; try (exfalso; simpl in Hin; intuition discriminate);
      bind_ok H; injection H as <-;
      (split; [|exists a; split; [exact E|exact Heq]]); simpl;
      first [ apply (guild_base rt payload gid); exact E1
            | apply (text_base rt payload gid); exact E1
            | apply (news_base rt payload gid); exact E1
            | apply (voice_base rt payload gid); exact E1 ].
  - bind_ok H.
    assert (Ht : In a0 [PRIVATE_TEXT; PRIVATE_GROUP_TEXT] /\ eq_int a (channel_type_value a0) = true).
    { unfold Channels.dm_channel_type_mapping_getitem in E1.
      destruct (find _ _) as [t|] eqn:Ef; [|discriminate E1].
      injection E1 as <-. apply find_some in Ef. exact Ef. }
    destruct Ht as [Hin Heq].
    destruct a0; try (exfalso; simpl in Hin; intuition discriminate);
      bind_ok H; injection H as <-;
      (split; [|exists a; split; [exact E|exact Heq]]); simpl;
      first [ apply (dm_base rt payload); exact E2
            | apply (group_base rt payload); exact E2 ].
Qed.

End ChannelMoreFacts.

(** The class of the channel [deserialize_channel] returns always agrees
    with the payload's ["type"] (compared as Python compares it with the
    [ChannelType] value), and the [type] attribute stored on the channel is
    that same channel type: the dispatch tables and [ChannelType(...)] never
    disagree. *)
Theorem deserialize_channel_type_consistent (rt : Runtime) (payload : obj) (gid : option Z)
    (c : Channels.Channel rt) :
  Channels.deserialize_channel rt payload gid = Ok c ->
  (exists tj, lookup payload "type" = Some tj /\
     eq_int tj (channel_type_value (channel_class_type rt c)) = true) /\
  Channels.ch_type (channel_base rt c) = channel_class_type rt c.
Proof.
  intros H. destruct (ChannelMoreFacts.deserialize_channel_base rt payload gid c H)
    as [Hb (tj & Ht & Heq)].
  split; [exists tj; split; assumption|].
  destruct (ChannelMoreFacts.partial_type rt payload _ Hb) as (tj' & Ht' & Heq').
  rewrite Ht in Ht'. injection Ht' as <-.
  apply ChannelMoreFacts.channel_type_value_inj.
  exact (ChannelMoreFacts.eq_int_unique tj _ _ Heq' Heq).
Qed.

Lemma deserialize_channel_type_consistent_witness :
  exists c, Channels.deserialize_channel ReferenceRuntime.rt0 text_channel_payload None = Ok c /\
    Channels.ch_type (channel_base ReferenceRuntime.rt0 c) = GUILD_TEXT.
Proof.
  destruct (Channels.deserialize_channel ReferenceRuntime.rt0 text_channel_payload None)
    as [c|err] eqn:Hd; [|vm_compute in Hd; discriminate Hd].
  exists c. split; [reflexivity|].
  rewrite (proj2 (deserialize_channel_type_consistent ReferenceRuntime.rt0 text_channel_payload
                    None c Hd)).
  vm_compute in Hd. injection Hd as <-. reflexivity.
Defined.

(** [_set_guild_channel_attributes] builds [permission_overwrites] as a
    dict keyed by each overwrite's id: an overwrite of the payload list is
    kept under its id, deserialized, unless a later overwrite has the same
    id, which then replaces it. *)
Theorem guild_channel_overwrites_last_wins (rt : Runtime) (payload : obj) (gid : option Z)
    (g : Channels.GuildChannel rt) (pre post : list json) (o : obj) (k : Z) :
  Channels._set_guild_channel_attributes rt payload gid = Ok g ->
  lookup payload "permission_overwrites" = Some (JArr (pre ++ JObj o :: post)) ->
  Channels.getitem_snowflake rt o "id" = Ok k ->
  (forall ow o', In ow post -> ow = JObj o' -> Channels.getitem_snowflake rt o' "id" <> Ok k) ->
  exists v, rt_deserialize_permission_overwrite rt (JObj o) = Ok v /\
    In (k, v) (Channels.gc_permission_overwrites rt g).
Proof.
  intros H Hl Hk Hpost. unfold Channels._set_guild_channel_attributes in H. bind_ok H.
  injection H as <-. cbn [Channels.gc_permission_overwrites].
  apply ChannelFacts.getitem_ok in E2. rewrite Hl in E2. injection E2 as <-.
  cbn [as_list] in E3. injection E3 as <-.
  destruct (DictFacts.map_result_app _ _ _ _ E4) as (ys1 & ys2 & -> & _ & H2).
  cbn [map_result] in H2. cbn [as_obj bind] in H2. rewrite Hk in H2. cbn [bind] in H2.
  destruct (rt_deserialize_permission_overwrite rt (JObj o)) as [v|err];
    cbn [bind] in H2; [|discriminate H2].
  destruct (map_result _ post) as [rest|err] eqn:Hrest; cbn [bind] in H2; [|discriminate H2].
  injection H2 as <-.
  exists v. split; [reflexivity|].
  apply DictFacts.dict_of_pairs_last.
  intros kv Hkv. destruct (DictFacts.map_result_in _ _ _ _ Hrest Hkv) as (ow & How & Hf).
  destruct ow as [| | | | |o']; cbn [as_obj bind] in Hf; try discriminate Hf.
  destruct (Channels.getitem_snowflake rt o' "id") as [k'|err] eqn:Ek; cbn [bind] in Hf;
    [|discriminate Hf].
  destruct (rt_deserialize_permission_overwrite rt (JObj o')); cbn [bind] in Hf; [|discriminate Hf].
  injection Hf as <-. cbn [fst]. intros ->. exact (Hpost _ o' How eq_refl Ek).
Qed.

Lemma guild_channel_overwrites_last_wins_witness :
  exists g, Channels._set_guild_channel_attributes ReferenceRuntime.rt0 overwrites_channel_payload None
              = Ok g /\
    In (3, JObj [("id"%string, JInt 3); ("allow_new"%string, JStr "2")])
       (Channels.gc_permission_overwrites ReferenceRuntime.rt0 g).
Proof.
  destruct (Channels._set_guild_channel_attributes ReferenceRuntime.rt0 overwrites_channel_payload None)
    as [g|err] eqn:Hd; [|vm_compute in Hd; discriminate Hd].
  exists g. split; [reflexivity|].
  destruct (guild_channel_overwrites_last_wins ReferenceRuntime.rt0 overwrites_channel_payload None g
              [JObj [("id"%string, JInt 3); ("allow_new"%string, JStr "1")]] []
              [("id"%string, JInt 3); ("allow_new"%string, JStr "2")] 3 Hd eq_refl eq_refl
              (fun ow o' Hin _ => match Hin with end)) as (v & Hv & Hin).
  vm_compute in Hv. injection Hv as <-. exact Hin.
Defined.

(** [deserialize_private_text_channel] takes the recipient from the first
    entry of ["recipients"] (later entries are not read), so a DM channel
    payload with an empty ["recipients"] list never deserializes. *)
Theorem private_text_channel_first_recipient (rt : Runtime) (payload : obj)
    (d : Channels.PrivateTextChannel rt) :
  Channels.deserialize_private_text_channel rt payload = Ok d ->
  exists r rest, lookup payload "recipients" = Some (JArr (r :: rest)) /\
    rt_deserialize_user rt r = Ok (Channels.dm_recipient rt d).
Proof.
  intros H. unfold Channels.deserialize_private_text_channel in H. bind_ok H.
  injection H as <-. cbn [Channels.dm_recipient].
  apply ChannelFacts.getitem_ok in E2.
  unfold index0 in E3. bind_ok E3.
  destruct a2; try discriminate E5. injection E5 as <-.
  destruct l as [|r rest]; [discriminate E3|]. injection E3 as <-.
  exists r, rest. split; [exact E2|exact E4].
Qed.

Lemma private_text_channel_first_recipient_witness :
  exists d, Channels.deserialize_private_text_channel ReferenceRuntime.rt0
    [("id"%string, JInt 5); ("type"%string, JInt 1); ("last_message_id"%string, JNull);
     ("recipients"%string, JArr [JObj [("id"%string, JInt 8)]; JObj [("id"%string, JInt 9)]])]
    = Ok d /\
    Channels.dm_recipient ReferenceRuntime.rt0 d = JObj [("id"%string, JInt 8)].
Proof.
  destruct (Channels.deserialize_private_text_channel ReferenceRuntime.rt0
    [("id"%string, JInt 5); ("type"%string, JInt 1); ("last_message_id"%string, JNull);
     ("recipients"%string, JArr [JObj [("id"%string, JInt 8)]; JObj [("id"%string, JInt 9)]])])
    as [d|err] eqn:Hd; [|vm_compute in Hd; discriminate Hd].
  exists d. split; [reflexivity|].
  destruct (private_text_channel_first_recipient ReferenceRuntime.rt0 _ d Hd) as (r & rest & Hl & Hr).
  vm_compute in Hl. injection Hl as <- <-. simpl in Hr. injection Hr as Hr. symmetry. exact Hr.
Defined.

Module EmbedMoreFacts.

Lemma keys_set_if_not_none (p : obj) (k : string) (j : json) :
  map fst (Embeds.set_if_not_none p k j) = map fst p ++ slot (negb (is_none j)) k.
Proof.
  unfold Embeds.set_if_not_none, slot. destruct (is_none j); cbn [negb].
  - rewrite app_nil_r. reflexivity.
  - rewrite map_app. reflexivity.
Qed.

Lemma slot_in (c : bool) (k x : string) : In x (slot c k) -> x = k.
Proof. unfold slot; destruct c; cbn; [intros [H|[]]; symmetry; exact H | intros []]. Qed.

Lemma nodup_slot (c : bool) (k : string) : NoDup (slot c k).
Proof. unfold slot; destruct c; repeat constructor; intros []. Qed.

Lemma nodup_app {A : Type} (l1 l2 : list A) :
  NoDup l1 -> NoDup l2 -> (forall x, In x l1 -> ~ In x l2) -> NoDup (l1 ++ l2).
Proof.
  induction l1 as [|a l1 IH]; cbn; intros H1 H2 Hd; [exact H2|].
  inversion H1 as [|a' l1' Ha H1']; subst. constructor.
  - rewrite in_app_iff. intros [H|H]; [contradiction|]. exact (Hd a (or_introl eq_refl) H).
  - apply IH; [exact H1'|exact H2|]. intros x Hx. exact (Hd x (or_intror Hx)).
Qed.

Ltac slot_absurd H :=
  repeat (apply in_app_iff in H; destruct H as [H|H]; [apply slot_in in H; discriminate H|]);
  apply slot_in in H; discriminate H.

Lemma embed_keys_nodup rt e : NoDup (embed_keys rt e).
Proof.
  unfold embed_keys.
  repeat (apply nodup_app;
          [ apply nodup_slot
          |
          | let x := fresh in let Hx := fresh in let Hy := fresh in
            intros x Hx Hy; apply slot_in in Hx; subst x; slot_absurd Hy ]);
  apply nodup_slot.
Qed.

Lemma upload_if_local_filter rt ups r :
  Embeds.upload_if_local rt ups r = ups ++ filter (fun r => negb (rt_is_web_resource rt r)) [r].
Proof.
  unfold Embeds.upload_if_local; cbn.
  destruct (rt_is_web_resource rt r); cbn; [rewrite app_nil_r|]; reflexivity.
Qed.

End EmbedMoreFacts.

(** [serialize_embed] writes one key for each attribute of the embed that is
    set (["fields"] only for a non-empty list), in a fixed order, each key
    once; the video and the provider are never written. *)
Theorem serialize_embed_keys (rt : Runtime) (e : Embeds.Embed rt) out ups :
  Embeds.serialize_embed rt e = Ok (out, ups) ->
  map fst out = embed_keys rt e /\ NoDup (map fst out) /\
  ~ In "video"%string (map fst out) /\ ~ In "provider"%string (map fst out).
Proof.
  intros H.
  assert (Hk : map fst out = embed_keys rt e).
  { unfold embed_keys. EmbedFacts.embed_cases e;
    (destruct (Embeds.e_fields rt e) as [[|f fs]|];
     [ | destruct (Embeds.serialize_fields rt 0 (f :: fs)) as [fps|err'];
         cbn [bind] in H; [|discriminate H] | ];
     injection H as <- _;
     destruct (Embeds.e_timestamp rt e); destruct (Embeds.e_color rt e);
     rewrite ?map_app, ?EmbedMoreFacts.keys_set_if_not_none; cbn [map fst is_set];
     unfold slot; cbn [is_set];
     rewrite <- ?app_assoc, ?app_nil_l, ?app_nil_r; reflexivity). }
  rewrite Hk. split; [reflexivity|]. split; [apply EmbedMoreFacts.embed_keys_nodup|].
  split; intro Hin; unfold embed_keys in Hin; EmbedMoreFacts.slot_absurd Hin.
Qed.

Lemma serialize_embed_keys_witness :
  exists out ups, Embeds.serialize_embed ReferenceRuntime.rt0
    (example_embed ReferenceRuntime.rt0 "https://a/f.png"%string "https://a/i.png"%string) = Ok (out, ups) /\
    map fst out = ["title"; "color"; "footer"; "image"; "author"; "fields"]%string.
Proof.
  destruct (Embeds.serialize_embed ReferenceRuntime.rt0
    (example_embed ReferenceRuntime.rt0 "https://a/f.png"%string "https://a/i.png"%string))
    as [[out ups]|err] eqn:Hs; [|vm_compute in Hs; discriminate Hs].
  exists out, ups. split; [reflexivity|].
  destruct (serialize_embed_keys ReferenceRuntime.rt0 _ out ups Hs) as [Hk _].
  rewrite Hk. reflexivity.
Defined.

(** The uploads [serialize_embed] returns are the resources of the embed
    (footer icon, image, thumbnail, author icon, in this order) that are not
    web resources. *)
Theorem serialize_embed_uploads (rt : Runtime) (e : Embeds.Embed rt) out ups :
  Embeds.serialize_embed rt e = Ok (out, ups) ->
  ups = filter (fun r => negb (rt_is_web_resource rt r)) (embed_resources rt e).
Proof.
  intros H. unfold embed_resources. EmbedFacts.embed_cases e;
  (destruct (Embeds.e_fields rt e) as [[|f fs]|];
   [ | destruct (Embeds.serialize_fields rt 0 (f :: fs)) as [fps|err'];
       cbn [bind] in H; [|discriminate H] | ];
   injection H as _ <-;
   rewrite ?EmbedMoreFacts.upload_if_local_filter, ?filter_app; cbn [app];
   rewrite <- ?app_assoc, ?app_nil_r; reflexivity).
Qed.

Lemma serialize_embed_uploads_witness :
  exists out ups, Embeds.serialize_embed ReferenceRuntime.rt_files
    (example_embed ReferenceRuntime.rt_files "attachment://f.png"%string "https://a/i.png"%string)
    = Ok (out, ups) /\ ups = ["attachment://f.png"%string].
Proof.
  destruct (Embeds.serialize_embed ReferenceRuntime.rt_files
    (example_embed ReferenceRuntime.rt_files "attachment://f.png"%string "https://a/i.png"%string))
    as [[out ups]|err] eqn:Hs; [|vm_compute in Hs; discriminate Hs].
  exists out, ups. split; [reflexivity|].
  rewrite (serialize_embed_uploads ReferenceRuntime.rt_files _ out ups Hs). reflexivity.
Defined.
